(** * RespAct and the output parser of ts-dspy: a shallow embedding

    The development follows the TypeScript sources:
    - [core/signature.ts]   ([Signature.parseStringSignature],
      [Signature.getPromptFormat]),
    - [utils/parsing.ts]    ([buildPrompt], [parseOutput], [extractFieldValue],
      [convertValue]),
    - [modules/respact.ts]  ([RespAct]: constructor, [forward], [extractToolCall],
      [executeTool], [extractFinalAnswer], [buildInitialPrompt]),
    - [core/config.ts]      ([configure], [getDefaultLM], [isCacheEnabled],
      [isTracingEnabled]),
    - [core/module.ts]      (the constructor of [Module]),
    - [modules/predict.ts]  ([Predict.forward]),
    - [modules/chain-of-thought.ts] ([ChainOfThought.forward]).

    The ECMAScript built-ins the sources call (String.prototype methods,
    RegExp matching, Number, parseInt, parseFloat, JSON) are given as
    executable definitions in [Module JS].  What the embedding takes for
    granted:
    - texts are Rocq strings, read as sequences of code units
      U+0000..U+00FF;
    - a Number is the exact decimal it was read from;
    - [maxSteps] is a finite number;
    - field names have no pattern syntax in them where they are put into
      the source of a regular expression (the statements that need it
      say so: [literalName]);
    - where a thrown value cannot be put into a template literal, the
      error of that conversion is an Error object. *)

From Stdlib Require Import Bool Arith NArith ZArith List Ascii String Lia.
From Stdlib Require Import DecimalString.
Import ListNotations.
Local Open Scope string_scope.
Local Open Scope bool_scope.
Local Open Scope nat_scope.

(** ** ECMAScript built-ins *)

Module JS.

(** *** Characters *)

Definition code (c : ascii) : nat := nat_of_ascii c.

Definition LF : ascii := ascii_of_nat 10.
Definition CR : ascii := ascii_of_nat 13.
Definition DQUOTE : ascii := ascii_of_nat 34.
Definition SQUOTE : ascii := ascii_of_nat 39.
Definition BACKSLASH : ascii := ascii_of_nat 92.

Definition in_range (lo hi : nat) (c : ascii) : bool :=
  (lo <=? code c) && (code c <=? hi).

(** WhiteSpace and LineTerminator code units below U+0100: what [\s]
    matches and what [trim] removes. *)
Definition isWhiteSpace (c : ascii) : bool :=
  in_range 9 13 c || (code c =? 32) || (code c =? 160).

(** LineTerminator: what [.] refuses and where a multiline [$] holds. *)
Definition isLineTerminator (c : ascii) : bool :=
  (code c =? 10) || (code c =? 13).

(** [\w] is [A-Za-z0-9_]. *)
Definition isWordChar (c : ascii) : bool :=
  in_range 65 90 c || in_range 97 122 c || in_range 48 57 c || (code c =? 95).

Definition isDigit (c : ascii) : bool := in_range 48 57 c.

Definition isUpper (c : ascii) : bool :=
  in_range 65 90 c || in_range 192 214 c || in_range 216 222 c.

Definition isLower (c : ascii) : bool :=
  in_range 97 122 c || in_range 224 246 c || in_range 248 254 c.

Definition lowerChar (c : ascii) : ascii :=
  if isUpper c then ascii_of_nat (code c + 32) else c.

(** The upper-case partner inside U+0000..U+00FF; [ÿ], [µ] and [ß] have
    none there and stay as they are. *)
Definition upperChar (c : ascii) : ascii :=
  if isLower c then ascii_of_nat (code c - 32) else c.

(** *** String.prototype *)

Fixpoint toLowerCase (s : string) : string :=
  match s with
  | EmptyString => EmptyString
  | String c s' => String (lowerChar c) (toLowerCase s')
  end.

Fixpoint startsWith (s p : string) {struct p} : bool :=
  match p, s with
  | EmptyString, _ => true
  | String _ _, EmptyString => false
  | String a p', String b s' => Ascii.eqb a b && startsWith s' p'
  end.

Fixpoint includes (s sub : string) : bool :=
  startsWith s sub ||
  match s with
  | EmptyString => false
  | String _ s' => includes s' sub
  end.

Fixpoint rev_onto (s acc : string) : string :=
  match s with
  | EmptyString => acc
  | String c s' => rev_onto s' (String c acc)
  end.

Definition reverse (s : string) : string := rev_onto s EmptyString.

Definition endsWith (s p : string) : bool :=
  startsWith (reverse s) (reverse p).

Fixpoint trimStart (s : string) : string :=
  match s with
  | EmptyString => EmptyString
  | String c s' => if isWhiteSpace c then trimStart s' else s
  end.

Definition trimEnd (s : string) : string := reverse (trimStart (reverse s)).

Definition trim (s : string) : string := trimEnd (trimStart s).

Fixpoint drop (n : nat) (s : string) : string :=
  match n, s with
  | O, _ => s
  | S _, EmptyString => EmptyString
  | S n', String _ s' => drop n' s'
  end.

Fixpoint take (n : nat) (s : string) : string :=
  match n, s with
  | O, _ => EmptyString
  | S _, EmptyString => EmptyString
  | S n', String c s' => String c (take n' s')
  end.

(** [s.split(sep)] for a non-empty separator string: [skip] counts the
    code units of a separator occurrence still to be passed over, [cur]
    is the piece being collected. *)
Fixpoint split_go (sep : string) (skip : nat) (cur s : string) : list string :=
  match s with
  | EmptyString => [cur]
  | String c s' =>
      match skip with
      | S k => split_go sep k cur s'
      | O =>
          if startsWith s sep
          then cur :: split_go sep (String.length sep - 1) EmptyString s'
          else split_go sep 0 (cur ++ String c EmptyString) s'
      end
  end.

Definition split (s sep : string) : list string := split_go sep 0 EmptyString s.

(** [s.split(/[...]/)] for a pattern that is one character class. *)
Fixpoint splitClass_go (p : ascii -> bool) (cur s : string) : list string :=
  match s with
  | EmptyString => [cur]
  | String c s' =>
      if p c then cur :: splitClass_go p EmptyString s'
      else splitClass_go p (cur ++ String c EmptyString) s'
  end.

Definition splitClass (p : ascii -> bool) (s : string) : list string :=
  splitClass_go p EmptyString s.

Definition join (l : list string) (sep : string) : string := String.concat sep l.

(** A string is truthy when it is not empty. *)
Definition truthy (s : string) : bool :=
  match s with EmptyString => false | _ => true end.

(** *** RegExp: abstract syntax and a backtracking matcher

    Only what the sources' patterns use: literals, classes, [.], sequence,
    alternation, greedy and lazy [*] (and [+] as [r r*]), one capture group,
    positive lookahead, [^], [$], [\b]; flags [i], [m], [s]. *)

Inductive citem :=
| CChar (c : ascii)
| CRange (lo hi : ascii)
| CSpace          (* \s *)
| CNotSpace       (* \S *)
| CWord.          (* \w *)

Inductive regex :=
| Eps
| Chr (c : ascii)
| Dot
| Cls (inverted : bool) (items : list citem)
| Seq (r1 r2 : regex)
| Alt (r1 r2 : regex)
| Star (greedy : bool) (r : regex)
| Group (r : regex)
| Ahead (r : regex)
| Bol
| Eol
| WordB.

Record flags := { ignoreCase : bool; multiline : bool; dotAll : bool }.

Definition plus (greedy : bool) (r : regex) : regex := Seq r (Star greedy r).

Fixpoint lit (s : string) : regex :=
  match s with
  | EmptyString => Eps
  | String c s' => Seq (Chr c) (lit s')
  end.

Definition citem_has (i : citem) (c : ascii) : bool :=
  match i with
  | CChar a => Ascii.eqb a c
  | CRange lo hi => in_range (code lo) (code hi) c
  | CSpace => isWhiteSpace c
  | CNotSpace => negb (isWhiteSpace c)
  | CWord => isWordChar c
  end.

Definition set_has (items : list citem) (c : ascii) : bool :=
  existsb (fun i => citem_has i c) items.

(** Canonicalize (case-insensitive matching): two code units agree when
    their upper-case forms agree; a member of a class is found when some
    member has the canonical form of the input code unit. *)
Definition canon_eq (fl : flags) (a b : ascii) : bool :=
  if ignoreCase fl then Ascii.eqb (upperChar a) (upperChar b) else Ascii.eqb a b.

Definition set_found (fl : flags) (items : list citem) (c : ascii) : bool :=
  if ignoreCase fl
  then set_has items c || set_has items (upperChar c) || set_has items (lowerChar c)
  else set_has items c.

(** The matcher state: the code unit before the current position, the
    input still to read, and what group 1 captured. *)
Record mstate := { prev : option ascii; rest : string; cap : option string }.

Definition consume (st : mstate) (ok : ascii -> bool) (k : mstate -> option mstate)
  : option mstate :=
  match rest st with
  | String c s' =>
      if ok c then k {| prev := Some c; rest := s'; cap := cap st |} else None
  | EmptyString => None
  end.

Definition isWordOpt (o : option ascii) : bool :=
  match o with Some c => isWordChar c | None => false end.

Definition next (st : mstate) : option ascii :=
  match rest st with String c _ => Some c | EmptyString => None end.

(** The iterations of [r*] for the matcher [m] of [r]: a greedy star
    tries one more iteration before the continuation, a lazy one the
    continuation first; an iteration that consumes nothing is refused. *)
Fixpoint repeat_ (m : (mstate -> option mstate) -> mstate -> option mstate)
  (greedy : bool) (k : mstate -> option mstate) (fuel : nat) (st0 : mstate)
  {struct fuel} : option mstate :=
  match fuel with
  | O => k st0
  | S fuel' =>
      let again :=
        m (fun st1 =>
             if String.length (rest st1) <? String.length (rest st0)
             then repeat_ m greedy k fuel' st1 else None) st0 in
      if greedy
      then match again with Some st' => Some st' | None => k st0 end
      else match k st0 with Some st' => Some st' | None => again end
  end.

Fixpoint rmatch (fl : flags) (r : regex) (k : mstate -> option mstate)
  (st : mstate) {struct r} : option mstate :=
  match r with
  | Eps => k st
  | Chr c => consume st (canon_eq fl c) k
  | Dot => consume st (fun c => dotAll fl || negb (isLineTerminator c)) k
  | Cls inv items => consume st (fun c => xorb inv (set_found fl items c)) k
  | Seq r1 r2 => rmatch fl r1 (rmatch fl r2 k) st
  | Alt r1 r2 =>
      match rmatch fl r1 k st with
      | Some st' => Some st'
      | None => rmatch fl r2 k st
      end
  | Star greedy r1 => repeat_ (rmatch fl r1) greedy k (S (String.length (rest st))) st
  | Group r1 =>
      rmatch fl r1
        (fun st1 =>
           k {| prev := prev st1; rest := rest st1;
                cap := Some (take (String.length (rest st) - String.length (rest st1))
                               (rest st)) |}) st
  | Ahead r1 =>
      match rmatch fl r1 Some st with
      | Some st1 => k {| prev := prev st; rest := rest st; cap := cap st1 |}
      | None => None
      end
  | Bol =>
      match prev st with
      | None => k st
      | Some c => if multiline fl && isLineTerminator c then k st else None
      end
  | Eol =>
      match next st with
      | None => k st
      | Some c => if multiline fl && isLineTerminator c then k st else None
      end
  | WordB =>
      if xorb (isWordOpt (prev st)) (isWordOpt (next st)) then k st else None
  end.

(** The result of [RegExp.prototype.exec]: where the match starts, the
    matched text, group 1, and the input after the match. *)
Record match_result :=
  { m_index : nat; m_text : string;
    m_group1 : option string; m_prev : option ascii; m_after : string }.

Definition match_at (fl : flags) (r : regex) (p : option ascii) (s : string) (i : nat)
  : option match_result :=
  match rmatch fl r Some {| prev := p; rest := s; cap := None |} with
  | Some st =>
      Some {| m_index := i;
              m_text := take (String.length s - String.length (rest st)) s;
              m_group1 := cap st; m_prev := prev st; m_after := rest st |}
  | None => None
  end.

Fixpoint search (fl : flags) (r : regex) (p : option ascii) (s : string) (i : nat)
  : option match_result :=
  match match_at fl r p s i with
  | Some m => Some m
  | None =>
      match s with
      | EmptyString => None
      | String c s' => search fl r (Some c) s' (S i)
      end
  end.

(** [s.match(re)] for a pattern without the [g] flag. *)
Definition match_ (fl : flags) (r : regex) (s : string) : option match_result :=
  search fl r None s 0.

(** [s.replace(re, '')] for a pattern with the [g] flag: every match,
    left to right, is removed; an empty match moves on by one code unit. *)
Fixpoint removeAll_go (fuel : nat) (fl : flags) (r : regex) (p : option ascii)
  (s : string) : string :=
  match fuel with
  | O => s
  | S fuel' =>
      let step :=
        match s with
        | EmptyString => EmptyString
        | String c s' => String c (removeAll_go fuel' fl r (Some c) s')
        end in
      match match_at fl r p s 0 with
      | Some m =>
          match m_text m with
          | EmptyString => step
          | String _ _ => removeAll_go fuel' fl r (m_prev m) (m_after m)
          end
      | None => step
      end
  end.

Definition removeAll (fl : flags) (r : regex) (s : string) : string :=
  removeAll_go (S (String.length s)) fl r None s.

(** *** Numbers

    A Number value is kept as the exact decimal it was read from:
    [Finite neg m e] stands for [(-1)^neg * m * 10^e].  No rounding to
    binary64 takes place, so [NumberToString] agrees with the engine for
    decimals of up to 15 significant digits; NaN is the absence of a
    value ([None]). *)

Inductive JSNumber :=
| Infinity (neg : bool)
| Finite (neg : bool) (mant : N) (exp10 : Z).

Definition ofZ (z : Z) : JSNumber := Finite (z <? 0)%Z (Z.abs_N z) 0.

Definition digitVal (c : ascii) : N := N.of_nat (code c - 48).

Definition hexVal (c : ascii) : option N :=
  if isDigit c then Some (digitVal c)
  else if in_range 97 102 c then Some (N.of_nat (code c - 87))
  else if in_range 65 70 c then Some (N.of_nat (code c - 55))
  else None.

(** Reads the longest run of decimal digits: the accumulated value, how
    many digits were read, and the rest. *)
Fixpoint readDigits (s : string) (acc : N) (n : nat) : N * nat * string :=
  match s with
  | String c s' =>
      if isDigit c then readDigits s' (acc * 10 + digitVal c)%N (S n)
      else (acc, n, s)
  | EmptyString => (acc, n, s)
  end.

Fixpoint readRadix (radix : N) (s : string) (acc : N) (n : nat) : N * nat * string :=
  match s with
  | String c s' =>
      match hexVal c with
      | Some d => if (d <? radix)%N then readRadix radix s' (acc * radix + d)%N (S n)
                  else (acc, n, s)
      | None => (acc, n, s)
      end
  | EmptyString => (acc, n, s)
  end.

Definition readSign (s : string) : bool * string :=
  match s with
  | String c s' =>
      if Ascii.eqb c "-" then (true, s')
      else if Ascii.eqb c "+" then (false, s')
      else (false, s)
  | EmptyString => (false, s)
  end.

(** ExponentPart, when one is there in full. *)
Definition readExponent (s : string) : Z * string :=
  match s with
  | String c s' =>
      if Ascii.eqb c "e" || Ascii.eqb c "E" then
        let '(neg, s1) := readSign s' in
        let '(v, n, s2) := readDigits s1 0%N 0 in
        match n with
        | O => (0%Z, s)
        | S _ => ((if neg then - Z.of_N v else Z.of_N v)%Z, s2)
        end
      else (0%Z, s)
  | EmptyString => (0%Z, s)
  end.

(** The longest prefix that is a StrUnsignedDecimalLiteral. *)
Definition readUnsignedDecimal (s : string) : option (bool -> JSNumber) * string :=
  if startsWith s "Infinity" then (Some Infinity, drop 8 s)
  else
    let '(i, ni, s1) := readDigits s 0%N 0 in
    let '(m, nf, s2) :=
      match s1 with
      | String c s1' =>
          if Ascii.eqb c "." then
            let '(m, nf, s2) := readDigits s1' i 0 in
            match ni, nf with
            | O, O => (i, 0, s1)
            | _, _ => (m, nf, s2)
            end
          else (i, 0, s1)
      | EmptyString => (i, 0, s1)
      end in
    match ni, nf with
    | O, O => (None, s)
    | _, _ =>
        let '(e, s3) := readExponent s2 in
        (Some (fun neg => Finite neg m (e - Z.of_nat nf)), s3)
    end.

Definition readDecimal (s : string) : option JSNumber * string :=
  let '(neg, s1) := readSign s in
  match readUnsignedDecimal s1 with
  | (Some mk, s2) => (Some (mk neg), s2)
  | (None, _) => (None, s)
  end.

Definition radixOfPrefix (s : string) : option (N * string) :=
  match s with
  | String z (String x s') =>
      if Ascii.eqb z "0" then
        if Ascii.eqb (lowerChar x) "x" then Some (16%N, s')
        else if Ascii.eqb (lowerChar x) "o" then Some (8%N, s')
        else if Ascii.eqb (lowerChar x) "b" then Some (2%N, s')
        else None
      else None
  | _ => None
  end.

(** [Number(s)] (StringToNumber); [None] is NaN. *)
Definition Number (s : string) : option JSNumber :=
  let t := trim s in
  match t with
  | EmptyString => Some (Finite false 0 0)
  | _ =>
      match radixOfPrefix t with
      | Some (radix, t') =>
          match readRadix radix t' 0%N 0 with
          | (v, S _, EmptyString) => Some (Finite false v 0)
          | _ => None
          end
      | None =>
          match readDecimal t with
          | (Some n, EmptyString) => Some n
          | _ => None
          end
      end
  end.

(** [parseFloat(s)]; [None] is NaN. *)
Definition parseFloat (s : string) : option JSNumber :=
  fst (readDecimal (trimStart s)).

(** [parseInt(s)] without a radix; [None] is NaN. *)
Definition parseInt (s : string) : option JSNumber :=
  let '(neg, t) := readSign (trimStart s) in
  let '(radix, t') :=
    match radixOfPrefix t with
    | Some (16%N, t') => (16%N, t')
    | _ => (10%N, t)
    end in
  match readRadix radix t' 0%N 0 with
  | (v, S _, _) => Some (Finite neg v 0)
  | _ => None
  end.

Definition digitsOfN (n : N) : string := NilZero.string_of_uint (N.to_uint n).

Definition ZtoString (z : Z) : string := NilZero.string_of_int (Z.to_int z).

Fixpoint zeros (n : nat) : string :=
  match n with O => EmptyString | S n' => String "0" (zeros n') end.

(** Trailing zeros of the mantissa move into the exponent. *)
Fixpoint stripZeros (fuel : nat) (m : N) (e : Z) : N * Z :=
  match fuel with
  | O => (m, e)
  | S fuel' =>
      if (m mod 10 =? 0)%N && negb (m =? 0)%N
      then stripZeros fuel' (m / 10)%N (e + 1)%Z
      else (m, e)
  end.

(** Number::toString in radix 10, on the exact decimal. *)
Definition NumberToString (x : JSNumber) : string :=
  match x with
  | Infinity neg => if neg then "-Infinity" else "Infinity"
  | Finite neg m e =>
      if (m =? 0)%N then "0" else
      let '(m', e') := stripZeros (String.length (digitsOfN m)) m e in
      let ds := digitsOfN m' in
      let k := Z.of_nat (String.length ds) in
      let n := (k + e')%Z in
      let body :=
        if ((k <=? n) && (n <=? 21))%Z then ds ++ zeros (Z.to_nat (n - k))
        else if ((0 <? n) && (n <=? 21))%Z then
          take (Z.to_nat n) ds ++ "." ++ drop (Z.to_nat n) ds
        else if ((-6 <? n) && (n <=? 0))%Z then
          "0." ++ zeros (Z.to_nat (- n)) ++ ds
        else
          let ex := (if (0 <? n - 1)%Z then "+" else "-") ++ ZtoString (Z.abs (n - 1)) in
          if (k =? 1)%Z then ds ++ "e" ++ ex
          else take 1 ds ++ "." ++ drop 1 ds ++ "e" ++ ex in
      if neg then "-" ++ body else body
  end.

(** *** Values and objects

    An object is the list of its own enumerable string-keyed properties in
    creation order (the sources look properties up, count them, copy them
    and join their names; no statement below depends on where an engine
    lists integer-like keys).  The prototype is Object.prototype. *)

#[local] Set Warnings "-register-all".

Inductive JSValue :=
| JNull
| JBool (b : bool)
| JNum (n : JSNumber)
| JStr (s : string)
| JArr (items : list JSValue)
| JObj (props : list (string * JSValue)).

Definition JSObject := list (string * JSValue).

Fixpoint lookup {A : Type} (k : string) (o : list (string * A)) : option A :=
  match o with
  | [] => None
  | (k', v) :: o' => if String.eqb k k' then Some v else lookup k o'
  end.

Definition keys {A : Type} (o : list (string * A)) : list string := map fst o.

Definition hasOwn {A : Type} (k : string) (o : list (string * A)) : bool :=
  match lookup k o with Some _ => true | None => false end.

(** CreateDataProperty: an existing key keeps its place and gets the new
    value, a new key goes to the end. *)
Fixpoint define {A : Type} (k : string) (v : A) (o : list (string * A))
  : list (string * A) :=
  match o with
  | [] => [(k, v)]
  | (k', v') :: o' =>
      if String.eqb k k' then (k, v) :: o' else (k', v') :: define k v o'
  end.

(** [o[k] = v] on an object whose prototype is Object.prototype: the key
    [__proto__] reaches the inherited setter and creates no own property
    (which own properties exist is all that is followed here). *)
Definition assign {A : Type} (k : string) (v : A) (o : list (string * A))
  : list (string * A) :=
  if String.eqb k "__proto__" then o else define k v o.

(** [{...a, ...b}]: the properties of [b] are defined over those of [a]. *)
Definition spread {A : Type} (a b : list (string * A)) : list (string * A) :=
  fold_left (fun o kv => define (fst kv) (snd kv) o) b a.

(** The property names every object inherits from Object.prototype. *)
Definition ObjectPrototypeKeys : list string :=
  [ "constructor"; "__defineGetter__"; "__defineSetter__"; "hasOwnProperty";
    "__lookupGetter__"; "__lookupSetter__"; "isPrototypeOf";
    "propertyIsEnumerable"; "toString"; "valueOf"; "__proto__";
    "toLocaleString" ].

(** [k in o]. *)
Definition hasProperty {A : Type} (k : string) (o : list (string * A)) : bool :=
  hasOwn k o || existsb (String.eqb k) ObjectPrototypeKeys.

Definition isNull (v : JSValue) : bool :=
  match v with JNull => true | _ => false end.

(** ToBoolean. *)
Definition toBoolean (v : JSValue) : bool :=
  match v with
  | JNull => false
  | JBool b => b
  | JNum (Finite _ m _) => negb (m =? 0)%N
  | JNum (Infinity _) => true
  | JStr s => truthy s
  | JArr _ | JObj _ => true
  end.

(** ToString. *)
Fixpoint toString (v : JSValue) : string :=
  match v with
  | JNull => "null"
  | JBool b => if b then "true" else "false"
  | JNum n => NumberToString n
  | JStr s => s
  | JArr items =>
      join (map (fun x => match x with JNull => EmptyString | _ => toString x end) items) ","
  | JObj _ => "[object Object]"
  end.

(** [o[k]] where the result is tested against undefined or put into a
    text: an own property, a member inherited from Object.prototype, or
    undefined. *)
Inductive Member (A : Type) :=
| Own (v : A)
| Inherited (k : string)
| Undefined.
Arguments Own {A} v.
Arguments Inherited {A} k.
Arguments Undefined {A}.

Definition read {A : Type} (k : string) (o : list (string * A)) : Member A :=
  match lookup k o with
  | Some v => Own v
  | None =>
      if existsb (String.eqb k) ObjectPrototypeKeys then Inherited k else Undefined
  end.

(** What a template literal makes of an inherited member: the text of a
    built-in function as Node prints it; [__proto__] is Object.prototype
    itself, and [constructor] is the function [Object]. *)
Definition inheritedText (k : string) : string :=
  if String.eqb k "__proto__" then "[object Object]"
  else "function " ++ (if String.eqb k "constructor" then "Object" else k)
         ++ "() { [native code] }".

(** *** JSON *)

Module JSON.

Definition hexDigit (n : nat) : ascii :=
  if n <? 10 then ascii_of_nat (48 + n) else ascii_of_nat (87 + n).

(** QuoteJSONString. *)
Fixpoint quoteChars (s : string) : string :=
  match s with
  | EmptyString => EmptyString
  | String c s' =>
      (if Ascii.eqb c DQUOTE then String BACKSLASH (String DQUOTE EmptyString)
       else if Ascii.eqb c BACKSLASH then String BACKSLASH (String BACKSLASH EmptyString)
       else if code c =? 8 then String BACKSLASH "b"
       else if code c =? 9 then String BACKSLASH "t"
       else if code c =? 10 then String BACKSLASH "n"
       else if code c =? 12 then String BACKSLASH "f"
       else if code c =? 13 then String BACKSLASH "r"
       else if code c <? 32 then
         String BACKSLASH ("u00" ++ String (hexDigit (code c / 16))
                                     (String (hexDigit (code c mod 16)) EmptyString))
       else String c EmptyString) ++ quoteChars s'
  end.

Definition quote (s : string) : string :=
  String DQUOTE (quoteChars s ++ String DQUOTE EmptyString).

(** [JSON.stringify(v)] without indentation. *)
Fixpoint stringify (v : JSValue) : string :=
  match v with
  | JNull => "null"
  | JBool b => if b then "true" else "false"
  | JNum (Infinity _) => "null"
  | JNum n => NumberToString n
  | JStr s => quote s
  | JArr items => "[" ++ join (map stringify items) "," ++ "]"
  | JObj props =>
      "{" ++ join (map (fun kv => quote (fst kv) ++ ":" ++ stringify (snd kv)) props) ","
          ++ "}"
  end.

(** JSON white space. *)
Definition isJsonSpace (c : ascii) : bool :=
  (code c =? 32) || (code c =? 9) || (code c =? 10) || (code c =? 13).

Fixpoint skipSpace (s : string) : string :=
  match s with
  | String c s' => if isJsonSpace c then skipSpace s' else s
  | EmptyString => s
  end.

Definition hex4 (s : string) : option (N * string) :=
  match s with
  | String a (String b (String c (String d s'))) =>
      match hexVal a, hexVal b, hexVal c, hexVal d with
      | Some x, Some y, Some z, Some w => Some (((x * 16 + y) * 16 + z) * 16 + w, s')%N
      | _, _, _, _ => None
      end
  | _ => None
  end.

(** The characters of a JSON string after its opening quote.  An escape
    [\uXXXX] above U+00FF names a code unit outside the alphabet of this
    development and is refused. *)
Fixpoint parseChars (fuel : nat) (s : string) (acc : string) : option (string * string) :=
  match fuel with
  | O => None
  | S fuel' =>
      match s with
      | EmptyString => None
      | String c s' =>
          if Ascii.eqb c DQUOTE then Some (reverse acc, s')
          else if Ascii.eqb c BACKSLASH then
            match s' with
            | String e s'' =>
                let simple (x : ascii) := parseChars fuel' s'' (String x acc) in
                if Ascii.eqb e DQUOTE then simple DQUOTE
                else if Ascii.eqb e BACKSLASH then simple BACKSLASH
                else if Ascii.eqb e "/" then simple "/"%char
                else if Ascii.eqb e "b" then simple (ascii_of_nat 8)
                else if Ascii.eqb e "f" then simple (ascii_of_nat 12)
                else if Ascii.eqb e "n" then simple LF
                else if Ascii.eqb e "r" then simple CR
                else if Ascii.eqb e "t" then simple (ascii_of_nat 9)
                else if Ascii.eqb e "u" then
                  match hex4 s'' with
                  | Some (n, s3) =>
                      if (n <? 256)%N
                      then parseChars fuel' s3 (String (ascii_of_N n) acc)
                      else None
                  | None => None
                  end
                else None
            | EmptyString => None
            end
          else if code c <? 32 then None
          else parseChars fuel' s' (String c acc)
      end
  end.

(** A JSON number: an optional minus sign, an integer part without a
    leading zero, an optional fraction and an optional exponent. *)
Definition parseNumber (s : string) : option (JSNumber * string) :=
  let '(neg, s0) :=
    match s with
    | String c s' => if Ascii.eqb c "-" then (true, s') else (false, s)
    | EmptyString => (false, s)
    end in
  let '(i, ni, s1) :=
    match s0 with
    | String c s' => if Ascii.eqb c "0" then (0%N, 1, s') else readDigits s0 0%N 0
    | EmptyString => (0%N, 0, s0)
    end in
  match ni with
  | O => None
  | S _ =>
      let '(m, nf, s2) :=
        match s1 with
        | String c s1' =>
            if Ascii.eqb c "." then
              let '(m, nf, s2) := readDigits s1' i 0 in
              match nf with O => (i, 0, s1) | S _ => (m, nf, s2) end
            else (i, 0, s1)
        | EmptyString => (i, 0, s1)
        end in
      let '(e, s3) := readExponent s2 in
      Some (Finite neg m (e - Z.of_nat nf), s3)
  end.

Section Parse.
Variable parseValue : string -> option (JSValue * string).

(** After [[] and a first element has been ruled in: elements separated
    by commas up to the closing bracket. *)
Fixpoint parseElements (fuel : nat) (s : string) (acc : list JSValue)
  : option (list JSValue * string) :=
  match fuel with
  | O => None
  | S fuel' =>
      match parseValue s with
      | Some (v, String c s') =>
          if Ascii.eqb c "," then parseElements fuel' s' (v :: acc)
          else if Ascii.eqb c "]" then Some (rev (v :: acc), s')
          else None
      | _ => None
      end
  end.

Fixpoint parseMembers (fuel : nat) (s : string) (acc : JSObject)
  : option (JSObject * string) :=
  match fuel with
  | O => None
  | S fuel' =>
      match skipSpace s with
      | String q s0 =>
          if Ascii.eqb q DQUOTE then
            match parseChars (S (String.length s0)) s0 EmptyString with
            | Some (k, s1) =>
                match skipSpace s1 with
                | String c s2 =>
                    if Ascii.eqb c ":" then
                      match parseValue s2 with
                      | Some (v, String d s3) =>
                          if Ascii.eqb d "," then parseMembers fuel' s3 (define k v acc)
                          else if Ascii.eqb d "}" then Some (define k v acc, s3)
                          else None
                      | _ => None
                      end
                    else None
                | EmptyString => None
                end
            | None => None
            end
          else None
      | EmptyString => None
      end
  end.
End Parse.

(** One JSON value with the white space around it. *)
Fixpoint parseValue (fuel : nat) (s : string) : option (JSValue * string) :=
  match fuel with
  | O => None
  | S fuel' =>
      let s0 := skipSpace s in
      let done (r : option (JSValue * string)) :=
        match r with Some (v, s') => Some (v, skipSpace s') | None => None end in
      match s0 with
      | EmptyString => None
      | String c s1 =>
          if Ascii.eqb c "{" then
            match skipSpace s1 with
            | String d s2 =>
                if Ascii.eqb d "}" then done (Some (JObj [], s2))
                else
                  match parseMembers (parseValue fuel') (S (String.length s1)) s1 [] with
                  | Some (o, s3) => done (Some (JObj o, s3))
                  | None => None
                  end
            | EmptyString => None
            end
          else if Ascii.eqb c "[" then
            match skipSpace s1 with
            | String d s2 =>
                if Ascii.eqb d "]" then done (Some (JArr [], s2))
                else
                  match parseElements (parseValue fuel') (S (String.length s1)) s1 [] with
                  | Some (l, s3) => done (Some (JArr l, s3))
                  | None => None
                  end
            | EmptyString => None
            end
          else if Ascii.eqb c DQUOTE then
            match parseChars (S (String.length s1)) s1 EmptyString with
            | Some (t, s2) => done (Some (JStr t, s2))
            | None => None
            end
          else if startsWith s0 "true" then done (Some (JBool true, drop 4 s0))
          else if startsWith s0 "false" then done (Some (JBool false, drop 5 s0))
          else if startsWith s0 "null" then done (Some (JNull, drop 4 s0))
          else
            match parseNumber s0 with
            | Some (n, s2) => done (Some (JNum n, s2))
            | None => None
            end
      end
  end.

(** [JSON.parse(s)]; [None] is a thrown SyntaxError. *)
Definition parse (s : string) : option JSValue :=
  match parseValue (S (String.length s)) s with
  | Some (v, EmptyString) => Some v
  | _ => None
  end.

End JSON.

End JS.

Import JS.

(** ** Completions

    A call returns normally or throws; an error value is kept as its name
    and message, and [errorText] is what a template literal makes of it
    (Error.prototype.toString). *)

Inductive JSError := mkError (name message : string).

Definition errorText (e : JSError) : string :=
  match e with
  | mkError n m =>
      if negb (truthy n) then m
      else if negb (truthy m) then n
      else n ++ ": " ++ m
  end.

Inductive completion (A : Type) :=
| Normal (a : A)
| Throw (e : JSError).
Arguments Normal {A} a.
Arguments Throw {A} e.

Definition NLs : string := String LF EmptyString.

(** ** core/signature.ts and types/signature.ts *)

Record FieldConfig :=
  { fc_description : string;
    fc_prefix : option string;
    fc_type : option string;
    fc_required : option bool }.

Record ParsedSignature :=
  { inputs : list string;
    outputs : list string;
    types : list (string * string) }.

(** A class-based signature, seen through its static accessors: the
    entries of [getInputFields()] and [getOutputFields()] in the order
    [Object.entries] lists them. *)
Record SignatureClass :=
  { sc_description : option string;
    getInputFields : list (string * FieldConfig);
    getOutputFields : list (string * FieldConfig) }.

(** [typeof Signature | string]. *)
Inductive SignatureT :=
| SigString (s : string)
| SigClass (c : SignatureClass).

Module Signature.

(** [const [name, type] = trimmed.split(':').map(s => s.trim())] and
    [{ name, type: type || 'string' }]. *)
Definition parseField (field : string) : string * string :=
  let trimmed := trim field in
  match map trim (split trimmed ":") with
  | name :: type :: _ => (name, if truthy type then type else "string")
  | name :: [] => (name, "string")
  | [] => (EmptyString, "string")
  end.

Definition parseFields (part : string) : list (string * string) :=
  map parseField (split part ",").

Definition fromEntries (l : list (string * string)) : list (string * string) :=
  fold_left (fun o kv => define (fst kv) (snd kv) o) l [].

(** [parseFields(outputPart)] with [outputPart] undefined throws the
    TypeError of calling [split] on undefined. *)
Definition undefinedSplit : JSError :=
  mkError "TypeError" "Cannot read properties of undefined (reading 'split')".

Definition parseStringSignature (signature : string) : completion ParsedSignature :=
  match map trim (split signature "->") with
  | inputPart :: outputPart :: _ =>
      let inputFields := parseFields inputPart in
      let outputFields := parseFields outputPart in
      Normal {| inputs := map fst inputFields;
                outputs := map fst outputFields;
                types := spread (fromEntries inputFields) (fromEntries outputFields) |}
  | _ => Throw undefinedSplit
  end.

(** [`${inputs.join(', ')} -> ${outputs.join(', ')}`]. *)
Definition getPromptFormat (c : SignatureClass) : string :=
  join (keys (getInputFields c)) ", " ++ " -> " ++ join (keys (getOutputFields c)) ", ".

End Signature.

(** ** utils/parsing.ts *)

Module Parsing.

Definition jsonLike (value : string) : bool :=
  (startsWith value "{" && endsWith value "}") ||
  (startsWith value "[" && endsWith value "]").

(** [try { return JSON.parse(value) } catch { return value }]. *)
Definition parseOrRaw (value : string) : JSValue :=
  match JSON.parse value with
  | Some v => v
  | None => JStr value
  end.

Definition autoDetect (value : string) : JSValue :=
  if jsonLike value then parseOrRaw value else JStr value.

Definition numberOrRaw (n : option JSNumber) (value : string) : JSValue :=
  match n with
  | Some x => JNum x
  | None => JStr value
  end.

Definition isDelimiter (c : ascii) : bool :=
  Ascii.eqb c "," || Ascii.eqb c ";" || Ascii.eqb c LF.

Definition oneOf (t : string) (l : list string) : bool := existsb (String.eqb t) l.

Definition convertValue (value : string) (type : option string) : JSValue :=
  match type with
  | None => autoDetect value
  | Some type =>
      if negb (truthy type) || String.eqb type "string" then autoDetect value
      else
        let t := toLowerCase type in
        if oneOf t ["number"; "float"] then numberOrRaw (parseFloat value) value
        else if oneOf t ["int"; "integer"] then numberOrRaw (parseInt value) value
        else if oneOf t ["boolean"; "bool"] then
          JBool (String.eqb (toLowerCase value) "true" || String.eqb value "1")
        else if oneOf t ["array"; "list"] then
          match JSON.parse value with
          | Some v => v
          | None =>
              JArr (map JStr (filter truthy (map trim (splitClass isDelimiter value))))
          end
        else if oneOf t ["object"; "json"] then parseOrRaw value
        else autoDetect value
  end.

Definition noFlags : flags := {| ignoreCase := false; multiline := false; dotAll := false |}.
Definition flags_is : flags := {| ignoreCase := true; multiline := false; dotAll := true |}.
Definition flags_i : flags := {| ignoreCase := true; multiline := false; dotAll := false |}.

Definition space : regex := Cls false [CSpace].
Definition aQuote : regex := Cls false [CChar DQUOTE; CChar SQUOTE].

(** [/^\*+|\*+$/g]. *)
Definition asterisks : regex :=
  Alt (Seq Bol (plus true (Chr "*"))) (Seq (plus true (Chr "*")) Eol).

(** [/^["']|["']$/g]. *)
Definition quotes : regex := Alt (Seq Bol aQuote) (Seq aQuote Eol).

(** The five patterns built around the field name.  The name is put
    into the pattern source as it is; the patterns below are what
    results for a name whose characters all stand for themselves. *)
Definition patterns (fieldName : string) : list (flags * regex) :=
  [ (* `${fieldName}\\s*:\\s*(.+?)(?=\\n\\s*\\w+\\s*:|$)`, 'is' *)
    (flags_is,
     Seq (lit fieldName) (Seq (Star true space) (Seq (Chr ":") (Seq (Star true space)
       (Seq (Group (plus false Dot))
          (Ahead (Alt (Seq (Chr LF) (Seq (Star true space)
                         (Seq (plus true (Cls false [CWord]))
                            (Seq (Star true space) (Chr ":")))))
                      Eol)))))));
    (* `${fieldName}\\s*[=:]\\s*(.+?)(?=\\n|$)`, 'is' *)
    (flags_is,
     Seq (lit fieldName) (Seq (Star true space)
       (Seq (Cls false [CChar "="; CChar ":"]) (Seq (Star true space)
          (Seq (Group (plus false Dot)) (Ahead (Alt (Chr LF) Eol)))))));
    (* `\\b${fieldName}\\b[:\\s=]*([^\\n]+)`, 'i' *)
    (flags_i,
     Seq WordB (Seq (lit fieldName) (Seq WordB
       (Seq (Star true (Cls false [CChar ":"; CSpace; CChar "="]))
          (Group (plus true (Cls true [CChar LF])))))));
    (* `${fieldName}[:\\s]*([^\\n]+?)(?=\\n|$)`, 'i' *)
    (flags_i,
     Seq (lit fieldName) (Seq (Star true (Cls false [CChar ":"; CSpace]))
       (Seq (Group (plus false (Cls true [CChar LF]))) (Ahead (Alt (Chr LF) Eol)))));
    (* `${fieldName}[^\\w]*([\\s\\S]*?)(?=\\n\\s*[A-Z]|$)`, 'i' *)
    (flags_i,
     Seq (lit fieldName) (Seq (Star true (Cls true [CWord]))
       (Seq (Group (Star false (Cls false [CSpace; CNotSpace])))
          (Ahead (Alt (Seq (Chr LF) (Seq (Star true space)
                                       (Cls false [CRange "A" "Z"])))
                      Eol))))) ].

(** The fast path for a field called [answer]: the whole text, trimmed
    and freed of asterisks and quotes, when it has no colon and no line
    feed and something is left. *)
Definition simpleAnswer (text fieldName : string) : option string :=
  if String.eqb fieldName "answer" && negb (includes text ":") && negb (includes text NLs)
  then
    let value := trim text in
    let value := removeAll noFlags asterisks value in
    let value := removeAll noFlags quotes value in
    if truthy value then Some value else None
  else None.

(** One turn of the loop over the patterns: the cleaned capture, when
    the pattern matches and something is left of group 1. *)
Definition tryPattern (text : string) (p : flags * regex) : option string :=
  match match_ (fst p) (snd p) text with
  | Some m =>
      match m_group1 m with
      | Some g =>
          if truthy g then
            let value := trim g in
            let value := removeAll noFlags asterisks value in
            let value := removeAll noFlags quotes value in
            let value := trim value in
            if truthy value then Some value else None
          else None
      | None => None
      end
  | None => None
  end.

Fixpoint firstPattern (text : string) (ps : list (flags * regex)) : option string :=
  match ps with
  | [] => None
  | p :: ps' =>
      match tryPattern text p with
      | Some value => Some value
      | None => firstPattern text ps'
      end
  end.

Definition extractFieldValue (text fieldName : string) (fieldType : option string)
  : JSValue :=
  match simpleAnswer text fieldName with
  | Some value => convertValue value fieldType
  | None =>
      match firstPattern text (patterns fieldName) with
      | Some value => convertValue value fieldType
      | None => JNull
      end
  end.

Definition parseOutputFromString (signatureStr rawOutput : string)
  : completion JSObject :=
  match Signature.parseStringSignature signatureStr with
  | Throw e => Throw e
  | Normal parsed =>
      Normal
        (fold_left
           (fun result outputKey =>
              let value :=
                extractFieldValue rawOutput outputKey (lookup outputKey (types parsed)) in
              assign outputKey value result)
           (outputs parsed) [])
  end.

Definition parseOutputFromClass (signatureClass : SignatureClass) (rawOutput : string)
  : completion JSObject :=
  Normal
    (fold_left
       (fun result entry =>
          let value := extractFieldValue rawOutput (fst entry) (fc_type (snd entry)) in
          assign (fst entry) value result)
       (getOutputFields signatureClass) []).

Definition parseOutput (signature : SignatureT) (rawOutput : string)
  : completion JSObject :=
  match signature with
  | SigString s => parseOutputFromString s rawOutput
  | SigClass c => parseOutputFromClass c rawOutput
  end.

(** *** buildPrompt *)

(** [`${inputs[key]}`] for a member that is not undefined. *)
Definition inTemplate (m : Member JSValue) : string :=
  match m with
  | Own v => toString v
  | Inherited k => inheritedText k
  | Undefined => "undefined"
  end.

(** [parsed.types[outputKey] ? ` (${parsed.types[outputKey]})` : '']. *)
Definition typeInfo (types : list (string * string)) (outputKey : string) : string :=
  match read outputKey types with
  | Own t => if truthy t then " (" ++ t ++ ")" else EmptyString
  | Inherited k => " (" ++ inheritedText k ++ ")"
  | Undefined => EmptyString
  end.

Definition buildPromptFromString (signatureStr : string) (inputs : JSObject)
  : completion string :=
  match Signature.parseStringSignature signatureStr with
  | Throw e => Throw e
  | Normal {| inputs := inputKeys; outputs := outputKeys; types := types |} =>
      let prompt :=
        fold_left
          (fun prompt inputKey =>
             match read inputKey inputs with
             | Undefined => prompt
             | m => prompt ++ inputKey ++ ": " ++ inTemplate m ++ NLs
             end)
          inputKeys EmptyString in
      let prompt :=
        match outputKeys with
        | [outputKey] =>
            prompt ++ NLs ++ "Provide the " ++ outputKey ++ " in this format:" ++ NLs
              ++ outputKey ++ ": [your response]"
        | _ =>
            fold_left
              (fun prompt outputKey =>
                 prompt ++ outputKey ++ typeInfo types outputKey ++ ": [your response]" ++ NLs)
              outputKeys
              (prompt ++ NLs ++ "Provide the following fields:" ++ NLs)
        end in
      Normal (trim prompt)
  end.

Definition buildPromptFromClass (signatureClass : SignatureClass) (inputs : JSObject)
  : string :=
  let prompt :=
    match sc_description signatureClass with
    | Some d => if truthy d then d ++ NLs ++ NLs else EmptyString
    | None => EmptyString
    end in
  let prompt :=
    fold_left
      (fun prompt entry =>
         match read (fst entry) inputs with
         | Undefined => prompt
         | m =>
             let prefix :=
               match fc_prefix (snd entry) with
               | Some p => if truthy p then p else fst entry ++ ":"
               | None => fst entry ++ ":"
               end in
             prompt ++ prefix ++ " " ++ inTemplate m ++ NLs
         end)
      (getInputFields signatureClass) prompt in
  let prompt := prompt ++ NLs ++ "Provide:" ++ NLs in
  let prompt :=
    fold_left
      (fun prompt entry =>
         let desc :=
           if truthy (fc_description (snd entry))
           then " (" ++ fc_description (snd entry) ++ ")" else EmptyString in
         prompt ++ fst entry ++ desc ++ ":" ++ NLs)
      (getOutputFields signatureClass) prompt in
  trim prompt.

Definition buildPrompt (signature : SignatureT) (inputs : JSObject) : completion string :=
  match signature with
  | SigString s => buildPromptFromString s inputs
  | SigClass c => Normal (buildPromptFromClass c inputs)
  end.

End Parsing.

(** ** modules/respact.ts

    The language model and the tools are outside the program: they act on
    a state of the outside world, which [forward] threads through its
    awaited calls.  [trace] records, in order, every call [forward] makes
    to the model and to a tool function. *)

Section RespActModule.

Variable World : Type.

Inductive LMResult :=
| Reply (text : string)
| Rejected (e : JSError).

Record ILanguageModel :=
  { generate : string -> World -> LMResult * World }.

(** What becomes of a call of a tool inside the [try] of [executeTool]:
    - [Returned text]: it returned, and [String(result)] is [text];
    - [Threw text]: it threw or rejected (or [String(result)] did), and
      the template literal of the [catch] makes [text] of what was
      thrown;
    - [ThrewUnprintable raised]: it threw something that the template
      literal of the [catch] cannot convert, so that the [catch] throws
      in its turn: a Symbol, an object without [toString], one whose
      [toString] throws.  [raised] is the error of the conversion (for a
      Symbol the TypeError "Cannot convert a Symbol value to a string"). *)
Inductive ToolResult :=
| Returned (text : string)
| Threw (text : string)
| ThrewUnprintable (raised : JSError).

Definition ToolFunction := string -> World -> ToolResult * World.

Record ToolWithDescription :=
  { description : string;
    function : ToolFunction }.

Inductive ToolDefinition :=
| BareFunction (f : ToolFunction)
| Described (t : ToolWithDescription).

(** [maxSteps] is a number, and the constructor takes it as it comes.
    It is kept as a finite decimal, [(-1)^negative * mantissa *
    10^exponent]; NaN is falsy and goes with the missing value.  (With
    [Infinity] the loop of [forward] has no bound of its own; such a
    limit is not given here.) *)
Record Decimal := { negative : bool; mantissa : N; exponent : Z }.

Definition toNumber (x : Decimal) : JSNumber :=
  Finite (negative x) (mantissa x) (exponent x).

Definition integer (z : Z) : Decimal :=
  {| negative := (z <? 0)%Z; mantissa := Z.abs_N z; exponent := 0 |}.

(** [!x]: of the numbers, 0 and -0 are falsy. *)
Definition isZero (x : Decimal) : bool := (mantissa x =? 0)%N.

(** [step < x] for the counter of a loop. *)
Definition below (step : nat) (x : Decimal) : bool :=
  negb (negative x) &&
  (if (0 <=? exponent x)%Z
   then (Z.of_nat step <? Z.of_N (mantissa x) * 10 ^ exponent x)%Z
   else (Z.of_nat step * 10 ^ (- exponent x) <? Z.of_N (mantissa x))%Z).

(** How often the body of [for (let step = 0; step < x; step++)] is
    entered when nothing leaves the loop: the number of [step]s below
    [x], which is [x] rounded up when [x] is positive. *)
Definition iterations (x : Decimal) : nat :=
  if negative x then 0
  else if (0 <=? exponent x)%Z
       then Z.to_nat (Z.of_N (mantissa x) * 10 ^ exponent x)
       else Z.to_nat ((Z.of_N (mantissa x) + 10 ^ (- exponent x) - 1)
                        / 10 ^ (- exponent x)).

Record RespAct :=
  { signature : SignatureT;
    lm : ILanguageModel;
    tools : list (string * ToolWithDescription);
    maxSteps : Decimal }.

Record Prediction := { _data : JSObject }.

Record ToolCall := { tool : string; input : string }.

Inductive Event :=
| Generate (prompt : string) (result : LMResult)
| ToolRun (name arg : string).

(** The local variables of [forward] that live across iterations, with
    the outside world and the record of calls made so far. *)
Record LoopState :=
  { conversation : string;
    previousToolCalls : list string;
    world : World;
    trace : list Event }.

(** The constructor: tools are normalized to carry a description, and
    [maxSteps] is [options.maxSteps || 6].

    [this.tools[name] = tool] keeps every tool under its name.  Under
    the name [__proto__] the assignment reaches the inherited setter:
    the tool becomes the prototype of [this.tools] and no own property.
    The entry that [tools] has under that name is this prototype, which
    is what [this.tools['__proto__']] hands back; [ownTools] are the own
    properties, which Object.entries and Object.keys list. *)
Definition normalize (entry : string * ToolDefinition) : ToolWithDescription :=
  match snd entry with
  | BareFunction f => {| description := "Tool: " ++ fst entry; function := f |}
  | Described t => t
  end.

Definition new (signature : SignatureT) (lm : ILanguageModel)
  (tools : list (string * ToolDefinition)) (maxSteps : option Decimal) : RespAct :=
  {| signature := signature;
     lm := lm;
     tools := fold_left (fun o entry => define (fst entry) (normalize entry) o) tools [];
     maxSteps :=
       match maxSteps with
       | Some n => if isZero n then integer 6 else n
       | None => integer 6
       end |}.

Definition ownTools (o : list (string * ToolWithDescription))
  : list (string * ToolWithDescription) :=
  filter (fun entry => negb (String.eqb (fst entry) "__proto__")) o.

(** [toolName in this.tools]: an own property, a name inherited from
    Object.prototype, or, where a tool was made the prototype, one of
    the properties of that tool. *)
Definition hasTool (toolName : string) (o : list (string * ToolWithDescription)) : bool :=
  hasProperty toolName o ||
  (hasOwn "__proto__" o &&
   (String.eqb toolName "description" || String.eqb toolName "function")).

Definition flags_m : flags := {| ignoreCase := false; multiline := true; dotAll := false |}.

(** [/Action:\s*(.+?)(?=\n|$)/m]. *)
Definition actionPattern : regex :=
  Seq (lit "Action:") (Seq (Star true Parsing.space)
    (Seq (Group (plus false Dot)) (Ahead (Alt (Chr LF) Eol)))).

(** [/Action Input:\s*(.+?)(?=\n|$)/m]. *)
Definition inputPattern : regex :=
  Seq (lit "Action Input:") (Seq (Star true Parsing.space)
    (Seq (Group (plus false Dot)) (Ahead (Alt (Chr LF) Eol)))).

(** [/Final Answer:\s*(.+?)$/m]. *)
Definition finalAnswerPattern : regex :=
  Seq (lit "Final Answer:") (Seq (Star true Parsing.space)
    (Seq (Group (plus false Dot)) Eol)).

(** [match[1]] of a match whose group took part. *)
Definition group1 (m : match_result) : string :=
  match m_group1 m with Some g => g | None => EmptyString end.

Definition extractToolCall (response : string) : option ToolCall :=
  match match_ flags_m actionPattern response, match_ flags_m inputPattern response with
  | Some actionMatch, Some inputMatch =>
      Some {| tool := trim (group1 actionMatch); input := trim (group1 inputMatch) |}
  | _, _ => None
  end.

(** An inherited name passes the [in] test, and calling its missing
    [function] throws this TypeError inside the [try]. *)
Definition notAFunction : string :=
  "TypeError: this.tools[toolName].function is not a function".

Definition executeTool (self : RespAct) (toolName input : string)
  (w : World) (tr : list Event) : completion string * World * list Event :=
  if negb (hasTool toolName (tools self)) then
    (Normal ("Error: Tool '" ++ toolName ++ "' not found. Available tools: "
               ++ join (keys (ownTools (tools self))) ", "), w, tr)
  else
    match lookup toolName (tools self) with
    | Some t =>
        let '(result, w') := function t input w in
        let tr' := (tr ++ [ToolRun toolName input])%list in
        match result with
        | Returned text => (Normal text, w', tr')
        | Threw error =>
            (Normal ("Error executing " ++ toolName ++ ": " ++ error), w', tr')
        | ThrewUnprintable raised => (Throw raised, w', tr')
        end
    | None =>
        (Normal ("Error executing " ++ toolName ++ ": " ++ notAFunction), w, tr)
    end.

Definition extractFinalAnswer (response : string) : JSValue :=
  match match_ flags_m finalAnswerPattern response with
  | Some m =>
      let answer := trim (group1 m) in
      match Number answer with
      | Some num => JNum num
      | None =>
          match JSON.parse answer with
          | Some v => v
          | None => JStr answer
          end
      end
  | None => JNull
  end.

(** [!this.signature]: of the signatures a RespAct can hold, only the
    empty string is falsy. *)
Definition noSignature (sig : SignatureT) : bool :=
  match sig with
  | SigString s => negb (truthy s)
  | SigClass _ => false
  end.

Definition parseOutput (self : RespAct) (rawOutput : JSValue) : completion JSObject :=
  if noSignature (signature self) then
    Throw (mkError "Error" "No signature provided for RespAct parsing")
  else
    let outputText :=
      match rawOutput with
      | JStr text => text
      | v => JSON.stringify v
      end in
    Parsing.parseOutput (signature self) outputText.

Definition promptHead : string := "You have access to the following tools:
".
Definition promptQuestion : string := "

Question: ".
Definition promptRules : string := "

IMPORTANT: You MUST use the available tools to solve this question. Do not attempt to answer directly without using tools when tools are available for the task.

CRITICAL: Take ONE action at a time. After each action, you will receive an observation. Do NOT plan multiple actions in advance.

Work systematically:
1. Gather all necessary data using tools
2. Perform calculations if needed 
3. When you have ALL the information needed to answer the question completely, provide your Final Answer

Use this EXACT format (DO NOT generate the Observation line - it will be provided automatically):
Thought: [your reasoning about what to do next]
Action: [tool name]
Action Input: [input to the tool]

After you receive the Observation, you can then decide your next action. 

When you have gathered ALL necessary information through tool usage, provide:
Thought: [reasoning that you now have everything needed]
Final Answer: [complete answer to the original question using all gathered information]".
Definition promptTail : string := "

Begin! Remember: ONE action at a time, then decide if you need more information or can provide the final answer.".

Definition buildInitialPrompt (self : RespAct) (inputs : JSObject) : string :=
  let toolDescriptions :=
    join (map (fun entry => "- " ++ fst entry ++ ": " ++ description (snd entry))
            (ownTools (tools self))) NLs in
  let outputFormatInstruction :=
    match signature self with
    | SigClass c =>
        let fieldNames := keys (getOutputFields c) in
        if 0 <? List.length fieldNames then
          fold_left
            (fun acc field =>
               acc ++ field ++ ": [your response for " ++ field ++ "]" ++ NLs)
            fieldNames
            (NLs ++ NLs ++ "IMPORTANT: When providing your Final Answer, you MUST provide ALL the following fields in this EXACT format:" ++ NLs ++ NLs)
        else EmptyString
    | SigString _ => EmptyString
    end in
  let question :=
    match lookup "question" inputs with
    | Some v => if toBoolean v then toString v else JSON.stringify (JObj inputs)
    | None => JSON.stringify (JObj inputs)
    end in
  promptHead ++ toolDescriptions ++ promptQuestion ++ question ++ promptRules
    ++ outputFormatInstruction ++ promptTail.

Definition notNullish (o : JSObject) (key : string) : bool :=
  match lookup key o with
  | Some v => negb (isNull v)
  | None => false
  end.

Definition exceeded (self : RespAct) : JSError :=
  mkError "Error"
    ("RespAct exceeded maximum steps (" ++ NumberToString (toNumber (maxSteps self))
       ++ ") without finding answer").

Definition repeated : string :=
  NLs ++ NLs ++ "Observation: You have already made this tool call. Please move to the next step.".

Definition incomplete (requiredFields : list string) : string :=
  NLs ++ NLs ++ "Observation: Your Final Answer needs to include structured fields: "
    ++ join requiredFields ", "
    ++ ". Please provide a Final Answer with the required format.".

(** What one pass through the body of the [for] loop ends in. *)
Inductive Step :=
| Continue (st : LoopState)
| Finish (r : completion Prediction) (st : LoopState).

(** The final-answer branch, entered with the transcript [conv] that
    already holds the reply. *)
Definition finalAnswer (self : RespAct) (step : nat) (response conv : string)
  (st : LoopState) : Step :=
  let rawAnswer := extractFinalAnswer response in
  let parsedFromSignature :=
    match parseOutput self rawAnswer with
    | Normal o => o
    | Throw _ => []
    end in
  let incompleteFields :=
    match signature self with
    | SigClass c =>
        let requiredFields := keys (getOutputFields c) in
        let providedFields :=
          filter (notNullish parsedFromSignature) (keys parsedFromSignature) in
        if List.length providedFields =? 0 then Some requiredFields else None
    | SigString _ => None
    end in
  match incompleteFields with
  | Some requiredFields =>
      Continue {| conversation := conv ++ incomplete requiredFields;
                  previousToolCalls := previousToolCalls st;
                  world := world st; trace := trace st |}
  | None =>
      let parsedKeys := keys parsedFromSignature in
      let hasValidParsedData := existsb (notNullish parsedFromSignature) parsedKeys in
      let finalAnswerData :=
        if negb hasValidParsedData || (List.length parsedKeys =? 0) then
          [("answer", rawAnswer)]
        else if negb (hasProperty "answer" parsedFromSignature) && negb (isNull rawAnswer)
        then spread parsedFromSignature [("answer", rawAnswer)]
        else parsedFromSignature in
      let combinedOutput :=
        spread finalAnswerData [("steps", JNum (ofZ (Z.of_nat step + 1)))] in
      Finish (Normal {| _data := combinedOutput |})
        {| conversation := conv; previousToolCalls := previousToolCalls st;
           world := world st; trace := trace st |}
  end.

(** The body of [for (let step = 0; step < this.maxSteps; step++)]. *)
Definition iteration (self : RespAct) (step : nat) (st : LoopState) : Step :=
  let prompt := conversation st ++ NLs ++ NLs ++ "Thought:" in
  let '(r, w1) := generate (lm self) prompt (world st) in
  let tr1 := (trace st ++ [Generate prompt r])%list in
  match r with
  | Rejected e =>
      Finish (Throw e)
        {| conversation := conversation st; previousToolCalls := previousToolCalls st;
           world := w1; trace := tr1 |}
  | Reply response =>
      let conv := conversation st ++ NLs ++ NLs ++ "Thought: " ++ response in
      match extractToolCall response with
      | Some toolCall =>
          let toolCallKey := tool toolCall ++ ":" ++ input toolCall in
          if existsb (String.eqb toolCallKey) (previousToolCalls st) then
            Continue {| conversation := conv ++ repeated;
                        previousToolCalls := previousToolCalls st;
                        world := w1; trace := tr1 |}
          else
            let previous := (previousToolCalls st ++ [toolCallKey])%list in
            match executeTool self (tool toolCall) (input toolCall) w1 tr1 with
            | (Normal observation, w2, tr2) =>
                Continue {| conversation := conv ++ NLs ++ NLs ++ "Observation: " ++ observation;
                            previousToolCalls := previous;
                            world := w2; trace := tr2 |}
            | (Throw error, w2, tr2) =>
                Continue {| conversation :=
                              conv ++ NLs ++ NLs ++ "Observation: Error - " ++ errorText error;
                            previousToolCalls := previous;
                            world := w2; trace := tr2 |}
            end
      | None =>
          let st1 := {| conversation := conv; previousToolCalls := previousToolCalls st;
                        world := w1; trace := tr1 |} in
          if includes (toLowerCase response) "final answer:"
          then finalAnswer self step response conv st1
          else Continue st1
      end
  end.

(** The loop with [n] iterations still allowed, then the throw after it. *)
Fixpoint loop (self : RespAct) (n step : nat) (st : LoopState)
  : completion Prediction * LoopState :=
  match n with
  | O => (Throw (exceeded self), st)
  | S n' =>
      match iteration self step st with
      | Continue st' => loop self n' (S step) st'
      | Finish r st' => (r, st')
      end
  end.

(** [forward]: the body of the loop is entered for [step] = 0, 1, ...
    as long as [step < this.maxSteps] and nothing has left the loop. *)
Definition forward (self : RespAct) (inputs : JSObject) (w : World)
  : completion Prediction * LoopState :=
  loop self (iterations (maxSteps self)) 0
    {| conversation := buildInitialPrompt self inputs;
       previousToolCalls := [];
       world := w; trace := [] |}.

(** How often the model was called, and how often a tool function ran
    with a given dedup key. *)
Definition isGenerate (e : Event) : bool :=
  match e with Generate _ _ => true | ToolRun _ _ => false end.

Definition lmCalls (tr : list Event) : nat := List.length (filter isGenerate tr).

Definition ranWithKey (key : string) (e : Event) : bool :=
  match e with
  | ToolRun name arg => String.eqb (name ++ ":" ++ arg) key
  | Generate _ _ => false
  end.

Definition toolRuns (key : string) (tr : list Event) : nat :=
  List.length (filter (ranWithKey key) tr).

End RespActModule.

Arguments generate {World} i prompt w.
Arguments description {World} t.
Arguments function {World} t arg w.
Arguments BareFunction {World} f.
Arguments Described {World} t.
Arguments signature {World} r.
Arguments lm {World} r.
Arguments tools {World} r.
Arguments maxSteps {World} r.
Arguments conversation {World} l.
Arguments previousToolCalls {World} l.
Arguments world {World} l.
Arguments trace {World} l.
Arguments new {World} signature lm tools maxSteps.
Arguments ownTools {World} o.
Arguments hasTool {World} toolName o.
Arguments executeTool {World} self toolName input w tr.
Arguments parseOutput {World} self rawOutput.
Arguments buildInitialPrompt {World} self inputs.
Arguments exceeded {World} self.
Arguments Continue {World} st.
Arguments Finish {World} r st.
Arguments finalAnswer {World} self step response conv st.
Arguments iteration {World} self step st.
Arguments loop {World} self n step st.
Arguments forward {World} self inputs w.

(** ** core/config.ts

    [DSPyConfig] keeps its only instance in a static field, created on
    first use; the state of the program is that field. *)

Module DSPyConfig.
Section Singleton.

Variable World : Type.

Record DSPyConfig :=
  { _defaultLM : option (ILanguageModel World);
    _cache : bool;
    _tracing : bool }.

(** [DSPyConfig.instance]. *)
Definition State := option DSPyConfig.

Definition unset : State := None.

Definition getInstance (s : State) : DSPyConfig * State :=
  match s with
  | Some config => (config, s)
  | None =>
      let config := {| _defaultLM := None; _cache := true; _tracing := false |} in
      (config, Some config)
  end.

Record Options :=
  { o_lm : option (ILanguageModel World);
    o_cache : option bool;
    o_tracing : option bool }.

Definition configure (options : Options) (s : State) : State :=
  let '(config, _) := getInstance s in
  Some {| _defaultLM :=
            match o_lm options with
            | Some m => Some m
            | None => _defaultLM config
            end;
          _cache :=
            match o_cache options with
            | Some b => b
            | None => _cache config
            end;
          _tracing :=
            match o_tracing options with
            | Some b => b
            | None => _tracing config
            end |}.

Definition notConfigured : JSError :=
  mkError "Error"
    "No default language model configured. Call configure({ lm: ... }) first.".

Definition getDefaultLM (s : State) : completion (ILanguageModel World) * State :=
  let '(config, s') := getInstance s in
  match _defaultLM config with
  | Some m => (Normal m, s')
  | None => (Throw notConfigured, s')
  end.

Definition isCacheEnabled (s : State) : bool * State :=
  let '(config, s') := getInstance s in (_cache config, s').

Definition isTracingEnabled (s : State) : bool * State :=
  let '(config, s') := getInstance s in (_tracing config, s').

End Singleton.
End DSPyConfig.

Arguments DSPyConfig.unset {World}.
Arguments DSPyConfig.configure {World} options s.
Arguments DSPyConfig.getDefaultLM {World} s.
Arguments DSPyConfig.isCacheEnabled {World} s.
Arguments DSPyConfig.isTracingEnabled {World} s.
Arguments DSPyConfig.notConfigured : clear implicits.

(** ** core/module.ts, modules/predict.ts and modules/chain-of-thought.ts *)

Section Modules.

Variable World : Type.

(** The constructor of [Module]: [this.lm = lm || getDefaultLM()]. *)
Definition moduleLM (lm : option (ILanguageModel World)) (s : DSPyConfig.State World)
  : completion (ILanguageModel World) * DSPyConfig.State World :=
  match lm with
  | Some m => (Normal m, s)
  | None => DSPyConfig.getDefaultLM s
  end.

(** [new RespAct(signature, { tools, maxSteps })]: the constructor calls
    [super(signature)] first, without a model of its own. *)
Definition newRespAct (signature : SignatureT)
  (tools : list (string * ToolDefinition World)) (maxSteps : option Decimal)
  (s : DSPyConfig.State World) : completion (RespAct World) * DSPyConfig.State World :=
  match moduleLM None s with
  | (Normal m, s') => (Normal (new signature m tools maxSteps), s')
  | (Throw e, s') => (Throw e, s')
  end.

(** What [Predict] and [ChainOfThought] keep of [Module]. *)
Record Predict :=
  { p_signature : SignatureT;
    p_lm : ILanguageModel World }.

(** [new Predict(signature, lm)] and [new ChainOfThought(signature, lm)]. *)
Definition newPredict (signature : SignatureT) (lm : option (ILanguageModel World))
  (s : DSPyConfig.State World) : completion Predict * DSPyConfig.State World :=
  match moduleLM lm s with
  | (Normal m, s') => (Normal {| p_signature := signature; p_lm := m |}, s')
  | (Throw e, s') => (Throw e, s')
  end.

Definition noSignatureProvided : JSError := mkError "Error" "No signature provided".

Definition Predict_buildPrompt (self : Predict) (inputs : JSObject) : completion string :=
  if noSignature (p_signature self) then Throw noSignatureProvided
  else Parsing.buildPrompt (p_signature self) inputs.

Definition Predict_parseOutput (self : Predict) (rawOutput : string)
  : completion JSObject :=
  if noSignature (p_signature self) then Throw noSignatureProvided
  else Parsing.parseOutput (p_signature self) rawOutput.

(** [new Error(`<what> failed: ${error instanceof Error ? error.message : String(error)}`)];
    the errors that reach the handler are Error objects. *)
Definition failed (what : string) (e : JSError) : JSError :=
  match e with
  | mkError _ message => mkError "Error" (what ++ " failed: " ++ message)
  end.

Definition Predict_forward (self : Predict) (inputs : JSObject) (w : World)
  : completion Prediction * World * list Event :=
  match Predict_buildPrompt self inputs with
  | Throw e => (Throw (failed "Prediction" e), w, [])
  | Normal prompt =>
      let '(r, w1) := generate (p_lm self) prompt w in
      let tr := [Generate prompt r] in
      match r with
      | Rejected e => (Throw (failed "Prediction" e), w1, tr)
      | Reply rawOutput =>
          match Predict_parseOutput self rawOutput with
          | Throw e => (Throw (failed "Prediction" e), w1, tr)
          | Normal parsed => (Normal {| _data := parsed |}, w1, tr)
          end
      end
  end.

Definition buildReasoningPrompt (self : Predict) (inputs : JSObject) : completion string :=
  match Predict_buildPrompt self inputs with
  | Throw e => Throw e
  | Normal basePrompt =>
      Normal (basePrompt ++ NLs ++ NLs
                ++ "Let's think step by step. Please provide your reasoning:")
  end.

Definition buildFinalPrompt (self : Predict) (inputs : JSObject) (reasoning : string)
  : completion string :=
  match Predict_buildPrompt self inputs with
  | Throw e => Throw e
  | Normal basePrompt =>
      Normal (basePrompt ++ NLs ++ NLs ++ "Reasoning: " ++ reasoning ++ NLs ++ NLs
                ++ "Based on this reasoning, provide your final answer:")
  end.

Definition ChainOfThought_forward (self : Predict) (inputs : JSObject) (w : World)
  : completion Prediction * World * list Event :=
  match buildReasoningPrompt self inputs with
  | Throw e => (Throw (failed "ChainOfThought" e), w, [])
  | Normal reasoningPrompt =>
      let '(r1, w1) := generate (p_lm self) reasoningPrompt w in
      let tr1 := [Generate reasoningPrompt r1] in
      match r1 with
      | Rejected e => (Throw (failed "ChainOfThought" e), w1, tr1)
      | Reply reasoning =>
          match buildFinalPrompt self inputs reasoning with
          | Throw e => (Throw (failed "ChainOfThought" e), w1, tr1)
          | Normal finalPrompt =>
              let '(r2, w2) := generate (p_lm self) finalPrompt w1 in
              let tr2 := (tr1 ++ [Generate finalPrompt r2])%list in
              match r2 with
              | Rejected e => (Throw (failed "ChainOfThought" e), w2, tr2)
              | Reply finalOutput =>
                  match Predict_parseOutput self finalOutput with
                  | Throw e => (Throw (failed "ChainOfThought" e), w2, tr2)
                  | Normal parsed =>
                      (Normal {| _data := spread parsed [("reasoning", JStr reasoning)] |},
                       w2, tr2)
                  end
              end
          end
      end
  end.

End Modules.

Arguments moduleLM {World} lm s.
Arguments newRespAct {World} signature tools maxSteps s.
Arguments p_signature {World} p.
Arguments p_lm {World} p.
Arguments newPredict {World} signature lm s.
Arguments Predict_buildPrompt {World} self inputs.
Arguments Predict_parseOutput {World} self rawOutput.
Arguments Predict_forward {World} self inputs w.
Arguments buildReasoningPrompt {World} self inputs.
Arguments buildFinalPrompt {World} self inputs reasoning.
Arguments ChainOfThought_forward {World} self inputs w.

(** ** Sample agents

    The outside world of the samples is a counter of model calls; the
    model answers from a script, as the mock of the test suite does. *)

Module Sample.

Definition scripted (responses : list string) : ILanguageModel nat :=
  {| generate := fun _ i =>
       (match nth_error responses i with
        | Some r => Reply r
        | None => Rejected (mkError "Error" "No more mock responses available")
        end, S i) |}.

Definition always (response : string) : ILanguageModel nat :=
  {| generate := fun _ i => (Reply response, S i) |}.

Definition add : ToolDefinition nat :=
  Described {| description := "Adds two numbers";
               function := fun _ w => (Returned "5", w) |}.

Definition failingTool : ToolDefinition nat :=
  Described {| description := "A tool that fails";
               function := fun _ w => (Threw "Error: Tool failed", w) |}.

(** [() => { throw Symbol('failure') }]. *)
Definition symbolTool : ToolDefinition nat :=
  Described {| description := "A tool that throws a Symbol";
               function := fun _ w =>
                 (ThrewUnprintable
                    (mkError "TypeError" "Cannot convert a Symbol value to a string"),
                  w) |}.

Definition field (type : string) : FieldConfig :=
  {| fc_description := "Output field"; fc_prefix := None;
     fc_type := Some type; fc_required := Some true |}.

(** A class-based signature with the output fields [symbol] and [price]. *)
Definition Quote : SignatureClass :=
  {| sc_description := None;
     getInputFields := [("question", field "string")];
     getOutputFields := [("symbol", field "string"); ("price", field "number")] |}.

Definition question : JSObject := [("question", JStr "What is the price?")].

Definition callAdd : string := "Action: add" ++ NLs ++ "Action Input: 2,3".

Definition callFailing : string := "Action: failingTool" ++ NLs ++ "Action Input: x".

Definition start (conv : string) (seen : list string) : LoopState nat :=
  {| conversation := conv; previousToolCalls := seen; world := 0; trace := [] |}.

End Sample.

(** ** Vocabulary of the statements *)

(** The prompt of an iteration and the transcript after the reply. *)
Definition promptOf {World : Type} (st : LoopState World) : string :=
  conversation st ++ NLs ++ NLs ++ "Thought:".

Definition withReply {World : Type} (st : LoopState World) (response : string) : string :=
  conversation st ++ NLs ++ NLs ++ "Thought: " ++ response.

Definition keyOf (c : ToolCall) : string := tool c ++ ":" ++ input c.

(** What the loop writes after "Observation: " for an outcome of
    [executeTool]: what it returned, or "Error - " and the text of what
    it threw. *)
Definition observed (r : completion string) : string :=
  match r with
  | Normal observation => observation
  | Throw error => "Error - " ++ errorText error
  end.

Definition seen {World : Type} (st : LoopState World) (key : string) : bool :=
  existsb (String.eqb key) (previousToolCalls st).

(** An event of a call in which the model has not given a final answer:
    a reply in which a tool call was detected, or one without the text
    "final answer:" in any letter case. *)
Definition noFinalAnswer (e : Event) : bool :=
  match e with
  | Generate _ (Reply response) =>
      match extractToolCall response with
      | Some _ => true
      | None => negb (includes (toLowerCase response) "final answer:")
      end
  | Generate _ (Rejected _) => false
  | ToolRun _ _ => true
  end.

(** The state an iteration leaves behind, however it ends. *)
Definition stateAfter {World : Type} (s : Step World) : LoopState World :=
  match s with
  | Continue st => st
  | Finish _ st => st
  end.

(** A tool function has run for a key only if the key is recorded, and
    then once. *)
Definition dedupInvariant {World : Type} (st : LoopState World) : Prop :=
  forall key, toolRuns key (trace st) <= (if seen st key then 1 else 0).

(** What [simpleAnswer] and [tryPattern] make of a raw value. *)
Definition cleaned (value : string) : string :=
  removeAll Parsing.noFlags Parsing.quotes
    (removeAll Parsing.noFlags Parsing.asterisks value).

(** The name occurs in the text, letter case apart. *)
Fixpoint startsWithAnyCase (s p : string) {struct p} : bool :=
  match p, s with
  | EmptyString, _ => true
  | String _ _, EmptyString => false
  | String a p', String b s' =>
      Ascii.eqb (upperChar a) (upperChar b) && startsWithAnyCase s' p'
  end.

Fixpoint mentions (s name : string) : bool :=
  startsWithAnyCase s name ||
  match s with
  | EmptyString => false
  | String _ s' => mentions s' name
  end.

(** The output field names a signature declares. *)
Definition declaredOutputs (sig : SignatureT) : completion (list string) :=
  match sig with
  | SigString s =>
      match Signature.parseStringSignature s with
      | Normal parsed => Normal (outputs parsed)
      | Throw e => Throw e
      end
  | SigClass c => Normal (keys (getOutputFields c))
  end.

(** A name all of whose characters stand for themselves in the source
    of a pattern. *)
Definition syntaxChars : string := "\^$.*+?()[]{}|".

Fixpoint literalName (name : string) : bool :=
  match name with
  | EmptyString => true
  | String c name' =>
      negb (includes syntaxChars (String c EmptyString)) && literalName name'
  end.

(** None of the strategies of [extractFieldValue] yields a value. *)
Definition noStrategyMatched (text fieldName : string) : Prop :=
  Parsing.simpleAnswer text fieldName = None /\
  Parsing.firstPattern text (Parsing.patterns fieldName) = None.

(** One turn of the loops that fill a result object:
    [result[key] = value]. *)
Definition fill {X A : Type} (kf : X -> string) (vf : X -> A)
  (result : list (string * A)) (x : X) : list (string * A) :=
  assign (kf x) (vf x) result.

(** A labelled line stands in the reply: the label, white space, and a
    character that does not end the line. *)
Fixpoint allWhiteSpace (s : string) : bool :=
  match s with
  | EmptyString => true
  | String c s' => isWhiteSpace c && allWhiteSpace s'
  end.

Definition hasLabelled (label response : string) : Prop :=
  exists (before gap : string) (c : ascii) (after : string),
    response = before ++ label ++ gap ++ String c after /\
    allWhiteSpace gap = true /\
    isLineTerminator c = false.

(** How often a tool function ran, whatever the key. *)
Definition toolCount (tr : list Event) : nat :=
  List.length (filter (fun e => negb (isGenerate e)) tr).

(** The traces a run can leave: model calls in a row, where a reply in
    which a call of a registered tool was found may be followed by the
    run of that tool with the input found. *)
Inductive Recorded {World : Type} (self : RespAct World) : list Event -> Prop :=
| recorded_nil : Recorded self []
| recorded_call (tr : list Event) (prompt : string) (r : LMResult) :
    Recorded self tr -> Recorded self (tr ++ [Generate prompt r])
| recorded_tool (tr : list Event) (prompt response : string) (c : ToolCall)
    (t : ToolWithDescription World) :
    Recorded self tr ->
    extractToolCall response = Some c ->
    lookup (tool c) (tools self) = Some t ->
    Recorded self (tr ++ [Generate prompt (Reply response); ToolRun (tool c) (input c)]).

Definition isRejection (e : Event) : bool :=
  match e with Generate _ (Rejected _) => true | _ => false end.

(** Every prompt on record begins with [initial]; the transcript begins
    with every prompt on record followed by its reply; and so does every
    later prompt. *)
Definition grown (initial conv : string) (tr : list Event) : Prop :=
  startsWith conv initial = true /\
  (forall prompt r, In (Generate prompt r) tr -> startsWith prompt initial = true) /\
  (forall prompt response, In (Generate prompt (Reply response)) tr ->
     startsWith conv (prompt ++ " " ++ response) = true) /\
  (forall tr1 p1 r1 tr2 p2 r2 tr3,
     tr = (tr1 ++ Generate p1 (Reply r1) :: tr2 ++ Generate p2 r2 :: tr3)%list ->
     startsWith p2 (p1 ++ " " ++ r1) = true).

(** Every code unit of the string passes the test. *)
Fixpoint allChars (p : ascii -> bool) (s : string) : bool :=
  match s with
  | EmptyString => true
  | String c s' => p c && allChars p s'
  end.

(** The string does not begin with white space. *)
Definition noLeadingSpace (s : string) : bool :=
  match s with
  | EmptyString => true
  | String c _ => negb (isWhiteSpace c)
  end.

(** The string is at its end or goes on with a line terminator. *)
Definition lineEnds (s : string) : bool :=
  match s with
  | EmptyString => true
  | String c _ => isLineTerminator c
  end.

(** [label] begins at some place inside [before] when [before] is
    followed by [label]. *)
Fixpoint beginsInside (before label : string) : bool :=
  match before with
  | EmptyString => false
  | String _ before' =>
      startsWith (before ++ label) label || beginsInside before' label
  end.

(** The first [label] of [response] stands after [before]; white space
    [gap] follows it, then [value], which runs to the end of its line. *)
Definition firstLabelled (label response before gap value after : string) : Prop :=
  response = before ++ label ++ gap ++ value ++ after /\
  beginsInside before label = false /\
  allWhiteSpace gap = true /\
  noLeadingSpace value = true /\
  value <> EmptyString /\
  allChars (fun c => negb (isLineTerminator c)) value = true /\
  lineEnds after = true.

(** A text that reads neither as a number nor as JSON and holds no
    colon (and no \u escape, which could name a character outside the
    alphabet of this development). *)
Definition plainText (text : string) : bool :=
  match Number text, JSON.parse text with
  | None, None => negb (includes text ":") && negb (includes text "\u")
  | _, _ => false
  end.

(** A name made of letters, digits and underscores, at least one. *)
Definition isIdentifier (name : string) : bool :=
  truthy name && allChars isWordChar name.

(** The input field names a signature declares. *)
Definition declaredInputs (sig : SignatureT) : completion (list string) :=
  match sig with
  | SigString s =>
      match Signature.parseStringSignature s with
      | Normal parsed => Normal (inputs parsed)
      | Throw e => Throw e
      end
  | SigClass c => Normal (keys (getInputFields c))
  end.

(** ** The embedding on the cases of the test suite *)

(** core/signature.test.ts, 'should handle whitespace in string signature'. *)
Example signature_with_whitespace :
  Signature.parseStringSignature "  input1 , input2  ->  output1: int , output2  "
    = Normal {| inputs := ["input1"; "input2"];
                outputs := ["output1"; "output2"];
                types := [("input1", "string"); ("input2", "string");
                          ("output1", "int"); ("output2", "string")] |}.
Proof. vm_compute. reflexivity. Qed.

(** utils/parsing.test.ts, 'should parse multiple outputs'. *)
Example parse_multiple_outputs :
  Parsing.parseOutput (SigString "question -> answer, confidence: float")
    ("answer: Paris" ++ NLs ++ "confidence: 0.95")
    = Normal [("answer", JStr "Paris"); ("confidence", JNum (Finite false 95 (-2)))].
Proof. vm_compute. reflexivity. Qed.

(** utils/parsing.test.ts, 'should handle invalid JSON gracefully'. *)
Example parse_list_without_json :
  Parsing.parseOutput (SigString "input -> array_val: array")
    "array_val: item1, item2, item3"
    = Normal [("array_val", JArr [JStr "item1"; JStr "item2"; JStr "item3"])].
Proof. vm_compute. reflexivity. Qed.

(** utils/parsing.test.ts, 'should return null for missing fields' and
    'should handle number conversion with fallback'. *)
Example parse_missing_and_fallback :
  Parsing.parseOutput (SigString "input -> missing_field") "some_other_field: value"
    = Normal [("missing_field", JNull)] /\
  Parsing.parseOutput (SigString "input -> num_val: int") "num_val: 42"
    = Normal [("num_val", JNum (Finite false 42 0))] /\
  Parsing.parseOutput (SigString "input -> num_val: int") "num_val: not_a_number"
    = Normal [("num_val", JStr "not_a_number")].
Proof. vm_compute. repeat split; reflexivity. Qed.

(** modules/respact.test.ts, 'should complete a full workflow with
    described tools': one tool call, then the final answer in step 2. *)
Example full_workflow :
  let self :=
    new (SigString "question -> answer")
      (Sample.scripted
         [ "I need to calculate the result. Action: calculator" ++ NLs
             ++ "Action Input: 6 * 7";
           "Final Answer: The result is 42" ])
      [("calculator",
        Described {| description := "Performs arithmetic calculations";
                     function := fun _ w => (Returned "42", w) |})]
      (Some (integer 3)) in
  let run := forward self [("question", JStr "What is 6 times 7?")] 0 in
  fst run = Normal {| _data := [("answer", JStr "The result is 42");
                               ("steps", JNum (ofZ 2))] |} /\
  filter (fun e => negb (isGenerate e)) (trace (snd run)) = [ToolRun "calculator" "6 * 7"].
Proof. vm_compute. split; reflexivity. Qed.

(** modules/respact.test.ts, 'should handle unknown tools'. *)
Example unknown_tool :
  let self := new (SigString "question -> answer") (Sample.always "x")
                [("knownTool", Sample.add)] None in
  executeTool self "unknownTool" "input" 0 []
    = (Normal "Error: Tool 'unknownTool' not found. Available tools: knownTool", 0, []).
Proof. vm_compute. reflexivity. Qed.

(** ** Counting calls in a trace *)

Lemma lmCalls_app (a b : list Event) :
  lmCalls (a ++ b)%list = lmCalls a + lmCalls b.
Proof. unfold lmCalls. now rewrite filter_app, length_app. Qed.

Lemma toolRuns_app (key : string) (a b : list Event) :
  toolRuns key (a ++ b)%list = toolRuns key a + toolRuns key b.
Proof. unfold toolRuns. now rewrite filter_app, length_app. Qed.

Lemma lmCalls_generate (tr : list Event) (prompt : string) (r : LMResult) :
  lmCalls (tr ++ [Generate prompt r])%list = S (lmCalls tr).
Proof. rewrite lmCalls_app. cbn. lia. Qed.

Lemma lmCalls_toolRun (tr : list Event) (name arg : string) :
  lmCalls (tr ++ [ToolRun name arg])%list = lmCalls tr.
Proof. rewrite lmCalls_app. cbn. lia. Qed.

(** ** What [executeTool] records

    Whatever the tool does, [executeTool] runs the tool function at most
    once and calls no model. *)

Lemma executeTool_returns {World : Type} (self : RespAct World)
  (toolName input : string) (w : World) (tr : list Event) :
  exists r w',
    (executeTool self toolName input w tr = (r, w', tr) \/
     executeTool self toolName input w tr
       = (r, w', (tr ++ [ToolRun toolName input])%list)).
Proof.
  unfold executeTool.
  destruct (negb (hasTool toolName (tools self))).
  - eauto.
  - destruct (lookup toolName (tools self)) as [t|].
    + destruct (function t input w) as [[text|text|raised] w']; eauto.
    + eauto.
Qed.

(** The iteration of a reply in which a tool call was detected: a
    repeated call, or a new one. *)
Lemma iteration_repeated {World : Type} (self : RespAct World) (step : nat)
  (st : LoopState World) (response : string) (w1 : World) (c : ToolCall) :
  generate (lm self) (promptOf st) (world st) = (Reply response, w1) ->
  extractToolCall response = Some c ->
  seen st (keyOf c) = true ->
  iteration self step st =
    Continue {| conversation := withReply st response ++ repeated;
                previousToolCalls := previousToolCalls st;
                world := w1;
                trace := trace st ++ [Generate (promptOf st) (Reply response)] |}.
Proof.
  unfold iteration, promptOf, withReply, seen, keyOf.
  intros Hg Hc Hs. rewrite Hg, Hc, Hs. reflexivity.
Qed.

Lemma iteration_new_call {World : Type} (self : RespAct World) (step : nat)
  (st : LoopState World) (response : string) (w1 : World) (c : ToolCall) :
  generate (lm self) (promptOf st) (world st) = (Reply response, w1) ->
  extractToolCall response = Some c ->
  seen st (keyOf c) = false ->
  exists r w2 tr2,
    executeTool self (tool c) (input c) w1 (trace st ++ [Generate (promptOf st) (Reply response)])%list
      = (r, w2, tr2) /\
    iteration self step st =
      Continue {| conversation :=
                    withReply st response ++ NLs ++ NLs ++ "Observation: " ++ observed r;
                  previousToolCalls := previousToolCalls st ++ [keyOf c];
                  world := w2;
                  trace := tr2 |}.
Proof.
  unfold iteration, promptOf, withReply, seen, keyOf.
  intros Hg Hc Hs. rewrite Hg, Hc, Hs.
  destruct (executeTool_returns self (tool c) (input c) w1
              (trace st ++ [Generate (conversation st ++ NLs ++ NLs ++ "Thought:") (Reply response)])%list)
    as ([obs|error] & w2 & [He|He]); rewrite He; eauto.
Qed.

Lemma iteration_no_marker {World : Type} (self : RespAct World) (step : nat)
  (st : LoopState World) (response : string) (w1 : World) :
  generate (lm self) (promptOf st) (world st) = (Reply response, w1) ->
  extractToolCall response = None ->
  includes (toLowerCase response) "final answer:" = false ->
  iteration self step st =
    Continue {| conversation := withReply st response;
                previousToolCalls := previousToolCalls st;
                world := w1;
                trace := trace st ++ [Generate (promptOf st) (Reply response)] |}.
Proof.
  unfold iteration, promptOf, withReply.
  intros Hg Hc Hf. rewrite Hg, Hc, Hf. reflexivity.
Qed.

(** ** What an iteration adds to the trace *)

Lemma finalAnswer_keeps_calls {World : Type} (self : RespAct World) (step : nat)
  (response conv : string) (st : LoopState World) :
  previousToolCalls (stateAfter (finalAnswer self step response conv st))
    = previousToolCalls st /\
  trace (stateAfter (finalAnswer self step response conv st)) = trace st.
Proof.
  unfold finalAnswer.
  destruct (signature self) as [s|c].
  - cbn. auto.
  - destruct (List.length _ =? 0); cbn; auto.
Qed.

Lemma iteration_final_answer {World : Type} (self : RespAct World) (step : nat)
  (st : LoopState World) (response : string) (w1 : World) :
  generate (lm self) (promptOf st) (world st) = (Reply response, w1) ->
  extractToolCall response = None ->
  includes (toLowerCase response) "final answer:" = true ->
  iteration self step st =
    finalAnswer self step response (withReply st response)
      {| conversation := withReply st response;
         previousToolCalls := previousToolCalls st;
         world := w1;
         trace := trace st ++ [Generate (promptOf st) (Reply response)] |}.
Proof.
  unfold iteration, promptOf, withReply.
  intros Hg Hc Hf. rewrite Hg, Hc, Hf. reflexivity.
Qed.

Lemma iteration_rejected {World : Type} (self : RespAct World) (step : nat)
  (st : LoopState World) (e : JSError) (w1 : World) :
  generate (lm self) (promptOf st) (world st) = (Rejected e, w1) ->
  iteration self step st =
    Finish (Throw e)
      {| conversation := conversation st;
         previousToolCalls := previousToolCalls st;
         world := w1;
         trace := trace st ++ [Generate (promptOf st) (Rejected e)] |}.
Proof.
  unfold iteration, promptOf. intros Hg. rewrite Hg. reflexivity.
Qed.

(** Every iteration records its model call first, and then at most a
    tool run. *)
Lemma iteration_trace {World : Type} (self : RespAct World) (step : nat)
  (st : LoopState World) :
  exists more,
    trace (stateAfter (iteration self step st))
      = (trace st
           ++ Generate (promptOf st) (fst (generate (lm self) (promptOf st) (world st)))
           :: more)%list /\
    lmCalls more = 0.
Proof.
  destruct (generate (lm self) (promptOf st) (world st)) as [[response|e] w1] eqn:Hg;
    cbn [fst].
  - destruct (extractToolCall response) as [c|] eqn:Hc.
    + destruct (seen st (keyOf c)) eqn:Hs.
      * rewrite (iteration_repeated self step st response w1 c Hg Hc Hs).
        exists []. split; reflexivity.
      * destruct (iteration_new_call self step st response w1 c Hg Hc Hs)
          as (obs & w2 & tr2 & He & Hi).
        rewrite Hi. cbn [stateAfter trace].
        destruct (executeTool_returns self (tool c) (input c) w1
                    (trace st ++ [Generate (promptOf st) (Reply response)])%list)
          as (o & w & [E|E]); rewrite E in He; inversion He; subst.
        -- exists []. split; reflexivity.
        -- exists [ToolRun (tool c) (input c)]. split; [|reflexivity].
           now rewrite <- app_assoc.
    + destruct (includes (toLowerCase response) "final answer:") eqn:Hf.
      * rewrite (iteration_final_answer self step st response w1 Hg Hc Hf).
        match goal with
        | |- context [finalAnswer ?a ?b ?c ?d ?e] =>
            destruct (finalAnswer_keeps_calls a b c d e) as [_ Ht]; rewrite Ht
        end.
        exists []. split; reflexivity.
      * rewrite (iteration_no_marker self step st response w1 Hg Hc Hf).
        exists []. split; reflexivity.
  - rewrite (iteration_rejected self step st e w1 Hg).
    exists []. split; reflexivity.
Qed.

Lemma loop_trace {World : Type} (self : RespAct World) :
  forall (n step : nat) (st : LoopState World),
    exists more, trace (snd (loop self n step st)) = (trace st ++ more)%list.
Proof.
  induction n as [|n IH]; intros step st.
  - exists []. cbn. now rewrite app_nil_r.
  - cbn [loop]. destruct (iteration_trace self step st) as (more & Ht & _).
    destruct (iteration self step st) as [st'|r st']; cbn [stateAfter] in Ht.
    + destruct (IH (S step) st') as (more' & E). rewrite E, Ht.
      eexists. rewrite <- app_assoc. reflexivity.
    + cbn [snd]. rewrite Ht. eauto.
Qed.

(** A loop whose model calls give no final answer runs all its
    iterations, with one model call each, and ends in the throw. *)
Lemma loop_without_final_answer {World : Type} (self : RespAct World) :
  forall (n step : nat) (st : LoopState World),
    forallb noFinalAnswer (trace (snd (loop self n step st))) = true ->
    fst (loop self n step st) = Throw (exceeded self) /\
    lmCalls (trace (snd (loop self n step st))) = lmCalls (trace st) + n.
Proof.
  induction n as [|n IH]; intros step st Hq.
  - cbn. split; [reflexivity|lia].
  - assert (Hfirst : noFinalAnswer
                       (Generate (promptOf st)
                          (fst (generate (lm self) (promptOf st) (world st)))) = true).
    { destruct (loop_trace self (S n) step st) as (more & E).
      cbn [loop] in E, Hq.
      destruct (iteration_trace self step st) as (more1 & Ht & _).
      destruct (iteration self step st) as [st'|r st']; cbn [stateAfter] in Ht.
      - destruct (loop_trace self n (S step) st') as (more2 & E2).
        rewrite E2, Ht, <- app_assoc, forallb_app in Hq.
        apply andb_true_iff in Hq. destruct Hq as [_ Hq]. cbn [app forallb] in Hq.
        now apply andb_true_iff in Hq.
      - cbn [snd] in Hq. rewrite Ht, forallb_app in Hq.
        apply andb_true_iff in Hq. destruct Hq as [_ Hq]. cbn [forallb] in Hq.
        now apply andb_true_iff in Hq. }
    destruct (generate (lm self) (promptOf st) (world st)) as [[response|e] w1] eqn:Hg;
      cbn [fst noFinalAnswer] in Hfirst; [|discriminate].
    assert (Hcont : exists st', iteration self step st = Continue st' /\
                                lmCalls (trace st') = S (lmCalls (trace st))).
    { destruct (extractToolCall response) as [c|] eqn:Hc.
      - destruct (seen st (keyOf c)) eqn:Hs.
        + rewrite (iteration_repeated self step st response w1 c Hg Hc Hs).
          eexists; split; [reflexivity|]. cbn [trace]. apply lmCalls_generate.
        + destruct (iteration_new_call self step st response w1 c Hg Hc Hs)
            as (obs & w2 & tr2 & He & Hi).
          rewrite Hi. eexists; split; [reflexivity|]. cbn [trace].
          destruct (executeTool_returns self (tool c) (input c) w1
                      (trace st ++ [Generate (promptOf st) (Reply response)])%list)
            as (o & w & [E|E]); rewrite E in He; inversion He; subst.
          * apply lmCalls_generate.
          * rewrite lmCalls_toolRun. apply lmCalls_generate.
      - apply negb_true_iff in Hfirst.
        rewrite (iteration_no_marker self step st response w1 Hg Hc Hfirst).
        eexists; split; [reflexivity|]. cbn [trace]. apply lmCalls_generate. }
    destruct Hcont as (st' & Hi & Hcalls).
    cbn [loop] in Hq |- *. rewrite Hi in Hq |- *.
    destruct (IH (S step) st' Hq) as [E1 E2]. split; [exact E1|].
    rewrite E2, Hcalls. lia.
Qed.

(** ** The number of iterations *)

(** [step < x] holds for the first [iterations x] values of the counter
    and for no other. *)
Lemma iterations_below (x : Decimal) (k : nat) :
  below k x = true <-> k < iterations x.
Proof.
  unfold below, iterations. destruct x as [neg m e]. cbn [negative mantissa exponent].
  destruct neg; cbn [negb andb]; [split; [discriminate|lia]|].
  destruct (Z.leb_spec 0 e) as [He|He].
  - rewrite Z.ltb_lt.
    assert (0 <= Z.of_N m * 10 ^ e)%Z by (apply Z.mul_nonneg_nonneg; [lia|apply Z.pow_nonneg; lia]).
    lia.
  - rewrite Z.ltb_lt.
    assert (Hp : (0 < 10 ^ (- e))%Z) by (apply Z.pow_pos_nonneg; lia).
    set (p := (10 ^ (- e))%Z) in *.
    assert (Hq : (0 <= (Z.of_N m + p - 1) / p)%Z) by (apply Z.div_pos; lia).
    split; intros H.
    + assert ((Z.of_nat k + 1) <= (Z.of_N m + p - 1) / p)%Z; [|lia].
      apply Z.div_le_lower_bound; [exact Hp|]. nia.
    + assert ((Z.of_nat k + 1) <= (Z.of_N m + p - 1) / p)%Z as Hk by lia.
      assert (p * (Z.of_nat k + 1) <= Z.of_N m + p - 1)%Z; [|nia].
      eapply Z.le_trans; [apply Z.mul_le_mono_nonneg_l; [lia|exact Hk]|].
      apply Z.mul_div_le. exact Hp.
Qed.

Lemma iterations_integer (z : Z) : iterations (integer z) = Z.to_nat z.
Proof.
  unfold iterations, integer. cbn [negative mantissa exponent].
  destruct (Z.ltb_spec z 0); [lia|]. cbn. lia.
Qed.

Lemma maxSteps_new {World : Type} (sig : SignatureT) (m : ILanguageModel World)
  (toolset : list (string * ToolDefinition World)) (N : Decimal) :
  isZero N = false -> maxSteps (new sig m toolset (Some N)) = N.
Proof. intros H. cbn. now rewrite H. Qed.

Lemma below_not_zero (k : nat) (N : Decimal) : below k N = true -> isZero N = false.
Proof.
  unfold below, isZero. destruct N as [neg m e]. cbn [negative mantissa exponent].
  destruct (N.eqb_spec m 0) as [->|]; [|reflexivity].
  destruct neg; cbn [negb andb]; [discriminate|].
  destruct (0 <=? e)%Z; rewrite Z.ltb_lt; lia.
Qed.




(** The iteration of a reply in which [extractToolCall] finds a call:
    the observation of the tool path is appended and the loop goes on. *)
Lemma iteration_of_tool_call {World : Type} (self : RespAct World)
  (n step : nat) (st : LoopState World) (response : string) (w1 : World)
  (c : ToolCall) :
  generate (lm self) (promptOf st) (world st) = (Reply response, w1) ->
  extractToolCall response = Some c ->
  exists st',
    iteration self step st = Continue st' /\
    loop self (S n) step st = loop self n (S step) st' /\
    ((seen st (keyOf c) = true /\
      conversation st'
        = withReply st response ++ NLs ++ NLs
            ++ "Observation: You have already made this tool call. Please move to the next step." /\
      trace st' = (trace st ++ [Generate (promptOf st) (Reply response)])%list) \/
     (seen st (keyOf c) = false /\
      exists observation w2,
        executeTool self (tool c) (input c) w1
          (trace st ++ [Generate (promptOf st) (Reply response)])%list
          = (Normal observation, w2, trace st') /\
        conversation st'
          = withReply st response ++ NLs ++ NLs ++ "Observation: " ++ observation) \/
     (seen st (keyOf c) = false /\
      exists error w2,
        executeTool self (tool c) (input c) w1
          (trace st ++ [Generate (promptOf st) (Reply response)])%list
          = (Throw error, w2, trace st') /\
        conversation st'
          = withReply st response ++ NLs ++ NLs ++ "Observation: Error - "
              ++ errorText error)).
Proof.
  intros Hg Hc.
  destruct (seen st (keyOf c)) eqn:Hs.
  - eexists. split; [apply (iteration_repeated self step st response w1 c Hg Hc Hs)|].
    split.
    + cbn [loop]. now rewrite (iteration_repeated self step st response w1 c Hg Hc Hs).
    + left. cbn. auto.
  - destruct (iteration_new_call self step st response w1 c Hg Hc Hs)
      as (obs & w2 & tr2 & He & Hi).
    eexists. split; [exact Hi|]. split.
    + cbn [loop]. now rewrite Hi.
    + right. destruct obs as [obs|error]; [left|right];
        (split; [reflexivity|]); eexists; exists w2; cbn [trace conversation];
        (split; [exact He|reflexivity]).
Qed.

(** ** A labelled line is detected

    The patterns for "Action:" and "Action Input:" match wherever the
    label is followed, after white space, by a character that does not
    end the line; so a reply with both lines holds a tool call. *)

Lemma rmatch_Seq (fl : flags) (a b : regex) (k : mstate -> option mstate) (st : mstate) :
  rmatch fl (Seq a b) k st = rmatch fl a (rmatch fl b k) st.
Proof. reflexivity. Qed.


Lemma rmatch_Dot (fl : flags) (k : mstate -> option mstate) (st : mstate) :
  rmatch fl Dot k st
    = consume st (fun c => dotAll fl || negb (isLineTerminator c)) k.
Proof. reflexivity. Qed.

Lemma rmatch_space (fl : flags) (k : mstate -> option mstate) (st : mstate) :
  rmatch fl Parsing.space k st
    = consume st (fun c => xorb false (set_found fl [CSpace] c)) k.
Proof. reflexivity. Qed.

Lemma mstate_eta (st : mstate) :
  st = {| prev := prev st; rest := rest st; cap := cap st |}.
Proof. now destruct st. Qed.

Lemma rmatch_lit_exact (fl : flags) (label : string) :
  ignoreCase fl = false ->
  forall (s : string) (k : mstate -> option mstate) (st : mstate),
    rest st = label ++ s ->
    exists p, rmatch fl (lit label) k st = k {| prev := p; rest := s; cap := cap st |}.
Proof.
  intros Hi. induction label as [|a label IH]; intros s k st Hr.
  - exists (prev st). cbn in Hr. cbn [lit rmatch]. rewrite <- Hr. now rewrite <- mstate_eta.
  - cbn [lit]. rewrite rmatch_Seq. cbn [rmatch]. unfold consume. rewrite Hr.
    change (String a label ++ s) with (String a (label ++ s)). cbv iota.
    unfold canon_eq. rewrite Hi, Ascii.eqb_refl.
    destruct (IH s k {| prev := Some a; rest := label ++ s; cap := cap st |} eq_refl)
      as (p & E).
    exists p. exact E.
Qed.

Lemma lookahead_at_line_end (fl : flags) (st : mstate) :
  multiline fl = true ->
  match next st with Some d => isLineTerminator d = true | None => True end ->
  rmatch fl (Ahead (Alt (Chr LF) Eol)) Some st <> None.
Proof.
  intros Hm Hn. cbn [rmatch].
  destruct (consume st (canon_eq fl LF) Some); [discriminate|].
  destruct (next st) as [d|]; [|discriminate].
  rewrite Hm, Hn. discriminate.
Qed.

Lemma lazy_dots_reach_line_end (fl : flags) (k : mstate -> option mstate) :
  dotAll fl = false ->
  (forall st, match next st with Some d => isLineTerminator d = true | None => True end ->
              k st <> None) ->
  forall (s : string) (fuel : nat) (st : mstate),
    rest st = s -> String.length s < fuel ->
    repeat_ (rmatch fl Dot) false k fuel st <> None.
Proof.
  intros Hd Hk. induction s as [|d s IH]; intros fuel st Hr Hf;
    (destruct fuel as [|fuel]; [cbn in Hf; lia|]); cbn [repeat_].
  - assert (E : k st <> None) by (apply Hk; unfold next; now rewrite Hr).
    destruct (k st); [discriminate|congruence].
  - destruct (k st) as [st'|] eqn:Ek; [discriminate|].
    rewrite rmatch_Dot. unfold consume. rewrite Hr, Hd. cbn [orb].
    destruct (isLineTerminator d) eqn:Ed.
    + exfalso. apply (Hk st); [|exact Ek]. unfold next. now rewrite Hr.
    + cbn [negb rest String.length]. rewrite (proj2 (Nat.ltb_lt _ _) (Nat.lt_succ_diag_r _)).
      apply IH; [reflexivity|]. cbn in Hf. lia.
Qed.

Lemma greedy_spaces_give_way (fl : flags) (k : mstate -> option mstate) (s : string) :
  ignoreCase fl = false ->
  forall (gap : string) (fuel : nat) (st : mstate),
    allWhiteSpace gap = true ->
    rest st = gap ++ s ->
    String.length (rest st) < fuel ->
    (forall p, k {| prev := p; rest := s; cap := cap st |} <> None) ->
    repeat_ (rmatch fl Parsing.space) true k fuel st <> None.
Proof.
  intros Hi. induction gap as [|g gap IH]; intros fuel st Hw Hr Hf Hk;
    (destruct fuel as [|fuel]; [lia|]); cbn [repeat_].
  - match goal with |- context [match ?a with Some _ => _ | None => _ end] =>
      destruct a; [discriminate|] end.
    rewrite (mstate_eta st), Hr. cbn [rest cap prev]. apply Hk.
  - cbn [allWhiteSpace] in Hw. apply andb_true_iff in Hw. destruct Hw as [Hg Hw].
    rewrite rmatch_space. unfold consume. rewrite Hr.
    change (String g gap ++ s) with (String g (gap ++ s)). cbv iota.
    unfold set_found. rewrite Hi. cbn [set_has existsb citem_has xorb orb].
    rewrite Hg. cbn [rest String.length xorb orb].
    rewrite (proj2 (Nat.ltb_lt _ _) (Nat.lt_succ_diag_r _)).
    assert (E : repeat_ (rmatch fl Parsing.space) true k fuel
                  {| prev := Some g; rest := gap ++ s; cap := cap st |} <> None).
    { apply IH; [exact Hw|reflexivity| |exact Hk].
      rewrite Hr in Hf. cbn in Hf |- *. lia. }
    destruct (repeat_ (rmatch fl Parsing.space) true k fuel
                {| prev := Some g; rest := gap ++ s; cap := cap st |});
      [discriminate|congruence].
Qed.

Lemma search_finds (fl : flags) (r : regex) (s : string) :
  (forall p, rmatch fl r Some {| prev := p; rest := s; cap := None |} <> None) ->
  forall (before : string) (p : option ascii) (i : nat),
    search fl r p (before ++ s) i <> None.
Proof.
  intros H. induction before as [|b before IH]; intros p i.
  - cbn [append]. destruct s as [|c s]; cbn [search]; unfold match_at;
      specialize (H p);
      destruct (rmatch fl r Some {| prev := p; rest := _; cap := None |});
      try discriminate; congruence.
  - change (String b before ++ s) with (String b (before ++ s)). cbn [search].
    destruct (match_at fl r p (String b (before ++ s)) i); [discriminate|apply IH].
Qed.

(** The pattern of a labelled line: [/<label>\s*(.+?)(?=\n|$)/m]. *)
Lemma labelled_line_is_found (label response : string) :
  hasLabelled label response ->
  match_ flags_m
    (Seq (lit label) (Seq (Star true Parsing.space)
       (Seq (Group (plus false Dot)) (Ahead (Alt (Chr LF) Eol))))) response <> None.
Proof.
  intros (before & gap & c & after & -> & Hw & Hc).
  unfold match_. apply search_finds. intros p.
  rewrite rmatch_Seq.
  destruct (rmatch_lit_exact flags_m label eq_refl (gap ++ String c after)
              (rmatch flags_m
                 (Seq (Star true Parsing.space)
                    (Seq (Group (plus false Dot)) (Ahead (Alt (Chr LF) Eol)))) Some)
              {| prev := p; rest := label ++ gap ++ String c after; cap := None |}
              eq_refl) as (p' & E).
  rewrite E. clear E. rewrite rmatch_Seq.
  change (rmatch flags_m (Star true Parsing.space) ?k ?st)
    with (repeat_ (rmatch flags_m Parsing.space) true k (S (String.length (rest st))) st).
  apply (greedy_spaces_give_way flags_m _ (String c after) eq_refl gap);
    [exact Hw|reflexivity|cbn [rest]; lia|].
  intros q. cbn [cap]. rewrite rmatch_Seq. unfold plus.
  change (rmatch flags_m (Group ?r1) ?k ?st)
    with (rmatch flags_m r1
            (fun st1 =>
               k {| prev := prev st1; rest := rest st1;
                    cap := Some (take (String.length (rest st) - String.length (rest st1))
                                   (rest st)) |}) st).
  rewrite rmatch_Seq.
  change (rmatch flags_m Dot ?k ?st)
    with (consume st (fun c => dotAll flags_m || negb (isLineTerminator c)) k).
  unfold consume. cbn [rest dotAll flags_m orb]. rewrite Hc. cbn [negb].
  change (rmatch flags_m (Star false Dot) ?k ?st)
    with (repeat_ (rmatch flags_m Dot) false k (S (String.length (rest st))) st).
  apply (lazy_dots_reach_line_end flags_m _ eq_refl) with (s := after);
    [|reflexivity|cbn [rest]; lia].
  intros st Hn. apply lookahead_at_line_end; [reflexivity|exact Hn].
Qed.

(** A reply with an "Action:" line and an "Action Input:" line holds a
    tool call for [extractToolCall]. *)
Lemma well_formed_pair_is_detected (response : string) :
  hasLabelled "Action:" response ->
  hasLabelled "Action Input:" response ->
  exists c, extractToolCall response = Some c.
Proof.
  intros Ha Hi. unfold extractToolCall.
  pose proof (labelled_line_is_found "Action:" response Ha) as Ea.
  pose proof (labelled_line_is_found "Action Input:" response Hi) as Ei.
  change (Seq (lit "Action:") _) with actionPattern in Ea.
  change (Seq (lit "Action Input:") _) with inputPattern in Ei.
  destruct (match_ flags_m actionPattern response); [|congruence].
  destruct (match_ flags_m inputPattern response); [|congruence].
  eauto.
Qed.



(** In that sample the call found is [add] with the input "2,3". *)
Example priority_sample_call :
  extractToolCall (Sample.callAdd ++ NLs ++ "Final Answer: 5")
    = Some {| tool := "add"; input := "2,3" |}.
Proof. vm_compute. reflexivity. Qed.

(** ** The dedup invariant *)

Lemma seen_snoc {World : Type} (st st' : LoopState World) (k key : string) :
  previousToolCalls st' = (previousToolCalls st ++ [k])%list ->
  seen st' key = seen st key || String.eqb key k.
Proof.
  unfold seen. intros ->. rewrite existsb_app. cbn. now rewrite orb_false_r.
Qed.

Lemma toolRuns_generate (key : string) (tr : list Event) (prompt : string)
  (r : LMResult) :
  toolRuns key (tr ++ [Generate prompt r])%list = toolRuns key tr.
Proof. rewrite toolRuns_app. cbn. lia. Qed.

Lemma toolRuns_toolRun (key : string) (tr : list Event) (name arg : string) :
  toolRuns key (tr ++ [ToolRun name arg])%list
    = toolRuns key tr + (if String.eqb (name ++ ":" ++ arg) key then 1 else 0).
Proof.
  rewrite toolRuns_app. f_equal. unfold toolRuns. cbn [filter ranWithKey].
  now destruct (String.eqb (name ++ ":" ++ arg) key).
Qed.

Lemma dedupInvariant_generate {World : Type} (st st' : LoopState World)
  (prompt : string) (r : LMResult) :
  dedupInvariant st ->
  previousToolCalls st' = previousToolCalls st ->
  trace st' = (trace st ++ [Generate prompt r])%list ->
  dedupInvariant st'.
Proof.
  intros H Hp Ht key. unfold seen. rewrite Hp, Ht, toolRuns_generate. apply H.
Qed.

Lemma iteration_dedupInvariant {World : Type} (self : RespAct World) (step : nat)
  (st : LoopState World) :
  dedupInvariant st -> dedupInvariant (stateAfter (iteration self step st)).
Proof.
  intros H.
  destruct (generate (lm self) (promptOf st) (world st)) as [[response|e] w1] eqn:Hg.
  - destruct (extractToolCall response) as [c|] eqn:Hc.
    + destruct (seen st (keyOf c)) eqn:Hs.
      * rewrite (iteration_repeated self step st response w1 c Hg Hc Hs).
        now apply (dedupInvariant_generate st _ (promptOf st) (Reply response)).
      * destruct (iteration_new_call self step st response w1 c Hg Hc Hs)
          as (obs & w2 & tr2 & He & Hi).
        rewrite Hi. cbn [stateAfter]. intros key.
        match goal with
        | |- context [seen ?s key] => rewrite (seen_snoc st s (keyOf c) key eq_refl)
        end.
        cbn [trace].
        destruct (executeTool_returns self (tool c) (input c) w1
                    (trace st ++ [Generate (promptOf st) (Reply response)])%list) as (o & w & [E|E]);
          rewrite E in He; inversion He; subst.
        -- rewrite toolRuns_generate. specialize (H key).
           destruct (seen st key); cbn; [lia|]. destruct (String.eqb key (keyOf c)); lia.
        -- rewrite toolRuns_toolRun, toolRuns_generate. fold (keyOf c).
           rewrite (String.eqb_sym (keyOf c) key).
           destruct (String.eqb_spec key (keyOf c)) as [->|Hne].
           ++ specialize (H (keyOf c)). rewrite Hs in H. rewrite Hs. cbn. lia.
           ++ specialize (H key). rewrite orb_false_r. lia.
    + unfold iteration. fold (promptOf st). rewrite Hg, Hc.
      destruct (includes (toLowerCase response) "final answer:").
      * match goal with
        | |- dedupInvariant (stateAfter (finalAnswer ?a ?b ?c ?d ?e)) =>
            destruct (finalAnswer_keeps_calls a b c d e) as [Hp Ht];
            apply (dedupInvariant_generate st _ (promptOf st) (Reply response) H Hp Ht)
        end.
      * now apply (dedupInvariant_generate st _ (promptOf st) (Reply response)).
  - unfold iteration. fold (promptOf st). rewrite Hg.
    now apply (dedupInvariant_generate st _ (promptOf st) (Rejected e)).
Qed.

Lemma loop_dedupInvariant {World : Type} (self : RespAct World) :
  forall (n step : nat) (st : LoopState World),
    dedupInvariant st -> dedupInvariant (snd (loop self n step st)).
Proof.
  induction n as [|n IH]; intros step st H.
  - exact H.
  - cbn [loop]. pose proof (iteration_dedupInvariant self step st H) as Hi.
    destruct (iteration self step st) as [st'|r st']; cbn [stateAfter] in Hi.
    + now apply IH.
    + exact Hi.
Qed.

(** C3.  Within one call of [forward] a tool function runs at most once
    for every dedup key; a call whose key is new is recorded; and a reply
    that repeats a recorded key runs no tool: the iteration appends the
    observation "You have already made this tool call. Please move to
    the next step.", makes its one model call and uses up one step of the
    budget. *)
Theorem tool_runs_at_most_once_per_key {World : Type} (self : RespAct World) :
  (forall (inputs : JSObject) (w : World) (key : string),
     toolRuns key (trace (snd (forward self inputs w))) <= 1) /\
  (forall (step : nat) (st : LoopState World) (response : string) (w1 : World)
          (c : ToolCall),
     generate (lm self) (promptOf st) (world st) = (Reply response, w1) ->
     extractToolCall response = Some c ->
     seen st (keyOf c) = false ->
     seen (stateAfter (iteration self step st)) (keyOf c) = true) /\
  (forall (n step : nat) (st : LoopState World) (response : string) (w1 : World)
          (c : ToolCall),
     generate (lm self) (promptOf st) (world st) = (Reply response, w1) ->
     extractToolCall response = Some c ->
     seen st (keyOf c) = true ->
     loop self (S n) step st
       = loop self n (S step)
           {| conversation :=
                withReply st response ++ NLs ++ NLs
                  ++ "Observation: You have already made this tool call. Please move to the next step.";
              previousToolCalls := previousToolCalls st;
              world := w1;
              trace := trace st ++ [Generate (promptOf st) (Reply response)] |}).
Proof.
  split; [|split].
  - intros inputs w key. unfold forward.
    pose proof (loop_dedupInvariant self (iterations (maxSteps self)) 0
                  {| conversation := buildInitialPrompt self inputs;
                     previousToolCalls := []; world := w; trace := [] |}) as H.
    assert (H0 : dedupInvariant
                   {| conversation := buildInitialPrompt self inputs;
                      previousToolCalls := []; world := w; trace := [] |}).
    { intros k. cbn. lia. }
    specialize (H H0 key). destruct (seen _ key); lia.
  - intros step st response w1 c Hg Hc Hs.
    destruct (iteration_new_call self step st response w1 c Hg Hc Hs)
      as (obs & w2 & tr2 & He & Hi).
    rewrite Hi. cbn [stateAfter].
    match goal with
    | |- seen ?s ?k = true => rewrite (seen_snoc st s (keyOf c) k eq_refl)
    end.
    rewrite String.eqb_refl. apply orb_true_r.
  - intros n step st response w1 c Hg Hc Hs.
    cbn [loop]. rewrite (iteration_repeated self step st response w1 c Hg Hc Hs).
    unfold repeated. reflexivity.
Qed.

Lemma tool_runs_at_most_once_per_key_witness :
  let self := new (SigString "question -> answer") (Sample.always Sample.callAdd)
                [("add", Sample.add)] (Some (integer 3)) in
  toolRuns "add:2,3" (trace (snd (forward self Sample.question 0))) <= 1 /\
  (seen (Sample.start "Question: 2+3?" []) "add:2,3" = false /\
   seen (stateAfter (iteration self 0 (Sample.start "Question: 2+3?" []))) "add:2,3"
     = true) /\
  (seen (Sample.start "Question: 2+3?" ["add:2,3"]) "add:2,3" = true /\
   loop self 2 1 (Sample.start "Question: 2+3?" ["add:2,3"])
     = loop self 1 2
         {| conversation :=
              withReply (Sample.start "Question: 2+3?" ["add:2,3"]) Sample.callAdd
                ++ NLs ++ NLs
                ++ "Observation: You have already made this tool call. Please move to the next step.";
            previousToolCalls := ["add:2,3"];
            world := 1;
            trace := [Generate (promptOf (Sample.start "Question: 2+3?" ["add:2,3"]))
                        (Reply Sample.callAdd)] |}).
Proof.
  intros self.
  destruct (tool_runs_at_most_once_per_key self) as (Once & Recorded & Repeated).
  split; [apply Once|]. split.
  - split; [reflexivity|].
    apply (Recorded 0 (Sample.start "Question: 2+3?" []) Sample.callAdd 1
             {| tool := "add"; input := "2,3" |}); vm_compute; reflexivity.
  - split; [reflexivity|].
    apply (Repeated 1 1 (Sample.start "Question: 2+3?" ["add:2,3"]) Sample.callAdd 1
             {| tool := "add"; input := "2,3" |}); vm_compute; reflexivity.
Defined.

(** The same call asked for three times runs the tool once and takes
    three steps. *)
Example add_asked_three_times :
  let self := new (SigString "question -> answer") (Sample.always Sample.callAdd)
                [("add", Sample.add)] (Some (integer 3)) in
  toolRuns "add:2,3" (trace (snd (forward self Sample.question 0))) = 1 /\
  lmCalls (trace (snd (forward self Sample.question 0))) = 3.
Proof. vm_compute. split; reflexivity. Qed.

(** ** Objects *)

Lemma lookup_define_same {A : Type} (k : string) (v : A) (o : list (string * A)) :
  lookup k (define k v o) = Some v.
Proof.
  induction o as [|[k' v'] o IH]; cbn.
  - now rewrite String.eqb_refl.
  - destruct (String.eqb k k') eqn:E; cbn; [now rewrite String.eqb_refl|].
    now rewrite E.
Qed.

Lemma lookup_define_other {A : Type} (k k' : string) (v : A) (o : list (string * A)) :
  String.eqb k' k = false -> lookup k' (define k v o) = lookup k' o.
Proof.
  intros Hne. induction o as [|[k0 v0] o IH]; cbn.
  - now rewrite Hne.
  - destruct (String.eqb k k0) eqn:E; cbn.
    + apply String.eqb_eq in E. subst k0. now rewrite Hne.
    + now rewrite IH.
Qed.

Lemma lookup_In_keys {A : Type} (k : string) (v : A) (o : list (string * A)) :
  lookup k o = Some v -> In k (keys o).
Proof.
  induction o as [|[k' v'] o IH]; cbn; [discriminate|].
  destruct (String.eqb_spec k k'); [auto|]. intros H. right. now apply IH.
Qed.

Lemma filter_all_false {A : Type} (f : A -> bool) (l : list A) :
  (forall x, In x l -> f x = false) -> filter f l = [].
Proof.
  induction l as [|x l IH]; cbn; intros H; [reflexivity|].
  rewrite (H x (or_introl eq_refl)). apply IH. intros y Hy. apply H. now right.
Qed.

Lemma filter_some_true {A : Type} (f : A -> bool) (l : list A) (x : A) :
  In x l -> f x = true -> (List.length (filter f l) =? 0) = false.
Proof.
  induction l as [|y l IH]; cbn; [tauto|]. intros [->|Hin] Hx.
  - now rewrite Hx.
  - destruct (f y); [reflexivity|]. now apply IH.
Qed.

(** ** The final-answer branch with a class-based signature *)

(** C5.  With a class-based signature, a final answer from which no
    declared field gets a non-null value neither ends nor fails the call:
    the iteration appends the observation that lists the required field
    names, and the loop goes on with the steps that are left. *)
Theorem empty_structured_answer_is_retried {World : Type} (self : RespAct World)
  (c : SignatureClass) (n step : nat) (st : LoopState World) (response : string)
  (w1 : World) (parsed : JSObject) :
  signature self = SigClass c ->
  generate (lm self) (promptOf st) (world st) = (Reply response, w1) ->
  extractToolCall response = None ->
  includes (toLowerCase response) "final answer:" = true ->
  parseOutput self (extractFinalAnswer response) = Normal parsed ->
  (forall key v, lookup key parsed = Some v -> v = JNull) ->
  loop self (S n) step st
    = loop self n (S step)
        {| conversation :=
             withReply st response ++ NLs ++ NLs
               ++ "Observation: Your Final Answer needs to include structured fields: "
               ++ join (keys (getOutputFields c)) ", "
               ++ ". Please provide a Final Answer with the required format.";
           previousToolCalls := previousToolCalls st;
           world := w1;
           trace := trace st ++ [Generate (promptOf st) (Reply response)] |}.
Proof.
  intros Hsig Hg Hc Hf Hp Hnull.
  cbn [loop]. rewrite (iteration_final_answer self step st response w1 Hg Hc Hf).
  unfold finalAnswer. rewrite Hp, Hsig.
  rewrite (filter_all_false (notNullish parsed) (keys parsed)).
  - reflexivity.
  - intros key _. unfold notNullish.
    destruct (lookup key parsed) as [v|] eqn:E; [|reflexivity].
    now rewrite (Hnull key v E).
Qed.

Lemma empty_structured_answer_is_retried_witness :
  let response := "Final Answer: I do not know" in
  let self := new (SigClass Sample.Quote) (Sample.always response)
                [("add", Sample.add)] (Some (integer 3)) in
  let st := Sample.start "Question: What is the price?" [] in
  parseOutput self (extractFinalAnswer response)
    = Normal [("symbol", JNull); ("price", JNull)] /\
  loop self 3 0 st
    = loop self 2 1
        {| conversation :=
             withReply st response ++ NLs ++ NLs
               ++ "Observation: Your Final Answer needs to include structured fields: "
               ++ "symbol, price"
               ++ ". Please provide a Final Answer with the required format.";
           previousToolCalls := [];
           world := 1;
           trace := [Generate (promptOf st) (Reply response)] |}.
Proof.
  intros response self st.
  split; [vm_compute; reflexivity|].
  apply (empty_structured_answer_is_retried self Sample.Quote 2 0 st response 1
           [("symbol", JNull); ("price", JNull)]);
    try (vm_compute; reflexivity).
  intros key v. cbn.
  destruct (String.eqb key "symbol"); [now intros [= <-]|].
  destruct (String.eqb key "price"); [now intros [= <-]|discriminate].
Defined.

Lemma spread_one {A : Type} (o : list (string * A)) (k : string) (v : A) :
  spread o [(k, v)] = define k v o.
Proof. reflexivity. Qed.

Lemma existsb_some_true {A : Type} (f : A -> bool) (l : list A) (x : A) :
  In x l -> f x = true -> existsb f l = true.
Proof. intros Hin Hx. apply existsb_exists. eauto. Qed.

Lemma keys_nonempty {A : Type} (k : string) (o : list (string * A)) :
  In k (keys o) -> (List.length (keys o) =? 0) = false.
Proof. destruct o; cbn; [tauto|reflexivity]. Qed.

Lemma filter_none_all_false {A : Type} (f : A -> bool) (l : list A) :
  (List.length (filter f l) =? 0) = true -> forall x, In x l -> f x = false.
Proof.
  induction l as [|y l IH]; cbn; [tauto|].
  destruct (f y) eqn:E; [discriminate|].
  intros H x [<-|Hx]; [exact E|now apply IH].
Qed.

(** C4, as the code has it.  With a class-based signature, a final
    answer from which at least one declared field gets a value that is
    not null ends the call in that very iteration, whichever field it is
    and however many are left without a value: the result holds the
    parsed fields (the missing ones bound to null) and the number of the
    step, and nothing is appended to the transcript after the reply.  So
    with the output fields [symbol] and [price], a value for [symbol]
    and none for [price] is accepted.  The iteration goes on with the
    corrective observation only when not a single field has a value. *)
Theorem partial_structured_answer_is_accepted {World : Type} (self : RespAct World)
  (c : SignatureClass) (n step : nat) (st : LoopState World) (response : string)
  (w1 : World) (parsed : JSObject) :
  signature self = SigClass c ->
  generate (lm self) (promptOf st) (world st) = (Reply response, w1) ->
  extractToolCall response = None ->
  includes (toLowerCase response) "final answer:" = true ->
  parseOutput self (extractFinalAnswer response) = Normal parsed ->
  (keys (getOutputFields c) = ["symbol"; "price"] ->
   forall v : JSValue,
     lookup "symbol" parsed = Some v ->
     v <> JNull ->
     lookup "price" parsed = Some JNull ->
     exists p,
       loop self (S n) step st
         = (Normal p,
            {| conversation := withReply st response;
               previousToolCalls := previousToolCalls st;
               world := w1;
               trace := trace st ++ [Generate (promptOf st) (Reply response)] |}) /\
       lookup "symbol" (_data p) = Some v /\
       lookup "price" (_data p) = Some JNull /\
       lookup "steps" (_data p) = Some (JNum (ofZ (Z.of_nat step + 1)))) /\
  (forall (key : string) (v : JSValue),
     lookup key parsed = Some v ->
     v <> JNull ->
     exists p,
       loop self (S n) step st
         = (Normal p,
            {| conversation := withReply st response;
               previousToolCalls := previousToolCalls st;
               world := w1;
               trace := trace st ++ [Generate (promptOf st) (Reply response)] |}) /\
       lookup "steps" (_data p) = Some (JNum (ofZ (Z.of_nat step + 1))) /\
       (forall (key' : string) (v' : JSValue),
          key' <> "steps" ->
          lookup key' parsed = Some v' -> lookup key' (_data p) = Some v')) /\
  (forall st' : LoopState World,
     iteration self step st = Continue st' ->
     (forall (key : string) (v : JSValue), lookup key parsed = Some v -> v = JNull) /\
     conversation st'
       = withReply st response ++ NLs ++ NLs
           ++ "Observation: Your Final Answer needs to include structured fields: "
           ++ join (keys (getOutputFields c)) ", "
           ++ ". Please provide a Final Answer with the required format.").
Proof.
  intros Hsig Hg Hc Hf Hp.
  assert (Accepted :
    forall (key : string) (v : JSValue),
      lookup key parsed = Some v ->
      v <> JNull ->
      exists p,
        loop self (S n) step st
          = (Normal p,
             {| conversation := withReply st response;
                previousToolCalls := previousToolCalls st;
                world := w1;
                trace := trace st ++ [Generate (promptOf st) (Reply response)] |}) /\
        lookup "steps" (_data p) = Some (JNum (ofZ (Z.of_nat step + 1))) /\
        (forall (key' : string) (v' : JSValue),
           key' <> "steps" ->
           lookup key' parsed = Some v' -> lookup key' (_data p) = Some v')).
  { intros key v Hkey Hv.
    assert (Hin : In key (keys parsed)) by exact (lookup_In_keys _ _ _ Hkey).
    assert (Hnn : notNullish parsed key = true).
    { unfold notNullish. rewrite Hkey. now destruct v. }
    cbn [loop]. rewrite (iteration_final_answer self step st response w1 Hg Hc Hf).
    unfold finalAnswer. rewrite Hp, Hsig.
    rewrite (filter_some_true _ _ _ Hin Hnn).
    rewrite (existsb_some_true _ _ _ Hin Hnn), (keys_nonempty _ _ Hin).
    cbn [negb orb].
    destruct (negb (hasProperty "answer" parsed) && negb (isNull (extractFinalAnswer response)))
      eqn:Ha;
      eexists; (split; [reflexivity|]); cbn [_data]; rewrite !spread_one;
      (split; [apply lookup_define_same|]);
      intros key' v' Hne Hk';
      rewrite lookup_define_other by (now apply String.eqb_neq); [|exact Hk'].
    destruct (String.eqb_spec key' "answer") as [->|Hna].
    - apply andb_true_iff in Ha. destruct Ha as [Ha _].
      apply negb_true_iff in Ha. unfold hasProperty, hasOwn in Ha.
      rewrite Hk' in Ha. discriminate Ha.
    - rewrite lookup_define_other by (now apply String.eqb_neq). exact Hk'. }
  split; [|split].
  - intros _ v Hsym Hv Hprice.
    destruct (Accepted "symbol" v Hsym Hv) as (p & Hloop & Hsteps & Hkeep).
    exists p. repeat split; auto; apply Hkeep; auto; discriminate.
  - exact Accepted.
  - intros st'. rewrite (iteration_final_answer self step st response w1 Hg Hc Hf).
    unfold finalAnswer. rewrite Hp, Hsig.
    destruct (List.length (filter (notNullish parsed) (keys parsed)) =? 0) eqn:Hnone;
      [|discriminate].
    intros [= <-]. cbn [conversation]. split; [|reflexivity].
    intros key v Hkey.
    pose proof (filter_none_all_false _ _ Hnone key (lookup_In_keys _ _ _ Hkey)) as Hnull.
    unfold notNullish in Hnull. rewrite Hkey in Hnull. now destruct v.
Qed.

Lemma partial_structured_answer_is_accepted_witness :
  let response := "Final Answer: symbol: AAPL" in
  let self := new (SigClass Sample.Quote) (Sample.always response)
                [("add", Sample.add)] (Some (integer 3)) in
  let st := Sample.start "Question: What is the price?" [] in
  parseOutput self (extractFinalAnswer response)
    = Normal [("symbol", JStr "AAPL"); ("price", JNull)] /\
  exists p,
    loop self 3 0 st
      = (Normal p,
         {| conversation := withReply st response;
            previousToolCalls := [];
            world := 1;
            trace := [Generate (promptOf st) (Reply response)] |}) /\
    lookup "symbol" (_data p) = Some (JStr "AAPL") /\
    lookup "price" (_data p) = Some JNull /\
    lookup "steps" (_data p) = Some (JNum (ofZ 1)).
Proof.
  intros response self st.
  split; [vm_compute; reflexivity|].
  apply (proj1 (partial_structured_answer_is_accepted self Sample.Quote 2 0 st response 1
                  [("symbol", JStr "AAPL"); ("price", JNull)]
                  eq_refl eq_refl eq_refl eq_refl eq_refl)
           eq_refl (JStr "AAPL")).
  - reflexivity.
  - discriminate.
  - reflexivity.
Defined.

(** C4, as the claim has it, fails: the first final answer gives
    [symbol] and no [price], and [forward] returns in that first
    iteration, after one model call, with no observation appended. *)
Lemma partial_structured_answer_counterexample :
  let response := "Final Answer: symbol: AAPL" in
  let self := new (SigClass Sample.Quote) (Sample.scripted [response])
                [("add", Sample.add)] (Some (integer 3)) in
  parseOutput self (extractFinalAnswer response)
    = Normal [("symbol", JStr "AAPL"); ("price", JNull)] /\
  fst (forward self Sample.question 0)
    = Normal {| _data := [("symbol", JStr "AAPL"); ("price", JNull);
                          ("answer", JStr "symbol: AAPL"); ("steps", JNum (ofZ 1))] |} /\
  lmCalls (trace (snd (forward self Sample.question 0))) = 1 /\
  includes (conversation (snd (forward self Sample.question 0))) "Observation:" = false.
Proof. vm_compute. repeat split; reflexivity. Qed.

(** ** Tool failures *)

Lemma hasTool_lookup {World : Type} (toolName : string)
  (o : list (string * ToolWithDescription World)) (t : ToolWithDescription World) :
  lookup toolName o = Some t -> hasTool toolName o = true.
Proof. intros H. unfold hasTool, hasProperty, hasOwn. now rewrite H. Qed.

(** C8, as the code has it.  When the tool function throws, the
    iteration appends an entry to the transcript and the loop goes on
    with the next step: the failure does not end the call.  The entry is
    "Observation: Error executing <tool>: <error text>" when the
    template literal of [executeTool] makes a text of what was thrown;
    it is "Observation: Error - <error text>" only when that template
    literal throws in its turn (for a thrown Symbol, say), and then the
    text is that of the error of the conversion. *)
Theorem tool_failure_becomes_observation {World : Type} (self : RespAct World)
  (n step : nat) (st : LoopState World) (response : string) (w1 w2 : World)
  (c : ToolCall) (t : ToolWithDescription World) :
  generate (lm self) (promptOf st) (world st) = (Reply response, w1) ->
  extractToolCall response = Some c ->
  seen st (keyOf c) = false ->
  lookup (tool c) (tools self) = Some t ->
  (forall err : string,
     function t (input c) w1 = (Threw err, w2) ->
     loop self (S n) step st
       = loop self n (S step)
           {| conversation :=
                withReply st response ++ NLs ++ NLs
                  ++ "Observation: Error executing " ++ tool c ++ ": " ++ err;
              previousToolCalls := previousToolCalls st ++ [keyOf c];
              world := w2;
              trace := (trace st ++ [Generate (promptOf st) (Reply response)])
                         ++ [ToolRun (tool c) (input c)] |}) /\
  (forall raised : JSError,
     function t (input c) w1 = (ThrewUnprintable raised, w2) ->
     loop self (S n) step st
       = loop self n (S step)
           {| conversation :=
                withReply st response ++ NLs ++ NLs
                  ++ "Observation: Error - " ++ errorText raised;
              previousToolCalls := previousToolCalls st ++ [keyOf c];
              world := w2;
              trace := (trace st ++ [Generate (promptOf st) (Reply response)])
                         ++ [ToolRun (tool c) (input c)] |}).
Proof.
  intros Hg Hc Hs Ht.
  split; intros x Hf;
    cbn [loop]; unfold iteration; fold (promptOf st); rewrite Hg, Hc;
    fold (keyOf c); fold (seen st (keyOf c)); rewrite Hs;
    unfold executeTool; rewrite (hasTool_lookup _ _ _ Ht), Ht, Hf; reflexivity.
Qed.

Lemma tool_failure_becomes_observation_witness :
  let failing := new (SigString "question -> answer") (Sample.always Sample.callFailing)
                   [("failingTool", Sample.failingTool)] (Some (integer 2)) in
  let st := Sample.start "Question: What is the price?" [] in
  loop failing 2 0 st
    = loop failing 1 1
        {| conversation :=
             withReply st Sample.callFailing ++ NLs ++ NLs
               ++ "Observation: Error executing failingTool: Error: Tool failed";
           previousToolCalls := ["failingTool:x"];
           world := 1;
           trace := [Generate (promptOf st) (Reply Sample.callFailing);
                     ToolRun "failingTool" "x"] |} /\
  let symbol := new (SigString "question -> answer") (Sample.always Sample.callFailing)
                  [("failingTool", Sample.symbolTool)] (Some (integer 2)) in
  loop symbol 2 0 st
    = loop symbol 1 1
        {| conversation :=
             withReply st Sample.callFailing ++ NLs ++ NLs
               ++ "Observation: Error - TypeError: Cannot convert a Symbol value to a string";
           previousToolCalls := ["failingTool:x"];
           world := 1;
           trace := [Generate (promptOf st) (Reply Sample.callFailing);
                     ToolRun "failingTool" "x"] |}.
Proof.
  intros failing st. split; [|intros symbol].
  - apply (proj1 (tool_failure_becomes_observation failing 1 0 st Sample.callFailing 1 1
                    {| tool := "failingTool"; input := "x" |}
                    {| description := "A tool that fails";
                       function := fun _ w => (Threw "Error: Tool failed", w) |}
                    eq_refl eq_refl eq_refl eq_refl)
             "Error: Tool failed").
    reflexivity.
  - apply (proj2 (tool_failure_becomes_observation symbol 1 0 st Sample.callFailing 1 1
                    {| tool := "failingTool"; input := "x" |}
                    {| description := "A tool that throws a Symbol";
                       function := fun _ w =>
                         (ThrewUnprintable
                            (mkError "TypeError" "Cannot convert a Symbol value to a string"),
                          w) |}
                    eq_refl eq_refl eq_refl eq_refl)
             (mkError "TypeError" "Cannot convert a Symbol value to a string")).
    reflexivity.
Defined.

(** C8, as the claim has it, fails on the wording of the entry: the
    failing tool leaves "Error executing failingTool: ..." in the
    transcript, and no "Observation: Error - ..." entry. *)
Lemma tool_failure_counterexample :
  let self := new (SigString "question -> answer") (Sample.scripted [Sample.callFailing])
                [("failingTool", Sample.failingTool)] (Some (integer 1)) in
  let final := conversation (snd (forward self Sample.question 0)) in
  trace (snd (forward self Sample.question 0))
    = [Generate (buildInitialPrompt self Sample.question ++ NLs ++ NLs ++ "Thought:")
         (Reply Sample.callFailing);
       ToolRun "failingTool" "x"] /\
  endsWith final
    (NLs ++ NLs ++ "Observation: Error executing failingTool: Error: Tool failed") = true /\
  includes final "Observation: Error - " = false.
Proof. vm_compute. repeat split; reflexivity. Qed.

(** ** Splitting at the arrow *)

Lemma append_empty_r (s : string) : s ++ EmptyString = s.
Proof. induction s as [|c s IH]; cbn; [reflexivity|now rewrite IH]. Qed.

Lemma append_assoc (a b c : string) : (a ++ b) ++ c = a ++ (b ++ c).
Proof. induction a as [|x a IH]; cbn; [reflexivity|now rewrite IH]. Qed.

Lemma split_go_not_empty (sep : string) (s : string) :
  forall (skip : nat) (cur : string),
    exists a l, split_go sep skip cur s = a :: l.
Proof.
  induction s as [|c s IH]; intros skip cur; cbn [split_go]; [eauto|].
  destruct skip; [|apply IH].
  destruct (startsWith (String c s) sep); [eauto|apply IH].
Qed.

Lemma split_go_without (sep : string) (s : string) :
  forall cur : string,
    includes s sep = false -> split_go sep 0 cur s = [cur ++ s].
Proof.
  induction s as [|c s IH]; intros cur H.
  - cbn. now rewrite append_empty_r.
  - cbn [includes] in H. apply orb_false_iff in H. destruct H as [H1 H2].
    cbn [split_go]. rewrite H1, (IH _ H2), append_assoc. reflexivity.
Qed.

Lemma split_go_with (sep : string) (s : string) :
  sep <> EmptyString ->
  forall cur : string,
    includes s sep = true -> exists a b l, split_go sep 0 cur s = a :: b :: l.
Proof.
  intros Hsep. induction s as [|c s IH]; intros cur H.
  - destruct sep; [congruence|discriminate].
  - cbn [includes] in H. cbn [split_go].
    destruct (startsWith (String c s) sep).
    + destruct (split_go_not_empty sep s (String.length sep - 1) EmptyString)
        as (a & l & E). rewrite E. eauto.
    + apply IH. exact H.
Qed.

Lemma split_go_arrow (p q : string) :
  forall cur : string,
    includes p "->" = false ->
    split_go "->" 0 cur (p ++ "->" ++ q) = (cur ++ p) :: split_go "->" 0 EmptyString q.
Proof.
  induction p as [|c p IH]; intros cur H.
  - cbn. now rewrite append_empty_r.
  - cbn [includes] in H. apply orb_false_iff in H. destruct H as [H1 H2].
    change (String c p ++ "->" ++ q) with (String c (p ++ "->" ++ q)).
    cbn [split_go].
    assert (E : startsWith (String c (p ++ "->" ++ q)) "->" = false).
    { destruct p as [|d p]; [|exact H1].
      cbn. now rewrite andb_false_r. }
    rewrite E, (IH _ H2), append_assoc. reflexivity.
Qed.

(** C9, as the code has it.  A signature string without "->" makes
    [parseStringSignature] throw (the TypeError of splitting the missing
    output part); a string with at least one "->" always yields a
    signature, and what follows a second "->" is dropped without any
    error. *)
Theorem parseStringSignature_arrows :
  (forall s, includes s "->" = false ->
             Signature.parseStringSignature s = Throw Signature.undefinedSplit) /\
  (forall s, includes s "->" = true ->
             exists sig, Signature.parseStringSignature s = Normal sig) /\
  (forall p0 p1 more,
     includes p0 "->" = false ->
     includes p1 "->" = false ->
     Signature.parseStringSignature (p0 ++ "->" ++ p1 ++ "->" ++ more)
       = Signature.parseStringSignature (p0 ++ "->" ++ p1)).
Proof.
  unfold Signature.parseStringSignature, split. repeat split.
  - intros s H. now rewrite (split_go_without "->" s EmptyString H).
  - intros s H.
    destruct (split_go_with "->" s ltac:(discriminate) EmptyString H) as (a & b & l & E).
    rewrite E. cbn [map]. eauto.
  - intros p0 p1 more H0 H1.
    rewrite (split_go_arrow p0 (p1 ++ "->" ++ more) EmptyString H0).
    rewrite (split_go_arrow p1 more EmptyString H1).
    rewrite (split_go_arrow p0 p1 EmptyString H0).
    rewrite (split_go_without "->" p1 EmptyString H1).
    reflexivity.
Qed.

Lemma parseStringSignature_arrows_witness :
  Signature.parseStringSignature "question" = Throw Signature.undefinedSplit /\
  (exists sig, Signature.parseStringSignature "question -> answer" = Normal sig) /\
  Signature.parseStringSignature ("a " ++ "->" ++ " b " ++ "->" ++ " c")
    = Signature.parseStringSignature ("a " ++ "->" ++ " b ").
Proof.
  destruct parseStringSignature_arrows as (Missing & Present & Dropped).
  split; [|split].
  - apply (Missing "question"). reflexivity.
  - apply (Present "question -> answer"). reflexivity.
  - apply (Dropped "a " " b " " c"); reflexivity.
Defined.

(** C9, as the claim has it, fails for a second arrow: no error is
    reported, the signature of the first two parts comes back. *)
Lemma second_arrow_counterexample :
  Signature.parseStringSignature "a -> b -> c"
    = Normal {| inputs := ["a"]; outputs := ["b"];
                types := [("a", "string"); ("b", "string")] |}.
Proof. vm_compute. reflexivity. Qed.



(** ** A pattern matches only where the field name stands *)

Lemma rmatch_lit (fl : flags) (name : string) :
  ignoreCase fl = true ->
  forall (k : mstate -> option mstate) (st st' : mstate),
    rmatch fl (lit name) k st = Some st' -> startsWithAnyCase (rest st) name = true.
Proof.
  intros Hi. induction name as [|c name IH]; intros k st st' H; [reflexivity|].
  cbn [lit] in H. rewrite rmatch_Seq in H. cbn [rmatch] in H.
  unfold consume in H. destruct (rest st) as [|d s]; [discriminate|].
  unfold canon_eq in H. rewrite Hi in H. cbn [startsWithAnyCase].
  destruct (Ascii.eqb (upperChar c) (upperChar d)); [|discriminate].
  apply IH in H. exact H.
Qed.

Lemma rmatch_WordB (fl : flags) (r : regex) (k : mstate -> option mstate)
  (st st' : mstate) :
  rmatch fl (Seq WordB r) k st = Some st' -> rmatch fl r k st = Some st'.
Proof.
  rewrite rmatch_Seq. cbn [rmatch].
  now destruct (xorb (isWordOpt (prev st)) (isWordOpt (next st))).
Qed.

Lemma pattern_needs_name (name : string) (p : flags * regex) :
  In p (Parsing.patterns name) ->
  forall (k : mstate -> option mstate) (st st' : mstate),
    rmatch (fst p) (snd p) k st = Some st' -> startsWithAnyCase (rest st) name = true.
Proof.
  unfold Parsing.patterns. intros Hin k st st' H.
  repeat (destruct Hin as [<-|Hin]); try contradiction; cbn [fst snd] in H;
    try apply rmatch_WordB in H;
    rewrite rmatch_Seq in H; apply rmatch_lit in H; auto.
Qed.

Lemma search_without_name (fl : flags) (r : regex) (name : string) :
  (forall k st st', rmatch fl r k st = Some st' ->
                    startsWithAnyCase (rest st) name = true) ->
  forall (s : string) (p : option ascii) (i : nat),
    mentions s name = false -> search fl r p s i = None.
Proof.
  intros Hneeds. induction s as [|c s IH]; intros p i Hm;
    cbn [mentions] in Hm; apply orb_false_iff in Hm; destruct Hm as [H1 H2];
    cbn [search]; unfold match_at;
    destruct (rmatch fl r Some {| prev := p; rest := _; cap := None |}) as [st'|] eqn:E;
    try (apply Hneeds in E; cbn [rest] in E; congruence); auto.
Qed.

Lemma firstPattern_without_name (text name : string) :
  mentions text name = false ->
  Parsing.firstPattern text (Parsing.patterns name) = None.
Proof.
  intros Hm.
  assert (H : forall ps, (forall p, In p ps -> In p (Parsing.patterns name)) ->
                         Parsing.firstPattern text ps = None).
  { induction ps as [|p ps IH]; intros Hsub; [reflexivity|].
    cbn [Parsing.firstPattern]. unfold Parsing.tryPattern, match_.
    rewrite (search_without_name (fst p) (snd p) name
               (pattern_needs_name name p (Hsub p (or_introl eq_refl))) text None 0 Hm).
    apply IH. intros q Hq. apply Hsub. now right. }
  apply H. auto.
Qed.

(** C7, as the code has it.  The whole reply is taken as the value only
    for the field called [answer] (whatever else the signature
    declares): without colon and line feed in the text, its trimmed and
    cleaned form, if not empty, is coerced and returned.  For a field of
    another (ordinary) name the label has to stand in the text: where it
    does not, the value is null. *)
Theorem whole_reply_is_taken_for_answer_only (text : string) (type : option string) :
  (includes text ":" = false ->
   includes text NLs = false ->
   truthy (cleaned (trim text)) = true ->
   Parsing.extractFieldValue text "answer" type
     = Parsing.convertValue (cleaned (trim text)) type) /\
  (forall name : string,
     name <> "answer" ->
     literalName name = true ->
     mentions text name = false ->
     Parsing.extractFieldValue text name type = JNull).
Proof.
  split.
  - intros Hc Hn Hv. unfold Parsing.extractFieldValue, Parsing.simpleAnswer.
    rewrite Hc, Hn. cbn [String.eqb negb andb].
    change (String.eqb "answer" "answer") with true. cbn [andb].
    fold (cleaned (trim text)). now rewrite Hv.
  - intros name Hne _ Hm. unfold Parsing.extractFieldValue, Parsing.simpleAnswer.
    apply String.eqb_neq in Hne. rewrite Hne. cbn [andb].
    now rewrite (firstPattern_without_name text name Hm).
Qed.

Lemma whole_reply_is_taken_for_answer_only_witness :
  Parsing.extractFieldValue " **Paris** " "answer" (Some "string") = JStr "Paris" /\
  Parsing.extractFieldValue " **Paris** " "result" (Some "string") = JNull.
Proof.
  destruct (whole_reply_is_taken_for_answer_only " **Paris** " (Some "string"))
    as (Answer & Other).
  split.
  - apply Answer; vm_compute; reflexivity.
  - apply (Other "result"); [discriminate|reflexivity|vm_compute; reflexivity].
Defined.

(** C7, as the claim has it, fails: [result] is the only output field
    and the reply has neither colon nor line break, yet the field is
    bound to null and not to the reply. *)
Lemma sole_field_counterexample :
  declaredOutputs (SigString "question -> result") = Normal ["result"] /\
  includes "Paris" ":" = false /\
  includes "Paris" NLs = false /\
  Parsing.parseOutput (SigString "question -> result") "Paris"
    = Normal [("result", JNull)].
Proof. vm_compute. repeat split; reflexivity. Qed.

(** ** Filling the result object *)

Lemma keys_define {A : Type} (k k' : string) (v : A) (o : list (string * A)) :
  In k' (keys (define k v o)) <-> k' = k \/ In k' (keys o).
Proof.
  induction o as [|[k0 v0] o IH]; cbn.
  - intuition congruence.
  - destruct (String.eqb_spec k k0) as [->|Hne]; cbn.
    + intuition congruence.
    + rewrite IH. intuition congruence.
Qed.

Lemma NoDup_keys_define {A : Type} (k : string) (v : A) (o : list (string * A)) :
  NoDup (keys o) -> NoDup (keys (define k v o)).
Proof.
  induction o as [|[k0 v0] o IH]; cbn; intros H.
  - constructor; [tauto|constructor].
  - inversion H as [|x l Hnotin Hnodup]; subst.
    destruct (String.eqb_spec k k0) as [->|Hne]; cbn.
    + now constructor.
    + constructor; [|now apply IH].
      intros Hin. apply (keys_define k k0 v o) in Hin. intuition congruence.
Qed.

Lemma In_keys_lookup {A : Type} (k : string) (o : list (string * A)) :
  In k (keys o) -> exists v, lookup k o = Some v.
Proof.
  induction o as [|[k0 v0] o IH]; cbn; [tauto|].
  destruct (String.eqb_spec k k0); [eauto|]. intros [E|H]; [congruence|auto].
Qed.

Lemma fill_keys {X A : Type} (kf : X -> string) (vf : X -> A) (l : list X) :
  forall (acc : list (string * A)) (k : string),
    In k (keys (fold_left (fill kf vf) l acc)) <->
    In k (keys acc) \/ (k <> "__proto__" /\ In k (map kf l)).
Proof.
  induction l as [|x l IH]; intros acc k; cbn [fold_left map In].
  - tauto.
  - rewrite IH. unfold fill, assign.
    destruct (String.eqb_spec (kf x) "__proto__") as [E|E]; cbv iota.
    + intuition congruence.
    + rewrite keys_define. intuition congruence.
Qed.

Lemma fill_NoDup {X A : Type} (kf : X -> string) (vf : X -> A) (l : list X) :
  forall acc : list (string * A),
    NoDup (keys acc) -> NoDup (keys (fold_left (fill kf vf) l acc)).
Proof.
  induction l as [|x l IH]; intros acc H; cbn [fold_left]; [exact H|].
  apply IH. unfold fill, assign.
  destruct (String.eqb (kf x) "__proto__"); [exact H|now apply NoDup_keys_define].
Qed.

Lemma fill_lookup_untouched {X A : Type} (kf : X -> string) (vf : X -> A) 
  (l : list X) (k : string) :
  ~ In k (map kf l) ->
  forall acc : list (string * A),
    lookup k (fold_left (fill kf vf) l acc) = lookup k acc.
Proof.
  induction l as [|x l IH]; intros Hnot acc; cbn [fold_left]; [reflexivity|].
  cbn [map In] in Hnot. rewrite IH by tauto. unfold fill, assign.
  destruct (String.eqb (kf x) "__proto__"); [reflexivity|].
  apply lookup_define_other. apply String.eqb_neq. intuition congruence.
Qed.

Lemma fill_lookup {X A : Type} (kf : X -> string) (vf : X -> A) 
  (l : list X) (k : string) (v : A) :
  k <> "__proto__" ->
  (forall x, In x l -> kf x = k -> vf x = v) ->
  In k (map kf l) ->
  forall acc : list (string * A),
    lookup k (fold_left (fill kf vf) l acc) = Some v.
Proof.
  intros Hk. induction l as [|x l IH]; intros Hv Hin acc; [contradiction|].
  cbn [fold_left].
  destruct (in_dec string_dec k (map kf l)) as [Hl|Hl].
  - apply IH; [|exact Hl]. intros y Hy. apply Hv. now right.
  - rewrite (fill_lookup_untouched kf vf l k Hl).
    destruct Hin as [E|Hin]; [|contradiction].
    unfold fill, assign. rewrite E.
    apply String.eqb_neq in Hk. rewrite Hk.
    rewrite <- (Hv x (or_introl eq_refl) E). apply lookup_define_same.
Qed.


Lemma extractFieldValue_unmatched (text name : string) (type : option string) :
  noStrategyMatched text name -> Parsing.extractFieldValue text name type = JNull.
Proof. intros [H1 H2]. unfold Parsing.extractFieldValue. now rewrite H1, H2. Qed.

(** X29.  For a signature whose output field names are ordinary names
    (characters that stand for themselves in a pattern, and not the name
    [__proto__]), [parseOutput] returns, for every text, an object whose
    keys are exactly the declared output names, with null for every
    field that no strategy matched. *)
Theorem parseOutput_binds_every_ordinary_field
  (sig : SignatureT) (text : string) (names : list string) :
  declaredOutputs sig = Normal names ->
  Forall (fun name => literalName name = true /\ name <> "__proto__") names ->
  exists result : JSObject,
    Parsing.parseOutput sig text = Normal result /\
    NoDup (keys result) /\
    (forall k, In k (keys result) <-> In k names) /\
    (forall k, In k names -> noStrategyMatched text k -> lookup k result = Some JNull).
Proof.
  intros Hdecl Hnames.
  assert (Hproto : forall k, In k names -> k <> "__proto__").
  { intros k Hk. rewrite Forall_forall in Hnames. apply (Hnames k Hk). }
  destruct sig as [s|c]; cbn [declaredOutputs] in Hdecl;
    cbn [Parsing.parseOutput]; unfold Parsing.parseOutputFromString,
      Parsing.parseOutputFromClass.
  - destruct (Signature.parseStringSignature s) as [parsed|e]; [|discriminate].
    injection Hdecl as <-.
    exists (fold_left
              (fill (fun outputKey : string => outputKey)
                 (fun outputKey =>
                    Parsing.extractFieldValue text outputKey
                      (lookup outputKey (types parsed))))
              (outputs parsed) []).
    split; [reflexivity|]. split; [|split].
    + apply fill_NoDup. constructor.
    + intros k. rewrite fill_keys, map_id. cbn.
      specialize (Hproto k). tauto.
    + intros k Hk Hno. apply fill_lookup.
      * now apply Hproto.
      * intros x _ ->. now apply extractFieldValue_unmatched.
      * now rewrite map_id.
  - injection Hdecl as <-.
    exists (fold_left
              (fill (fun entry : string * FieldConfig => fst entry)
                 (fun entry =>
                    Parsing.extractFieldValue text (fst entry) (fc_type (snd entry))))
              (getOutputFields c) []).
    split; [reflexivity|]. split; [|split].
    + apply fill_NoDup. constructor.
    + intros k. rewrite fill_keys. cbn.
      specialize (Hproto k). unfold keys in *. tauto.
    + intros k Hk Hno. apply fill_lookup.
      * now apply Hproto.
      * intros x _ <-. now apply extractFieldValue_unmatched.
      * exact Hk.
Qed.

Lemma parseOutput_binds_every_ordinary_field_witness :
  declaredOutputs (SigString "question -> answer, confidence: float")
    = Normal ["answer"; "confidence"] /\
  exists result : JSObject,
    Parsing.parseOutput (SigString "question -> answer, confidence: float")
      "answer: Paris" = Normal result /\
    NoDup (keys result) /\
    (forall k, In k (keys result) <-> In k ["answer"; "confidence"]) /\
    (forall k, In k ["answer"; "confidence"] ->
               noStrategyMatched "answer: Paris" k -> lookup k result = Some JNull).
Proof.
  split; [vm_compute; reflexivity|].
  apply (parseOutput_binds_every_ordinary_field
           (SigString "question -> answer, confidence: float") "answer: Paris"
           ["answer"; "confidence"]).
  - vm_compute. reflexivity.
  - repeat constructor; try (vm_compute; reflexivity); discriminate.
Defined.

(** In that sample no strategy matches [confidence], which is bound to
    null. *)
Example confidence_is_null :
  noStrategyMatched "answer: Paris" "confidence" /\
  Parsing.parseOutput (SigString "question -> answer, confidence: float") "answer: Paris"
    = Normal [("answer", JStr "Paris"); ("confidence", JNull)].
Proof. vm_compute. repeat split; reflexivity. Qed.

(** C6.  The code at the output field [__proto__], under a signature
    string and under a signature class: a value is found for the field,
    but the assignment [result[outputKey] = value] reaches the inherited
    setter and defines no key, so that the declared name is missing from
    the keys of the result, against "Always set the field, even if
    null". *)
Theorem parseOutput_omits_proto_field :
  let c := {| sc_description := None;
              getInputFields := [("question", Sample.field "string")];
              getOutputFields := [("__proto__", Sample.field "string")] |} in
  (declaredOutputs (SigString "question -> __proto__") = Normal ["__proto__"] /\
   Parsing.extractFieldValue "__proto__: 42" "__proto__" (Some "string") = JStr "42" /\
   Parsing.parseOutput (SigString "question -> __proto__") "__proto__: 42" = Normal []) /\
  (declaredOutputs (SigClass c) = Normal ["__proto__"] /\
   Parsing.parseOutput (SigClass c) "__proto__: 42" = Normal []) /\
  ~ In "__proto__" (keys (@nil (string * JSValue))).
Proof.
  split; [|split].
  - vm_compute. repeat split; reflexivity.
  - vm_compute. split; reflexivity.
  - intros [].
Qed.

Lemma executeTool_cases {World : Type} (self : RespAct World)
  (toolName input : string) (w : World) (tr : list Event) :
  (exists observation,
     executeTool self toolName input w tr = (Normal observation, w, tr)) \/
  (exists r w' t,
     lookup toolName (tools self) = Some t /\
     executeTool self toolName input w tr
       = (r, w', (tr ++ [ToolRun toolName input])%list)).
Proof.
  unfold executeTool.
  destruct (negb (hasTool toolName (tools self))).
  - eauto.
  - destruct (lookup toolName (tools self)) as [t|] eqn:Ht.
    + right. destruct (function t input w) as [[text|text|raised] w']; eauto.
    + eauto.
Qed.

(** What one iteration adds to the trace and to the transcript. *)
Lemma iteration_record {World : Type} (self : RespAct World) (step : nat)
  (st : LoopState World) :
  let r := fst (generate (lm self) (promptOf st) (world st)) in
  let st' := stateAfter (iteration self step st) in
  (trace st' = (trace st ++ [Generate (promptOf st) r])%list \/
   exists response c t,
     r = Reply response /\ extractToolCall response = Some c /\
     lookup (tool c) (tools self) = Some t /\
     iteration self step st = Continue st' /\
     trace st' = (trace st ++ [Generate (promptOf st) r; ToolRun (tool c) (input c)])%list) /\
  match r with
  | Reply response =>
      exists more, conversation st' = withReply st response ++ more
  | Rejected e =>
      iteration self step st = Finish (Throw e) st' /\ conversation st' = conversation st
  end.
Proof.
  intros r st'. subst r st'.
  destruct (generate (lm self) (promptOf st) (world st)) as [[response|e] w1] eqn:Hg;
    cbn [fst].
  - destruct (extractToolCall response) as [c|] eqn:Hc.
    + destruct (seen st (keyOf c)) eqn:Hs.
      * rewrite (iteration_repeated self step st response w1 c Hg Hc Hs).
        cbn [stateAfter trace conversation]. split; [now left|eauto].
      * unfold iteration. fold (promptOf st). rewrite Hg, Hc.
        fold (keyOf c). fold (seen st (keyOf c)). rewrite Hs.
        destruct (executeTool_cases self (tool c) (input c) w1
                    (trace st ++ [Generate (promptOf st) (Reply response)])%list)
          as [(obs & E)|(r & w2 & t & Ht & E)]; rewrite E;
          cbn [stateAfter trace conversation].
        -- split; [now left|].
           exists (NLs ++ NLs ++ "Observation: " ++ obs). unfold withReply.
           now rewrite !append_assoc.
        -- destruct r as [obs|error]; cbn [stateAfter trace conversation]; split.
           ++ right. exists response, c, t. rewrite <- app_assoc. cbn [app].
              repeat split; auto.
           ++ exists (NLs ++ NLs ++ "Observation: " ++ obs). unfold withReply.
              now rewrite !append_assoc.
           ++ right. exists response, c, t. rewrite <- app_assoc. cbn [app].
              repeat split; auto.
           ++ exists (NLs ++ NLs ++ "Observation: Error - " ++ errorText error).
              unfold withReply. now rewrite !append_assoc.
    + destruct (includes (toLowerCase response) "final answer:") eqn:Hf.
      * rewrite (iteration_final_answer self step st response w1 Hg Hc Hf).
        unfold finalAnswer.
        match goal with
        | |- context [match ?x with Some _ => _ | None => _ end] => destruct x
        end; cbn [stateAfter trace conversation].
        -- split; [now left|eauto].
        -- split; [now left|]. exists EmptyString. now rewrite append_empty_r.
      * rewrite (iteration_no_marker self step st response w1 Hg Hc Hf).
        cbn [stateAfter trace conversation]. split; [now left|].
        exists EmptyString. now rewrite append_empty_r.
  - rewrite (iteration_rejected self step st e w1 Hg).
    cbn [stateAfter trace conversation]. split; [now left|]. split; reflexivity.
Qed.

Lemma snoc_split {A : Type} (l1 : list A) :
  forall (l l2 : list A) (x y : A),
    (l ++ [x] = l1 ++ y :: l2)%list ->
    (l2 = [] /\ l = l1 /\ x = y) \/
    exists l2', l2 = (l2' ++ [x])%list /\ l = (l1 ++ y :: l2')%list.
Proof.
  induction l1 as [|b l1 IH]; intros l l2 x y E.
  - destruct l as [|a l]; cbn in E; injection E as -> E.
    + left. auto.
    + right. exists l. auto.
  - destruct l as [|a l]; cbn in E; injection E as -> E.
    + destruct l1; discriminate.
    + destruct (IH l l2 x y E) as [(-> & -> & ->)|(l2' & -> & ->)].
      * left. auto.
      * right. exists l2'. auto.
Qed.

Lemma toolCount_app (a b : list Event) :
  toolCount (a ++ b)%list = toolCount a + toolCount b.
Proof. unfold toolCount. now rewrite filter_app, length_app. Qed.

(** ** The budget of a run *)

Lemma loop_budget {World : Type} (self : RespAct World) :
  forall (n step : nat) (st : LoopState World),
    let tr := trace (snd (loop self n step st)) in
    lmCalls tr <= lmCalls (trace st) + n /\
    toolCount tr + lmCalls (trace st) <= toolCount (trace st) + lmCalls tr.
Proof.
  induction n as [|n IH]; intros step st; cbn zeta.
  - cbn. lia.
  - cbn [loop].
    destruct (iteration_record self step st) as [Ht _].
    assert (Hst : lmCalls (trace (stateAfter (iteration self step st)))
                    = S (lmCalls (trace st)) /\
                  toolCount (trace (stateAfter (iteration self step st)))
                    <= S (toolCount (trace st))).
    { destruct Ht as [E|(response & c & t & _ & _ & _ & _ & E)]; rewrite E;
        rewrite lmCalls_app, toolCount_app; unfold lmCalls, toolCount;
        cbn [filter isGenerate negb List.length]; lia. }
    destruct (iteration self step st) as [st'|r st']; cbn [stateAfter] in Hst.
    + specialize (IH (S step) st'). cbn zeta in IH. lia.
    + cbn [snd]. lia.
Qed.

(** X1.  [forward] calls the model only as long as the number of calls
    already made is below [maxSteps]: fewer than [maxSteps + 1] times in
    all (at most [maxSteps] times when that is an integer, and not at all
    when it is negative).  It runs a tool at most once per model call. *)
Theorem forward_stays_within_budget {World : Type} (self : RespAct World)
  (inputs : JSObject) (w : World) :
  let tr := trace (snd (forward self inputs w)) in
  (forall k, k < lmCalls tr -> below k (maxSteps self) = true) /\
  (negative (maxSteps self) = true -> lmCalls tr = 0) /\
  (forall n : Z, maxSteps self = integer n -> (0 <= n)%Z -> (Z.of_nat (lmCalls tr) <= n)%Z) /\
  toolCount tr <= lmCalls tr.
Proof.
  cbn zeta. unfold forward.
  pose proof (loop_budget self (iterations (maxSteps self)) 0
                {| conversation := buildInitialPrompt self inputs;
                   previousToolCalls := []; world := w; trace := [] |}) as H.
  cbn zeta in H. cbn [trace] in H.
  change (lmCalls []) with 0 in H. change (toolCount []) with 0 in H.
  split; [|split; [|split]].
  - intros k Hk. apply iterations_below. lia.
  - intros Hneg. unfold iterations in H |- *. rewrite Hneg in H |- *. cbn [loop snd trace]. reflexivity.
  - intros n Hn Hpos. rewrite Hn, iterations_integer in H |- *. lia.
  - lia.
Qed.

(** ** A successful run *)

Lemma iteration_finishes {World : Type} (self : RespAct World) (step : nat)
  (st st' : LoopState World) (p : Prediction) :
  iteration self step st = Finish (Normal p) st' ->
  exists response,
    trace st' = (trace st ++ [Generate (promptOf st) (Reply response)])%list /\
    extractToolCall response = None /\
    includes (toLowerCase response) "final answer:" = true /\
    lookup "steps" (_data p) = Some (JNum (ofZ (Z.of_nat step + 1))).
Proof.
  destruct (generate (lm self) (promptOf st) (world st)) as [[response|e] w1] eqn:Hg.
  - destruct (extractToolCall response) as [c|] eqn:Hc.
    + destruct (seen st (keyOf c)) eqn:Hs.
      * rewrite (iteration_repeated self step st response w1 c Hg Hc Hs). discriminate.
      * destruct (iteration_new_call self step st response w1 c Hg Hc Hs)
          as (obs & w2 & tr2 & _ & Hi). rewrite Hi. discriminate.
    + destruct (includes (toLowerCase response) "final answer:") eqn:Hf.
      * rewrite (iteration_final_answer self step st response w1 Hg Hc Hf).
        unfold finalAnswer.
        match goal with
        | |- context [match ?x with Some _ => _ | None => _ end] => destruct x
        end; [discriminate|].
        intros [= <- <-]. exists response. cbn [trace _data].
        repeat split; auto.
        apply lookup_define_same.
      * rewrite (iteration_no_marker self step st response w1 Hg Hc Hf). discriminate.
  - rewrite (iteration_rejected self step st e w1 Hg). discriminate.
Qed.

Lemma loop_finishes {World : Type} (self : RespAct World) :
  forall (n step : nat) (st : LoopState World) (p : Prediction),
    fst (loop self n step st) = Normal p ->
    exists (k : nat) (tr : list Event) (prompt response : string),
      1 <= k <= n /\
      trace (snd (loop self n step st)) = (tr ++ [Generate prompt (Reply response)])%list /\
      lmCalls (trace (snd (loop self n step st))) = lmCalls (trace st) + k /\
      extractToolCall response = None /\
      includes (toLowerCase response) "final answer:" = true /\
      lookup "steps" (_data p) = Some (JNum (ofZ (Z.of_nat (step + k)))).
Proof.
  induction n as [|n IH]; intros step st p.
  - cbn. discriminate.
  - cbn [loop]. destruct (iteration self step st) as [st'|r st'] eqn:Hi.
    + intros H. destruct (IH (S step) st' p H)
        as (k & tr & prompt & response & Hk & Ht & Hc & Hx & Hf & Hs).
      exists (S k), tr, prompt, response.
      destruct (iteration_record self step st) as [Hrec _].
      rewrite Hi in Hrec. cbn [stateAfter] in Hrec.
      assert (Hcalls : lmCalls (trace st') = S (lmCalls (trace st))).
      { destruct Hrec as [E|(r0 & c & t & _ & _ & _ & _ & E)]; rewrite E;
          rewrite lmCalls_app; unfold lmCalls; cbn [filter isGenerate List.length]; lia. }
      repeat split; auto; try lia.
      replace (step + S k) with (S step + k) by lia. exact Hs.
    + cbn [fst snd]. intros ->.
      destruct (iteration_finishes self step st st' p Hi) as (response & Ht & Hx & Hf & Hs).
      exists 1, (trace st), (promptOf st), response.
      repeat split; auto; try lia.
      * rewrite Ht, lmCalls_generate. lia.
      * rewrite Hs. do 3 f_equal. lia.
Qed.

(** X2.  When [forward] returns a prediction, its [steps] field is the
    number of calls made to the model.  That number is at least 1, and
    the one before it is below [maxSteps]: [steps - 1 < maxSteps], so
    [steps] is at most [maxSteps] when that is an integer. *)
Theorem steps_is_the_number_of_model_calls {World : Type} (self : RespAct World)
  (inputs : JSObject) (w : World) (p : Prediction) :
  fst (forward self inputs w) = Normal p ->
  let calls := lmCalls (trace (snd (forward self inputs w))) in
  lookup "steps" (_data p) = Some (JNum (ofZ (Z.of_nat calls))) /\
  1 <= calls /\
  below (calls - 1) (maxSteps self) = true /\
  (forall n : Z, maxSteps self = integer n -> (Z.of_nat calls <= n)%Z).
Proof.
  unfold forward. intros H. cbn zeta.
  destruct (loop_finishes self _ 0 _ p H)
    as (k & tr & prompt & response & Hk & _ & Hc & _ & _ & Hs).
  cbn [trace] in Hc. rewrite Hc. cbn [lmCalls filter List.length Nat.add].
  split; [exact Hs|]. split; [lia|]. split.
  - apply iterations_below. lia.
  - intros n Hn. rewrite Hn, iterations_integer in Hk. lia.
Qed.

Lemma steps_is_the_number_of_model_calls_witness :
  let self := new (SigString "question -> answer")
                (Sample.scripted [Sample.callAdd; "Final Answer: 5"])
                [("add", Sample.add)] (Some (integer 3)) in
  let p := {| _data := [("answer", JStr "5"); ("steps", JNum (ofZ 2))] |} in
  fst (forward self Sample.question 0) = Normal p /\
  lmCalls (trace (snd (forward self Sample.question 0))) = 2 /\
  let calls := lmCalls (trace (snd (forward self Sample.question 0))) in
  lookup "steps" (_data p) = Some (JNum (ofZ (Z.of_nat calls))) /\
  1 <= calls /\
  below (calls - 1) (maxSteps self) = true /\
  (forall n : Z, maxSteps self = integer n -> (Z.of_nat calls <= n)%Z).
Proof.
  intros self p.
  split; [vm_compute; reflexivity|]. split; [vm_compute; reflexivity|].
  apply (steps_is_the_number_of_model_calls self Sample.question 0 p).
  vm_compute; reflexivity.
Defined.

(** X3.  [forward] returns a prediction only on a reply of the model that
    holds "final answer:" (in any letter case) and no tool call; that
    reply is the last thing the run does. *)
Theorem success_needs_a_final_answer {World : Type} (self : RespAct World)
  (inputs : JSObject) (w : World) (p : Prediction) :
  fst (forward self inputs w) = Normal p ->
  exists (tr : list Event) (prompt response : string),
    trace (snd (forward self inputs w)) = (tr ++ [Generate prompt (Reply response)])%list /\
    extractToolCall response = None /\
    includes (toLowerCase response) "final answer:" = true.
Proof.
  unfold forward. intros H.
  destruct (loop_finishes self _ 0 _ p H)
    as (k & tr & prompt & response & _ & Ht & _ & Hx & Hf & _).
  exists tr, prompt, response. auto.
Qed.

Lemma success_needs_a_final_answer_witness :
  let self := new (SigString "question -> answer")
                (Sample.scripted [Sample.callAdd; "Final Answer: 5"])
                [("add", Sample.add)] (Some (integer 3)) in
  fst (forward self Sample.question 0)
    = Normal {| _data := [("answer", JStr "5"); ("steps", JNum (ofZ 2))] |} /\
  exists (tr : list Event) (prompt response : string),
    trace (snd (forward self Sample.question 0))
      = (tr ++ [Generate prompt (Reply response)])%list /\
    extractToolCall response = None /\
    includes (toLowerCase response) "final answer:" = true.
Proof.
  intros self.
  split; [vm_compute; reflexivity|].
  apply (success_needs_a_final_answer self Sample.question 0
           {| _data := [("answer", JStr "5"); ("steps", JNum (ofZ 2))] |}).
  vm_compute; reflexivity.
Defined.

(** ** Tools run on request only *)

Lemma loop_recorded {World : Type} (self : RespAct World) :
  forall (n step : nat) (st : LoopState World),
    Recorded self (trace st) -> Recorded self (trace (snd (loop self n step st))).
Proof.
  induction n as [|n IH]; intros step st H; [exact H|].
  cbn [loop].
  assert (H' : Recorded self (trace (stateAfter (iteration self step st)))).
  { destruct (iteration_record self step st) as [[E|(response & c & t & Er & Hc & Ht & _ & E)] _];
      rewrite E.
    - now apply recorded_call.
    - rewrite Er. now apply (recorded_tool self _ _ _ c t). }
  destruct (iteration self step st) as [st'|r st']; cbn [stateAfter] in H'.
  - now apply IH.
  - exact H'.
Qed.

Lemma recorded_tool_run {World : Type} (self : RespAct World) (tr : list Event) :
  Recorded self tr ->
  forall (tr1 tr2 : list Event) (name arg : string),
    tr = (tr1 ++ ToolRun name arg :: tr2)%list ->
    exists tr0 prompt response t,
      tr1 = (tr0 ++ [Generate prompt (Reply response)])%list /\
      extractToolCall response = Some {| tool := name; input := arg |} /\
      lookup name (tools self) = Some t.
Proof.
  induction 1 as [|tr prompt r H IH|tr prompt response c t H IH Hc Ht];
    intros tr1 tr2 name arg E.
  - destruct tr1; discriminate.
  - destruct (snoc_split tr1 tr tr2 _ _ E) as [(_ & _ & [=])|(l2 & _ & E')].
    now apply (IH tr1 l2).
  - change (tr ++ [Generate prompt (Reply response); ToolRun (tool c) (input c)])%list
      with (tr ++ [Generate prompt (Reply response)] ++ [ToolRun (tool c) (input c)])%list in E.
    rewrite app_assoc in E.
    destruct (snoc_split tr1 _ tr2 _ _ E) as [(_ & E1 & [= <- <-])|(l2 & _ & E')].
    + exists tr, prompt, response, t. destruct c. auto.
    + destruct (snoc_split tr1 tr l2 _ _ E') as [(_ & _ & [=])|(l3 & _ & E'')].
      now apply (IH tr1 l3).
Qed.

(** X4.  A tool function runs only on request: every run of a tool in a
    call of [forward] comes right after the model call whose reply holds
    that tool call, for a tool that is registered under the name found in
    the reply, with the input found there. *)
Theorem tools_run_on_request_only {World : Type} (self : RespAct World)
  (inputs : JSObject) (w : World) (tr1 tr2 : list Event) (name arg : string) :
  trace (snd (forward self inputs w)) = (tr1 ++ ToolRun name arg :: tr2)%list ->
  exists tr0 prompt response t,
    tr1 = (tr0 ++ [Generate prompt (Reply response)])%list /\
    extractToolCall response = Some {| tool := name; input := arg |} /\
    lookup name (tools self) = Some t.
Proof.
  apply recorded_tool_run. unfold forward. apply loop_recorded. constructor.
Qed.

Lemma tools_run_on_request_only_witness :
  let self := new (SigString "question -> answer")
                (Sample.scripted [Sample.callAdd; "Final Answer: 5"])
                [("add", Sample.add)] (Some (integer 3)) in
  let tr := trace (snd (forward self Sample.question 0)) in
  tr = (firstn 1 tr ++ ToolRun "add" "2,3" :: skipn 2 tr)%list /\
  exists tr0 prompt response t,
    firstn 1 tr = (tr0 ++ [Generate prompt (Reply response)])%list /\
    extractToolCall response = Some {| tool := "add"; input := "2,3" |} /\
    lookup "add" (tools self) = Some t.
Proof.
  intros self tr.
  split; [vm_compute; reflexivity|].
  apply (tools_run_on_request_only self Sample.question 0
           (firstn 1 tr) (skipn 2 tr) "add" "2,3").
  vm_compute; reflexivity.
Defined.

(** ** A rejected model call *)

Lemma loop_rejection {World : Type} (self : RespAct World) :
  forall (n step : nat) (st : LoopState World),
    forallb (fun e => negb (isRejection e)) (trace st) = true ->
    forallb (fun e => negb (isRejection e)) (trace (snd (loop self n step st))) = true \/
    exists tr prompt e,
      trace (snd (loop self n step st)) = (tr ++ [Generate prompt (Rejected e)])%list /\
      forallb (fun e => negb (isRejection e)) tr = true /\
      fst (loop self n step st) = Throw e.
Proof.
  induction n as [|n IH]; intros step st H; [now left|].
  cbn [loop].
  destruct (iteration_record self step st) as [Ht Hr].
  destruct (fst (generate (lm self) (promptOf st) (world st))) as [response|e].
  - assert (H' : forallb (fun e => negb (isRejection e))
                   (trace (stateAfter (iteration self step st))) = true).
    { destruct Ht as [E|(r0 & c & t & _ & _ & _ & _ & E)]; rewrite E, forallb_app, H;
        reflexivity. }
    destruct (iteration self step st) as [st'|r st']; cbn [stateAfter] in H'.
    + now apply IH.
    + now left.
  - destruct Hr as [Hi _]. rewrite Hi. cbn [fst snd].
    destruct Ht as [E|(r0 & c & t & [=] & _)].
    right. exists (trace st), (promptOf st), e. auto.
Qed.

(** X5.  A model call that is rejected ends [forward] at once: it is the
    last call the run makes, and [forward] throws the error of the
    rejection as it is. *)
Theorem rejected_model_call_ends_forward {World : Type} (self : RespAct World)
  (inputs : JSObject) (w : World) (tr1 tr2 : list Event) (prompt : string)
  (e : JSError) :
  trace (snd (forward self inputs w)) = (tr1 ++ Generate prompt (Rejected e) :: tr2)%list ->
  tr2 = [] /\ fst (forward self inputs w) = Throw e.
Proof.
  unfold forward. intros E.
  destruct (loop_rejection self (iterations (maxSteps self)) 0
              {| conversation := buildInitialPrompt self inputs;
                 previousToolCalls := []; world := w; trace := [] |} eq_refl)
    as [H|(tr & prompt' & e' & Ht & Hfree & Hthrow)].
  - rewrite E, forallb_app in H. cbn in H. now rewrite andb_false_r in H.
  - rewrite Ht in E.
    destruct (snoc_split tr1 tr tr2 _ _ E) as [(-> & _ & [= _ ->])|(l2 & _ & ->)].
    + auto.
    + rewrite forallb_app in Hfree. cbn in Hfree. now rewrite andb_false_r in Hfree.
Qed.

Lemma rejected_model_call_ends_forward_witness :
  let self := new (SigString "question -> answer")
                (Sample.scripted [Sample.callAdd])
                [("add", Sample.add)] (Some (integer 3)) in
  let tr := trace (snd (forward self Sample.question 0)) in
  let e := mkError "Error" "No more mock responses available" in
  (exists prompt,
     tr = (firstn 2 tr ++ Generate prompt (Rejected e) :: [])%list) /\
  fst (forward self Sample.question 0) = Throw e.
Proof.
  intros self tr e.
  assert (H : exists prompt,
            tr = (firstn 2 tr ++ Generate prompt (Rejected e) :: [])%list).
  { eexists. vm_compute. reflexivity. }
  split; [exact H|].
  destruct H as [prompt H].
  exact (proj2 (rejected_model_call_ends_forward self Sample.question 0
                  (firstn 2 tr) [] prompt e H)).
Defined.

(** ** The transcript only grows *)

Lemma startsWith_app (a b : string) : startsWith (a ++ b) a = true.
Proof.
  induction a as [|c a IH]; cbn; [reflexivity|]. now rewrite Ascii.eqb_refl.
Qed.

Lemma startsWith_trans (c : string) :
  forall a b : string,
    startsWith a b = true -> startsWith b c = true -> startsWith a c = true.
Proof.
  induction c as [|z c IH]; intros a b Hab Hbc; [reflexivity|].
  destruct b as [|y b]; [discriminate|]. destruct a as [|x a]; [discriminate|].
  cbn in *. apply andb_true_iff in Hab. destruct Hab as [E1 Hab].
  apply andb_true_iff in Hbc. destruct Hbc as [E2 Hbc].
  apply Ascii.eqb_eq in E1. apply Ascii.eqb_eq in E2. subst.
  rewrite Ascii.eqb_refl. cbn. now apply (IH a b).
Qed.

Lemma startsWith_more (a b more : string) :
  startsWith a b = true -> startsWith (a ++ more) b = true.
Proof. intros H. apply (startsWith_trans b (a ++ more) a); [apply startsWith_app|exact H]. Qed.

Lemma prompt_after_reply {World : Type} (st : LoopState World) (response : string) :
  promptOf st ++ " " ++ response = withReply st response.
Proof. unfold promptOf, withReply. now rewrite !append_assoc. Qed.


Lemma grown_call (initial conv conv' : string) (tr : list Event) (r : LMResult) :
  grown initial conv tr ->
  startsWith conv' conv = true ->
  (forall response, r = Reply response ->
     startsWith conv' ((conv ++ NLs ++ NLs ++ "Thought:") ++ " " ++ response) = true) ->
  grown initial conv' (tr ++ [Generate (conv ++ NLs ++ NLs ++ "Thought:") r]).
Proof.
  intros (Hinit & Hprompts & Hreplies & Hchain) Hext Hnew.
  split; [|split; [|split]].
  - now apply (startsWith_trans initial conv' conv).
  - intros prompt r0 Hin. apply in_app_or in Hin. destruct Hin as [Hin|[[= <- <-]|[]]].
    + now apply (Hprompts prompt r0).
    + now apply startsWith_more.
  - intros prompt response Hin. apply in_app_or in Hin.
    destruct Hin as [Hin|[[= <- Er]|[]]].
    + apply (startsWith_trans _ conv' conv); [exact Hext|now apply Hreplies].
    + now apply Hnew.
  - intros tr1 p1 r1 tr2 p2 r2 tr3 E.
    change (tr1 ++ Generate p1 (Reply r1) :: tr2 ++ Generate p2 r2 :: tr3)%list
      with (tr1 ++ (Generate p1 (Reply r1) :: tr2) ++ Generate p2 r2 :: tr3)%list in E.
    rewrite app_assoc in E.
    destruct (snoc_split _ _ _ _ _ E) as [(_ & -> & [= <- <-])|(l & _ & ->)].
    + apply startsWith_more. apply Hreplies. apply in_or_app. right. now left.
    + apply (Hchain tr1 p1 r1 tr2 p2 r2 l). now rewrite <- app_assoc.
Qed.

Lemma grown_tool (initial conv : string) (tr : list Event) (name arg : string) :
  grown initial conv tr -> grown initial conv (tr ++ [ToolRun name arg]).
Proof.
  intros (Hinit & Hprompts & Hreplies & Hchain).
  split; [exact Hinit|split; [|split]].
  - intros prompt r0 Hin. apply in_app_or in Hin. destruct Hin as [Hin|[[=]|[]]].
    now apply (Hprompts prompt r0).
  - intros prompt response Hin. apply in_app_or in Hin. destruct Hin as [Hin|[[=]|[]]].
    now apply Hreplies.
  - intros tr1 p1 r1 tr2 p2 r2 tr3 E.
    change (tr1 ++ Generate p1 (Reply r1) :: tr2 ++ Generate p2 r2 :: tr3)%list
      with (tr1 ++ (Generate p1 (Reply r1) :: tr2) ++ Generate p2 r2 :: tr3)%list in E.
    rewrite app_assoc in E.
    destruct (snoc_split _ _ _ _ _ E) as [(_ & _ & [=])|(l & _ & ->)].
    apply (Hchain tr1 p1 r1 tr2 p2 r2 l). now rewrite <- app_assoc.
Qed.

Lemma iteration_grown {World : Type} (self : RespAct World) (step : nat)
  (st : LoopState World) (initial : string) :
  grown initial (conversation st) (trace st) ->
  grown initial (conversation (stateAfter (iteration self step st)))
    (trace (stateAfter (iteration self step st))).
Proof.
  intros H.
  destruct (iteration_record self step st) as [Ht Hr].
  assert (Hcall : grown initial (conversation (stateAfter (iteration self step st)))
                    (trace st ++ [Generate (promptOf st)
                                    (fst (generate (lm self) (promptOf st) (world st)))])).
  { apply grown_call; [exact H| |].
    - destruct (fst (generate (lm self) (promptOf st) (world st))) as [response|e].
      + destruct Hr as (more & ->). unfold withReply.
        rewrite append_assoc. apply startsWith_app.
      + destruct Hr as (_ & ->). rewrite <- (append_empty_r (conversation st)) at 1.
        apply startsWith_app.
    - intros response Er. rewrite Er in Hr. destruct Hr as (more & ->).
      fold (promptOf st). rewrite prompt_after_reply. apply startsWith_app. }
  destruct Ht as [E|(response & c & t & _ & _ & _ & _ & E)]; rewrite E.
  - exact Hcall.
  - change (trace st ++ [?g; ?t])%list with (trace st ++ [g] ++ [t])%list.
    rewrite app_assoc. now apply grown_tool.
Qed.

Lemma loop_grown {World : Type} (self : RespAct World) (initial : string) :
  forall (n step : nat) (st : LoopState World),
    grown initial (conversation st) (trace st) ->
    grown initial (conversation (snd (loop self n step st)))
      (trace (snd (loop self n step st))).
Proof.
  induction n as [|n IH]; intros step st H; [exact H|].
  cbn [loop]. pose proof (iteration_grown self step st initial H) as H'.
  destruct (iteration self step st) as [st'|r st']; cbn [stateAfter] in H'.
  - now apply IH.
  - exact H'.
Qed.

(** X6.  The transcript only grows.  Every prompt that [forward] sends
    to the model begins with the initial prompt, and a later prompt
    begins with every earlier prompt followed by a space and the reply
    the model gave to it: nothing that was said is changed or left out. *)
Theorem transcript_only_grows {World : Type} (self : RespAct World)
  (inputs : JSObject) (w : World) :
  let tr := trace (snd (forward self inputs w)) in
  (forall prompt r,
     In (Generate prompt r) tr ->
     startsWith prompt (buildInitialPrompt self inputs) = true) /\
  (forall tr1 p1 r1 tr2 p2 r2 tr3,
     tr = (tr1 ++ Generate p1 (Reply r1) :: tr2 ++ Generate p2 r2 :: tr3)%list ->
     startsWith p2 (p1 ++ " " ++ r1) = true).
Proof.
  cbn zeta. unfold forward.
  destruct (loop_grown self (buildInitialPrompt self inputs) (iterations (maxSteps self)) 0
              {| conversation := buildInitialPrompt self inputs;
                 previousToolCalls := []; world := w; trace := [] |})
    as (_ & Hprompts & _ & Hchain).
  - split; [|split; [|split]].
    + cbn [conversation]. rewrite <- (append_empty_r (buildInitialPrompt self inputs)) at 1.
      apply startsWith_app.
    + intros prompt r [].
    + intros prompt response [].
    + intros tr1 p1 r1 tr2 p2 r2 tr3 E. destruct tr1; discriminate.
  - split; [exact Hprompts|exact Hchain].
Qed.

Lemma transcript_only_grows_witness :
  let self := new (SigString "question -> answer")
                (Sample.scripted [Sample.callAdd; "Final Answer: 5"])
                [("add", Sample.add)] (Some (integer 3)) in
  let tr := trace (snd (forward self Sample.question 0)) in
  exists p1 r1 p2 r2,
    tr = [Generate p1 (Reply r1); ToolRun "add" "2,3"; Generate p2 r2] /\
    startsWith p2 (p1 ++ " " ++ r1) = true.
Proof.
  intros self tr.
  assert (H : exists p1 r1 p2 r2,
            tr = [Generate p1 (Reply r1); ToolRun "add" "2,3"; Generate p2 r2]).
  { do 4 eexists. vm_compute. reflexivity. }
  destruct H as (p1 & r1 & p2 & r2 & H).
  exists p1, r1, p2, r2. split; [exact H|].
  exact (proj2 (transcript_only_grows self Sample.question 0)
           [] p1 r1 [ToolRun "add" "2,3"] p2 r2 [] H).
Defined.

(** ** Strings *)

Lemma length_append (a b : string) :
  String.length (a ++ b) = String.length a + String.length b.
Proof. induction a as [|c a IH]; cbn; [reflexivity|now rewrite IH]. Qed.

Lemma rev_onto_spec (s : string) :
  forall acc : string, rev_onto s acc = reverse s ++ acc.
Proof.
  unfold reverse. induction s as [|c s IH]; intros acc; cbn [rev_onto]; [reflexivity|].
  rewrite (IH (String c acc)), (IH (String c EmptyString)), append_assoc. reflexivity.
Qed.

Lemma reverse_cons (c : ascii) (s : string) :
  reverse (String c s) = reverse s ++ String c EmptyString.
Proof. unfold reverse at 1. cbn [rev_onto]. apply rev_onto_spec. Qed.

Lemma reverse_append (a b : string) : reverse (a ++ b) = reverse b ++ reverse a.
Proof.
  induction a as [|c a IH]; cbn [append].
  - now rewrite append_empty_r.
  - now rewrite !reverse_cons, IH, append_assoc.
Qed.

Lemma reverse_involutive (s : string) : reverse (reverse s) = s.
Proof.
  induction s as [|c s IH]; [reflexivity|].
  now rewrite reverse_cons, reverse_append, IH.
Qed.

Lemma trimStart_fixed (s : string) : noLeadingSpace s = true -> trimStart s = s.
Proof. destruct s as [|c s]; cbn; [reflexivity|]. now destruct (isWhiteSpace c). Qed.

Lemma trimStart_noLeadingSpace (s : string) : noLeadingSpace (trimStart s) = true.
Proof.
  induction s as [|c s IH]; cbn; [reflexivity|].
  destruct (isWhiteSpace c) eqn:E; [exact IH|]. cbn. now rewrite E.
Qed.

Lemma trimStart_append (a : string) (c : ascii) (b : string) :
  isWhiteSpace c = false ->
  trimStart (a ++ String c b) = trimStart a ++ String c b.
Proof.
  intros Hc. induction a as [|x a IH]; cbn.
  - now rewrite Hc.
  - now destruct (isWhiteSpace x).
Qed.

Lemma trimEnd_fixed (s : string) :
  noLeadingSpace (reverse s) = true -> trimEnd s = s.
Proof. intros H. unfold trimEnd. now rewrite (trimStart_fixed _ H), reverse_involutive. Qed.

Lemma trimEnd_keeps_start (s : string) :
  noLeadingSpace s = true -> noLeadingSpace (trimEnd s) = true.
Proof.
  destruct s as [|c s]; [reflexivity|]. cbn [noLeadingSpace]. intros Hc.
  apply negb_true_iff in Hc.
  unfold trimEnd. rewrite reverse_cons, (trimStart_append _ c EmptyString Hc).
  rewrite reverse_append. cbn. now rewrite Hc.
Qed.

Lemma trim_noLeadingSpace (s : string) : noLeadingSpace (trim s) = true.
Proof. unfold trim. apply trimEnd_keeps_start, trimStart_noLeadingSpace. Qed.

Lemma trim_noTrailingSpace (s : string) : noLeadingSpace (reverse (trim s)) = true.
Proof.
  unfold trim, trimEnd. rewrite reverse_involutive. apply trimStart_noLeadingSpace.
Qed.

Lemma trim_fixed (s : string) :
  noLeadingSpace s = true -> noLeadingSpace (reverse s) = true -> trim s = s.
Proof. intros H1 H2. unfold trim. now rewrite (trimStart_fixed s H1), (trimEnd_fixed s H2). Qed.

Lemma trim_idempotent (s : string) : trim (trim s) = trim s.
Proof. apply trim_fixed; [apply trim_noLeadingSpace|apply trim_noTrailingSpace]. Qed.

Lemma allChars_append (p : ascii -> bool) (a b : string) :
  allChars p (a ++ b) = allChars p a && allChars p b.
Proof. induction a as [|c a IH]; cbn; [reflexivity|]. now rewrite IH, andb_assoc. Qed.

Lemma allChars_reverse (p : ascii -> bool) (s : string) :
  allChars p (reverse s) = allChars p s.
Proof.
  induction s as [|c s IH]; [reflexivity|].
  rewrite reverse_cons, allChars_append, IH. cbn. now rewrite andb_true_r, andb_comm.
Qed.

Lemma allChars_trimStart (p : ascii -> bool) (s : string) :
  allChars p s = true -> allChars p (trimStart s) = true.
Proof.
  induction s as [|c s IH]; cbn; [auto|]. intros H. apply andb_true_iff in H.
  destruct H as [H1 H2]. destruct (isWhiteSpace c); [auto|]. cbn. now rewrite H1, H2.
Qed.

Lemma allChars_trim (p : ascii -> bool) (s : string) :
  allChars p s = true -> allChars p (trim s) = true.
Proof.
  intros H. unfold trim, trimEnd. rewrite allChars_reverse.
  apply allChars_trimStart. rewrite allChars_reverse. now apply allChars_trimStart.
Qed.

Lemma includes_append_r (a b sub : string) :
  includes b sub = true -> includes (a ++ b) sub = true.
Proof.
  intros H. induction a as [|c a IH]; cbn [append]; [exact H|].
  cbn [includes]. rewrite IH. apply orb_true_r.
Qed.

Lemma includes_starts (s sub : string) : startsWith s sub = true -> includes s sub = true.
Proof. intros H. destruct s; cbn [includes]; now rewrite H. Qed.

Lemma includes_middle (a b c : string) : includes (a ++ b ++ c) b = true.
Proof. apply includes_append_r, includes_starts, startsWith_app. Qed.

Lemma allChars_no_char (p : ascii -> bool) (c : ascii) (s : string) :
  p c = false -> allChars p s = true -> includes s (String c EmptyString) = false.
Proof.
  intros Hc. induction s as [|d s IH]; cbn; [reflexivity|]. intros H.
  apply andb_true_iff in H. destruct H as [Hd Hs]. rewrite (IH Hs), orb_false_r.
  destruct (Ascii.eqb_spec c d) as [->|]; [congruence|reflexivity].
Qed.

(** ** What a pattern captures *)

Lemma canon_eq_refl (fl : flags) (a : ascii) : canon_eq fl a a = true.
Proof. unfold canon_eq. destruct (ignoreCase fl); apply Ascii.eqb_refl. Qed.

Lemma rmatch_lit_same (fl : flags) (label : string) :
  forall (s : string) (k : mstate -> option mstate) (st : mstate),
    rest st = label ++ s ->
    exists p, rmatch fl (lit label) k st = k {| prev := p; rest := s; cap := cap st |}.
Proof.
  induction label as [|a label IH]; intros s k st Hr.
  - exists (prev st). cbn in Hr. cbn [lit rmatch]. rewrite <- Hr. now rewrite <- mstate_eta.
  - cbn [lit]. rewrite rmatch_Seq. cbn [rmatch]. unfold consume. rewrite Hr.
    change (String a label ++ s) with (String a (label ++ s)). cbv iota.
    rewrite canon_eq_refl.
    destruct (IH s k {| prev := Some a; rest := label ++ s; cap := cap st |} eq_refl)
      as (p & E).
    exists p. exact E.
Qed.

Lemma rmatch_lit_needs (fl : flags) (label : string) :
  ignoreCase fl = false ->
  forall (k : mstate -> option mstate) (st st' : mstate),
    rmatch fl (lit label) k st = Some st' -> startsWith (rest st) label = true.
Proof.
  intros Hi. induction label as [|c label IH]; intros k st st' H; [reflexivity|].
  cbn [lit] in H. rewrite rmatch_Seq in H. cbn [rmatch] in H.
  unfold consume in H. destruct (rest st) as [|d s]; [discriminate|].
  unfold canon_eq in H. rewrite Hi in H. cbn [startsWith].
  destruct (Ascii.eqb c d); [|discriminate].
  apply IH in H. exact H.
Qed.

Lemma space_found (fl : flags) (c : ascii) :
  set_found fl [CSpace] c = isWhiteSpace c.
Proof.
  unfold set_found. destruct (ignoreCase fl); cbn [set_has existsb citem_has];
    rewrite ?orb_false_r; [|reflexivity].
  destruct c as [[] [] [] [] [] [] [] []]; reflexivity.
Qed.

Lemma greedy_spaces_exact (fl : flags) (k : mstate -> option mstate) (s : string) :
  noLeadingSpace s = true ->
  forall (gap : string) (fuel : nat) (st : mstate),
    allWhiteSpace gap = true ->
    rest st = gap ++ s ->
    String.length (rest st) < fuel ->
    (forall p, k {| prev := p; rest := s; cap := cap st |} <> None) ->
    exists p,
      repeat_ (rmatch fl Parsing.space) true k fuel st
        = k {| prev := p; rest := s; cap := cap st |}.
Proof.
  intros Hs. induction gap as [|g gap IH]; intros fuel st Hw Hr Hf Hk;
    (destruct fuel as [|fuel]; [lia|]); cbn [repeat_].
  - exists (prev st). rewrite rmatch_space. unfold consume. rewrite Hr. cbn [append].
    assert (E : match s with
                | String c s' =>
                    if xorb false (set_found fl [CSpace] c)
                    then (fun st1 : mstate =>
                            if String.length (rest st1) <? String.length s
                            then repeat_ (rmatch fl Parsing.space) true k fuel st1 else None)
                           {| prev := Some c; rest := s'; cap := cap st |}
                    else None
                | EmptyString => None
                end = None).
    { destruct s as [|c s']; [reflexivity|]. rewrite space_found.
      cbn [noLeadingSpace] in Hs. apply negb_true_iff in Hs. now rewrite Hs. }
    rewrite E. rewrite (mstate_eta st) at 1. now rewrite Hr.
  - cbn [allWhiteSpace] in Hw. apply andb_true_iff in Hw. destruct Hw as [Hg Hw].
    rewrite rmatch_space. unfold consume. rewrite Hr.
    change (String g gap ++ s) with (String g (gap ++ s)). cbv iota.
    rewrite space_found, Hg. cbn [rest String.length xorb].
    rewrite (proj2 (Nat.ltb_lt _ _) (Nat.lt_succ_diag_r _)).
    destruct (IH fuel {| prev := Some g; rest := gap ++ s; cap := cap st |} Hw eq_refl)
      as (p & E).
    + rewrite Hr in Hf. cbn in Hf |- *. lia.
    + exact Hk.
    + exists p. rewrite E. cbn [cap]. specialize (Hk p).
      destruct (k {| prev := p; rest := s; cap := cap st |}); congruence.
Qed.

Lemma lazy_dots_exact (fl : flags) (K : mstate -> option mstate) (tail : string) :
  forall (T : string) (fuel : nat) (st : mstate),
    rest st = T ++ tail ->
    allChars (fun c => dotAll fl || negb (isLineTerminator c)) T = true ->
    String.length (rest st) < fuel ->
    (forall a b p, T = a ++ b -> b <> EmptyString ->
                   K {| prev := p; rest := b ++ tail; cap := cap st |} = None) ->
    (forall p, K {| prev := p; rest := tail; cap := cap st |} <> None) ->
    exists p,
      repeat_ (rmatch fl Dot) false K fuel st
        = K {| prev := p; rest := tail; cap := cap st |}.
Proof.
  induction T as [|c T IH]; intros fuel st Hr Hok Hf Hmid Hend;
    (destruct fuel as [|fuel]; [lia|]); cbn [repeat_].
  - exists (prev st). cbn [append] in Hr.
    assert (E : st = {| prev := prev st; rest := tail; cap := cap st |})
      by (rewrite <- Hr; apply mstate_eta).
    rewrite <- E. specialize (Hend (prev st)). rewrite <- E in Hend.
    destruct (K st); congruence.
  - assert (E : st = {| prev := prev st; rest := String c T ++ tail; cap := cap st |})
      by (rewrite <- Hr; apply mstate_eta).
    pose proof (Hmid EmptyString (String c T) (prev st) eq_refl ltac:(discriminate)) as H0.
    rewrite <- E in H0. rewrite H0.
    rewrite rmatch_Dot. unfold consume. rewrite Hr.
    change (String c T ++ tail) with (String c (T ++ tail)). cbv iota.
    cbn [allChars] in Hok. apply andb_true_iff in Hok. destruct Hok as [Hc Hok].
    rewrite Hc. cbn [rest String.length].
    rewrite (proj2 (Nat.ltb_lt _ _) (Nat.lt_succ_diag_r _)).
    apply (IH fuel {| prev := Some c; rest := T ++ tail; cap := cap st |});
      [reflexivity|exact Hok| |..].
    + rewrite Hr in Hf. cbn in Hf |- *. lia.
    + intros a b p Ea Hb. cbn [cap]. apply (Hmid (String c a) b p); [|exact Hb].
      cbn. now rewrite Ea.
    + exact Hend.
Qed.

Lemma take_append (a b : string) : take (String.length a) (a ++ b) = a.
Proof. induction a as [|c a IH]; cbn; [now destruct b|now rewrite IH]. Qed.

(** A group of lazily repeated dots in front of a continuation that
    holds at the end of the value and nowhere inside it captures the
    value. *)
Lemma lazy_group_captures (fl : flags) (k0 : mstate -> option mstate)
  (value tail : string) (st : mstate) :
  rest st = value ++ tail ->
  value <> EmptyString ->
  allChars (fun c => dotAll fl || negb (isLineTerminator c)) value = true ->
  (forall a b p cp, value = a ++ b -> b <> EmptyString ->
                    k0 {| prev := p; rest := b ++ tail; cap := cp |} = None) ->
  (forall p cp, k0 {| prev := p; rest := tail; cap := cp |} <> None) ->
  exists p,
    rmatch fl (Group (plus false Dot)) k0 st
      = k0 {| prev := p; rest := tail; cap := Some value |}.
Proof.
  intros Hr Hne Hok Hmid Hend.
  destruct value as [|c T]; [congruence|].
  unfold plus. cbn [rmatch]. fold (rmatch fl Dot).
  unfold consume at 1. rewrite Hr.
  change (String c T ++ tail) with (String c (T ++ tail)). cbv iota.
  cbn [allChars] in Hok. apply andb_true_iff in Hok. destruct Hok as [Hc Hok].
  rewrite Hc. cbn [rest].
  set (K := fun st1 : mstate =>
              k0 {| prev := prev st1; rest := rest st1;
                    cap := Some (take (String.length (String c (T ++ tail))
                                         - String.length (rest st1))
                                   (String c (T ++ tail))) |}).
  destruct (lazy_dots_exact fl K tail T (S (String.length (T ++ tail)))
              {| prev := Some c; rest := T ++ tail; cap := cap st |} eq_refl Hok)
    as (p & E).
  - cbn [rest]. lia.
  - intros a b p Ea Hb. unfold K. cbn [prev rest]. apply (Hmid (String c a) b); [|exact Hb].
    cbn. now rewrite Ea.
  - intros p. unfold K. apply Hend.
  - exists p. rewrite E. unfold K. cbn [prev rest]. f_equal. f_equal. f_equal.
    change (String c (T ++ tail)) with (String c T ++ tail).
    rewrite length_append.
    replace (String.length (String c T) + String.length tail - String.length tail)
      with (String.length (String c T)) by lia.
    apply take_append.
Qed.

Lemma search_skips (fl : flags) (r : regex) (s : string) :
  forall (before : string) (p : option ascii) (i : nat),
    (forall a b q, before = a ++ b -> b <> EmptyString ->
                   rmatch fl r Some {| prev := q; rest := b ++ s; cap := None |} = None) ->
    exists q, search fl r p (before ++ s) i = search fl r q s (i + String.length before).
Proof.
  induction before as [|c before IH]; intros p i H.
  - exists p. cbn. now rewrite Nat.add_0_r.
  - change (String c before ++ s) with (String c (before ++ s)). cbn [search].
    unfold match_at at 1.
    pose proof (H EmptyString (String c before) p eq_refl ltac:(discriminate)) as H0.
    change (String c before ++ s) with (String c (before ++ s)) in H0. rewrite H0.
    destruct (IH (Some c) (S i)) as (q & E).
    + intros a b q Ea Hb. apply (H (String c a) b q); [|exact Hb]. cbn. now rewrite Ea.
    + exists q. rewrite E. cbn [String.length]. f_equal. lia.
Qed.

Lemma search_here (fl : flags) (r : regex) (s : string) (p : option ascii) (i : nat)
  (st : mstate) :
  rmatch fl r Some {| prev := p; rest := s; cap := None |} = Some st ->
  exists m, search fl r p s i = Some m /\ m_group1 m = cap st.
Proof.
  intros H. destruct s as [|c s]; cbn [search]; unfold match_at; rewrite H;
    eexists; split; reflexivity.
Qed.

Lemma beginsInside_split (label : string) :
  forall before a b : string,
    beginsInside before label = false ->
    before = a ++ b -> b <> EmptyString ->
    startsWith (b ++ label) label = false.
Proof.
  induction before as [|c before IH]; intros a b H E Hb.
  - destruct a; [|discriminate]. cbn in E. congruence.
  - cbn [beginsInside] in H. apply orb_false_iff in H. destruct H as [H1 H2].
    destruct a as [|x a]; cbn in E.
    + now rewrite <- E.
    + injection E as _ E. now apply (IH a b).
Qed.

Lemma startsWith_prefix_only (p : string) :
  forall x y : string,
    String.length p <= String.length x -> startsWith (x ++ y) p = startsWith x p.
Proof.
  induction p as [|c p IH]; intros x y H; [reflexivity|].
  destruct x as [|d x]; [cbn in H; lia|].
  cbn [append startsWith]. rewrite IH; [reflexivity|]. cbn in H. lia.
Qed.

Lemma startsWith_past_label (label b more : string) :
  b <> EmptyString ->
  startsWith (b ++ label ++ more) label = startsWith (b ++ label) label.
Proof.
  intros Hb. rewrite <- append_assoc. apply startsWith_prefix_only.
  rewrite length_append. destruct b; [congruence|cbn; lia].
Qed.

Lemma allChars_suffix_head (p : ascii -> bool) (a : string) (c : ascii) (b : string) :
  allChars p (a ++ String c b) = true -> p c = true.
Proof.
  rewrite allChars_append. cbn. intros H. apply andb_true_iff in H.
  destruct H as [_ H]. now apply andb_true_iff in H.
Qed.

(** [$] under the flag [m], and the lookahead [(?=\n|$)]: they fail in
    front of a character that does not end the line, and hold at the end
    of a line, where they leave the capture as it is. *)
Lemma eol_inside_line (c : ascii) (s : string) (p : option ascii) (cp : option string) :
  isLineTerminator c = false ->
  rmatch flags_m Eol Some {| prev := p; rest := String c s; cap := cp |} = None.
Proof. intros H. cbn [rmatch next rest multiline flags_m andb]. now rewrite H. Qed.

Lemma eol_at_line_end (s : string) (p : option ascii) (cp : option string) :
  lineEnds s = true ->
  exists st', rmatch flags_m Eol Some {| prev := p; rest := s; cap := cp |} = Some st' /\
              cap st' = cp.
Proof.
  intros H. destruct s as [|c s]; cbn [rmatch next rest multiline flags_m andb];
    [eauto|]. cbn [lineEnds] in H. rewrite H. eauto.
Qed.

Lemma ahead_inside_line (c : ascii) (s : string) (p : option ascii) (cp : option string) :
  isLineTerminator c = false ->
  rmatch flags_m (Ahead (Alt (Chr LF) Eol)) Some {| prev := p; rest := String c s; cap := cp |}
    = None.
Proof.
  intros H. cbn [rmatch]. unfold consume, next, canon_eq.
  cbn [rest ignoreCase multiline flags_m andb].
  destruct (Ascii.eqb LF c) eqn:E.
  - apply Ascii.eqb_eq in E. subst c. discriminate.
  - now rewrite H.
Qed.

Lemma ahead_at_line_end (s : string) (p : option ascii) (cp : option string) :
  lineEnds s = true ->
  exists st',
    rmatch flags_m (Ahead (Alt (Chr LF) Eol)) Some {| prev := p; rest := s; cap := cp |}
      = Some st' /\
    cap st' = cp.
Proof.
  intros H. destruct s as [|c s]; cbn [rmatch]; unfold consume, next, canon_eq;
    cbn [rest ignoreCase multiline flags_m andb prev cap]; [eauto|].
  cbn [lineEnds] in H.
  destruct (Ascii.eqb LF c); [eauto|]. rewrite H. eauto.
Qed.

(** The pattern [/<label>\s*(.+?)<end>/m] on a response whose first
    [label] is followed by a value: group 1 is the value. *)
Lemma first_labelled_line_is_captured (E : regex)
  (label response before gap value after : string) :
  (forall c s p cp, isLineTerminator c = false ->
     rmatch flags_m E Some {| prev := p; rest := String c s; cap := cp |} = None) ->
  (forall s p cp, lineEnds s = true ->
     exists st', rmatch flags_m E Some {| prev := p; rest := s; cap := cp |} = Some st' /\
                 cap st' = cp) ->
  firstLabelled label response before gap value after ->
  exists m,
    match_ flags_m
      (Seq (lit label) (Seq (Star true Parsing.space) (Seq (Group (plus false Dot)) E)))
      response = Some m /\
    m_group1 m = Some value.
Proof.
  intros Hmid Hend (-> & Hfirst & Hgap & Hlead & Hne & Hline & Hafter).
  set (r := Seq (lit label) (Seq (Star true Parsing.space) (Seq (Group (plus false Dot)) E))).
  assert (Hdot : allChars (fun c => dotAll flags_m || negb (isLineTerminator c)) value = true)
    by exact Hline.
  assert (Hgroup : forall st, rest st = value ++ after ->
            exists st', rmatch flags_m (Seq (Group (plus false Dot)) E) Some st = Some st' /\
                        cap st' = Some value).
  { intros st Hr. rewrite rmatch_Seq.
    destruct (lazy_group_captures flags_m (rmatch flags_m E Some) value after st Hr Hne Hdot)
      as (p & Eg).
    - intros a b p cp Ea Hb. destruct b as [|c b]; [congruence|].
      change (String c b ++ after) with (String c (b ++ after)). apply Hmid.
      rewrite Ea in Hline. apply allChars_suffix_head in Hline.
      now apply negb_true_iff in Hline.
    - intros p cp. destruct (Hend after p cp Hafter) as (st' & Es & _). congruence.
    - rewrite Eg. apply Hend. exact Hafter. }
  assert (Hhere : forall p, exists st',
            rmatch flags_m r Some {| prev := p; rest := label ++ gap ++ value ++ after;
                                     cap := None |} = Some st' /\
            cap st' = Some value).
  { intros p. unfold r. rewrite rmatch_Seq.
    destruct (rmatch_lit_same flags_m label (gap ++ value ++ after)
                (rmatch flags_m
                   (Seq (Star true Parsing.space) (Seq (Group (plus false Dot)) E)) Some)
                {| prev := p; rest := label ++ gap ++ value ++ after; cap := None |}
                eq_refl) as (p1 & E1).
    rewrite E1. clear E1. rewrite rmatch_Seq.
    change (rmatch flags_m (Star true Parsing.space) ?k ?st)
      with (repeat_ (rmatch flags_m Parsing.space) true k (S (String.length (rest st))) st).
    destruct (greedy_spaces_exact flags_m
                (rmatch flags_m (Seq (Group (plus false Dot)) E) Some)
                (value ++ after)
                ltac:(destruct value; [congruence|exact Hlead])
                gap (S (String.length (gap ++ value ++ after)))
                {| prev := p1; rest := gap ++ value ++ after; cap := None |}
                Hgap eq_refl ltac:(cbn [rest]; lia)) as (p2 & E2).
    - intros q. destruct (Hgroup {| prev := q; rest := value ++ after; cap := None |} eq_refl)
        as (st' & Es & _). cbn [cap]. congruence.
    - cbn [rest cap] in E2 |- *. rewrite E2. apply Hgroup. reflexivity. }
  unfold match_.
  destruct (search_skips flags_m r (label ++ gap ++ value ++ after) before None 0)
    as (q & Eq).
  - intros a b q Ea Hb.
    destruct (rmatch flags_m r Some
                {| prev := q; rest := b ++ label ++ gap ++ value ++ after; cap := None |})
      as [st'|] eqn:Em; [|reflexivity].
    unfold r in Em. rewrite rmatch_Seq in Em.
    apply (rmatch_lit_needs flags_m label eq_refl) in Em. cbn [rest] in Em.
    rewrite (startsWith_past_label label b _ Hb) in Em.
    now rewrite (beginsInside_split label before a b Hfirst Ea Hb) in Em.
  - rewrite Eq. destruct (Hhere q) as (st' & Es & Ec).
    destruct (search_here flags_m r _ q (0 + String.length before) st' Es) as (m & Em & Eg).
    exists m. split; [exact Em|congruence].
Qed.

(** X7.  The tool call of a reply is read off its first "Action:" line
    and its first "Action Input:" line: the tool name and the input are
    what stands on the rest of those lines, trimmed. *)
Theorem tool_call_is_read_off_the_labelled_lines
  (response before1 gap1 name after1 before2 gap2 arg after2 : string) :
  firstLabelled "Action:" response before1 gap1 name after1 ->
  firstLabelled "Action Input:" response before2 gap2 arg after2 ->
  extractToolCall response = Some {| tool := trim name; input := trim arg |}.
Proof.
  intros H1 H2. unfold extractToolCall.
  destruct (first_labelled_line_is_captured (Ahead (Alt (Chr LF) Eol)) "Action:"
              response before1 gap1 name after1 ahead_inside_line ahead_at_line_end H1)
    as (m1 & E1 & G1).
  destruct (first_labelled_line_is_captured (Ahead (Alt (Chr LF) Eol)) "Action Input:"
              response before2 gap2 arg after2 ahead_inside_line ahead_at_line_end H2)
    as (m2 & E2 & G2).
  change (Seq (lit "Action:") _) with actionPattern in E1.
  change (Seq (lit "Action Input:") _) with inputPattern in E2.
  rewrite E1, E2. unfold group1. now rewrite G1, G2.
Qed.

Lemma tool_call_is_read_off_the_labelled_lines_witness :
  extractToolCall ("Action: add" ++ NLs ++ "Action Input: 2,3 " ++ NLs ++ "Observation: 7")
    = Some {| tool := "add"; input := "2,3" |}.
Proof.
  apply (tool_call_is_read_off_the_labelled_lines
           ("Action: add" ++ NLs ++ "Action Input: 2,3 " ++ NLs ++ "Observation: 7")
           EmptyString " " "add" (NLs ++ "Action Input: 2,3 " ++ NLs ++ "Observation: 7")
           ("Action: add" ++ NLs) " " "2,3 " (NLs ++ "Observation: 7")).
  - repeat split; try reflexivity. discriminate.
  - repeat split; try reflexivity. discriminate.
Defined.

(** X8.  The final answer of a reply is read off its first
    "Final Answer:" line: what stands on the rest of that line, trimmed,
    is taken as a number if it reads as one, else as JSON if it parses,
    else as text. *)
Theorem final_answer_is_read_off_the_labelled_line
  (response before gap answer after : string) :
  firstLabelled "Final Answer:" response before gap answer after ->
  extractFinalAnswer response =
    match Number (trim answer) with
    | Some num => JNum num
    | None =>
        match JSON.parse (trim answer) with
        | Some v => v
        | None => JStr (trim answer)
        end
    end.
Proof.
  intros H. unfold extractFinalAnswer.
  destruct (first_labelled_line_is_captured Eol "Final Answer:"
              response before gap answer after eol_inside_line eol_at_line_end H)
    as (m & E & G).
  change (Seq (lit "Final Answer:") _) with finalAnswerPattern in E.
  rewrite E. unfold group1. now rewrite G.
Qed.

Lemma final_answer_is_read_off_the_labelled_line_witness :
  extractFinalAnswer ("I know it." ++ NLs ++ "Final Answer: Paris" ++ NLs ++ "Bye")
    = JStr "Paris".
Proof.
  apply (final_answer_is_read_off_the_labelled_line
           ("I know it." ++ NLs ++ "Final Answer: Paris" ++ NLs ++ "Bye")
           ("I know it." ++ NLs) " " "Paris" (NLs ++ "Bye")).
  repeat split; try reflexivity. discriminate.
Defined.

Lemma search_without_label (fl : flags) (r : regex) (label : string) :
  (forall k st st', rmatch fl r k st = Some st' -> startsWith (rest st) label = true) ->
  forall (s : string) (p : option ascii) (i : nat),
    includes s label = false -> search fl r p s i = None.
Proof.
  intros Hneeds. induction s as [|c s IH]; intros p i Hm;
    cbn [includes] in Hm; apply orb_false_iff in Hm; destruct Hm as [H1 H2];
    cbn [search]; unfold match_at;
    destruct (rmatch fl r Some {| prev := p; rest := _; cap := None |}) as [st'|] eqn:E;
    try (apply Hneeds in E; cbn [rest] in E; congruence); auto.
Qed.

Lemma labelled_pattern_needs_label (label : string) (r : regex) (s : string) :
  includes s label = false ->
  match_ flags_m (Seq (lit label) r) s = None.
Proof.
  intros H. unfold match_. apply (search_without_label flags_m _ label); [|exact H].
  intros k st st' E. rewrite rmatch_Seq in E.
  now apply (rmatch_lit_needs flags_m label eq_refl) in E.
Qed.

(** X9.  A tool call is found only in a reply that holds both labels:
    without "Action:" or without "Action Input:" in it (in this very
    spelling), a reply holds no tool call. *)
Theorem no_tool_call_without_both_labels (response : string) :
  includes response "Action:" = false \/ includes response "Action Input:" = false ->
  extractToolCall response = None.
Proof.
  unfold extractToolCall, actionPattern, inputPattern. intros [H|H].
  - now rewrite (labelled_pattern_needs_label "Action:" _ response H).
  - rewrite (labelled_pattern_needs_label "Action Input:" _ response H).
    now destruct (match_ flags_m _ response).
Qed.

Lemma no_tool_call_without_both_labels_witness :
  extractToolCall ("Action: add" ++ NLs ++ "Input: 2,3") = None.
Proof.
  apply (no_tool_call_without_both_labels ("Action: add" ++ NLs ++ "Input: 2,3")).
  right. reflexivity.
Defined.

Lemma toLowerCase_append (a b : string) :
  toLowerCase (a ++ b) = toLowerCase a ++ toLowerCase b.
Proof. induction a as [|c a IH]; cbn; [reflexivity|now rewrite IH]. Qed.

(** ** The final answer under the signature "... -> answer" *)

(** The text that [parseOutput] of the module hands to the parser. *)
Lemma finalAnswer_sole_answer {World : Type} (self : RespAct World) (step : nat)
  (response conv : string) (st : LoopState World) (s : string) (parsed : ParsedSignature) :
  signature self = SigString s ->
  Signature.parseStringSignature s = Normal parsed ->
  outputs parsed = ["answer"] ->
  let rawAnswer := extractFinalAnswer response in
  let outputText := match rawAnswer with JStr text => text | v => JSON.stringify v end in
  let value := Parsing.extractFieldValue outputText "answer" (lookup "answer" (types parsed)) in
  finalAnswer self step response conv st
    = Finish
        (Normal {| _data := [("answer", if isNull value then rawAnswer else value);
                             ("steps", JNum (ofZ (Z.of_nat step + 1)))] |})
        {| conversation := conv; previousToolCalls := previousToolCalls st;
           world := world st; trace := trace st |}.
Proof.
  intros Hsig Hparse Hout rawAnswer outputText value.
  assert (Hs : noSignature (SigString s) = false).
  { destruct s; [discriminate|reflexivity]. }
  unfold finalAnswer, parseOutput. rewrite Hsig, Hs.
  fold rawAnswer. fold outputText.
  cbn [Parsing.parseOutput]. unfold Parsing.parseOutputFromString.
  rewrite Hparse, Hout. cbn [fold_left]. fold value.
  change (assign "answer" value []) with [("answer", value)].
  cbn [keys map fst existsb List.length Nat.eqb orb].
  change (notNullish [("answer", value)] "answer") with (negb (isNull value)).
  change (hasProperty "answer" [("answer", value)]) with true.
  cbn [negb andb]. destruct (isNull value); reflexivity.
Qed.

Lemma marker_in_lower_case (before after : string) :
  includes (toLowerCase (before ++ "Final Answer:" ++ after)) "final answer:" = true.
Proof.
  rewrite !toLowerCase_append.
  change (toLowerCase "Final Answer:") with "final answer:". apply includes_middle.
Qed.

(** X10.  The happy path of the signature "... -> answer".  On a reply
    without tool call whose first "Final Answer:" line holds a plain text
    (no number, no JSON, no colon, no \u escape; something is left of it
    when asterisks and quotes are taken off), the iteration ends the run: [answer] is
    that text, trimmed, cleaned and coerced to the declared type (the
    trimmed text itself where the coercion gives null), and [steps] is
    the number of the iteration. *)
Theorem plain_final_answer_is_returned {World : Type} (self : RespAct World)
  (step : nat) (st : LoopState World) (response before gap answer after : string)
  (w1 : World) (s : string) (parsed : ParsedSignature) :
  signature self = SigString s ->
  Signature.parseStringSignature s = Normal parsed ->
  outputs parsed = ["answer"] ->
  generate (lm self) (promptOf st) (world st) = (Reply response, w1) ->
  extractToolCall response = None ->
  firstLabelled "Final Answer:" response before gap answer after ->
  plainText (trim answer) = true ->
  truthy (cleaned (trim answer)) = true ->
  let value :=
    Parsing.convertValue (cleaned (trim answer)) (lookup "answer" (types parsed)) in
  iteration self step st
    = Finish
        (Normal {| _data := [("answer", if isNull value then JStr (trim answer) else value);
                             ("steps", JNum (ofZ (Z.of_nat step + 1)))] |})
        {| conversation := withReply st response;
           previousToolCalls := previousToolCalls st;
           world := w1;
           trace := trace st ++ [Generate (promptOf st) (Reply response)] |}.
Proof.
  intros Hsig Hparse Hout Hg Hc Hfirst Hplain Hvalue value.
  assert (Hf : includes (toLowerCase response) "final answer:" = true).
  { destruct Hfirst as (-> & _). apply marker_in_lower_case. }
  rewrite (iteration_final_answer self step st response w1 Hg Hc Hf).
  rewrite (finalAnswer_sole_answer self step response _ _ s parsed Hsig Hparse Hout).
  cbn [previousToolCalls world trace].
  assert (Hraw : extractFinalAnswer response = JStr (trim answer)).
  { unfold extractFinalAnswer.
    destruct (first_labelled_line_is_captured Eol "Final Answer:"
                response before gap answer after eol_inside_line eol_at_line_end Hfirst)
      as (m & E & G).
    change (Seq (lit "Final Answer:") _) with finalAnswerPattern in E.
    rewrite E. unfold group1. rewrite G.
    unfold plainText in Hplain.
    destruct (Number (trim answer)); [discriminate|].
    now destruct (JSON.parse (trim answer)). }
  rewrite Hraw.
  assert (Hfield : Parsing.extractFieldValue (trim answer) "answer"
                     (lookup "answer" (types parsed)) = value).
  { unfold Parsing.extractFieldValue, Parsing.simpleAnswer.
    assert (Hcolon : includes (trim answer) ":" = false).
    { unfold plainText in Hplain.
      destruct (Number (trim answer)); [discriminate|].
      destruct (JSON.parse (trim answer)); [discriminate|].
      apply andb_true_iff in Hplain. destruct Hplain as [Hplain _].
      now apply negb_true_iff in Hplain. }
    assert (Hlf : includes (trim answer) NLs = false).
    { destruct Hfirst as (_ & _ & _ & _ & _ & Hline & _).
      apply (allChars_no_char (fun c => negb (isLineTerminator c)) LF);
        [reflexivity|now apply allChars_trim]. }
    rewrite Hcolon, Hlf, trim_idempotent.
    change (String.eqb "answer" "answer") with true. cbn [negb andb].
    fold (cleaned (trim answer)). now rewrite Hvalue. }
  rewrite Hfield. reflexivity.
Qed.

Lemma plain_final_answer_is_returned_witness :
  let response := "I know it." ++ NLs ++ "Final Answer: Paris" in
  let self := new (SigString "question -> answer") (Sample.always response)
                [("add", Sample.add)] (Some (integer 3)) in
  let st := Sample.start "Question: Which city?" [] in
  iteration self 0 st
    = Finish
        (Normal {| _data := [("answer", JStr "Paris"); ("steps", JNum (ofZ 1))] |})
        {| conversation := withReply st response;
           previousToolCalls := [];
           world := 1;
           trace := [Generate (promptOf st) (Reply response)] |}.
Proof.
  intros response self st.
  apply (plain_final_answer_is_returned self 0 st response
           ("I know it." ++ NLs) " " "Paris" EmptyString 1 "question -> answer"
           {| inputs := ["question"]; outputs := ["answer"];
              types := [("question", "string"); ("answer", "string")] |});
    try (vm_compute; reflexivity).
  repeat split; try reflexivity. discriminate.
Defined.

(** X11.  The marker is looked for in any letter case, the answer only
    after "Final Answer:" in this very spelling.  On a reply without tool
    call that holds the marker in another spelling only, the iteration
    still ends the run, and what the reply said after the marker is lost:
    under the signature "... -> answer" the result holds the text "null",
    coerced to the declared type. *)
Theorem marker_in_other_spelling_loses_the_answer {World : Type} (self : RespAct World)
  (step : nat) (st : LoopState World) (response : string) (w1 : World)
  (s : string) (parsed : ParsedSignature) :
  signature self = SigString s ->
  Signature.parseStringSignature s = Normal parsed ->
  outputs parsed = ["answer"] ->
  generate (lm self) (promptOf st) (world st) = (Reply response, w1) ->
  extractToolCall response = None ->
  includes (toLowerCase response) "final answer:" = true ->
  includes response "Final Answer:" = false ->
  iteration self step st
    = Finish
        (Normal {| _data := [("answer",
                              Parsing.convertValue "null" (lookup "answer" (types parsed)));
                             ("steps", JNum (ofZ (Z.of_nat step + 1)))] |})
        {| conversation := withReply st response;
           previousToolCalls := previousToolCalls st;
           world := w1;
           trace := trace st ++ [Generate (promptOf st) (Reply response)] |}.
Proof.
  intros Hsig Hparse Hout Hg Hc Hf Hno.
  rewrite (iteration_final_answer self step st response w1 Hg Hc Hf).
  rewrite (finalAnswer_sole_answer self step response _ _ s parsed Hsig Hparse Hout).
  cbn [previousToolCalls world trace].
  assert (Hraw : extractFinalAnswer response = JNull).
  { unfold extractFinalAnswer, finalAnswerPattern.
    now rewrite (labelled_pattern_needs_label "Final Answer:" _ response Hno). }
  rewrite Hraw.
  change (JSON.stringify JNull) with "null".
  change (Parsing.extractFieldValue "null" "answer" (lookup "answer" (types parsed)))
    with (Parsing.convertValue "null" (lookup "answer" (types parsed))).
  now destruct (Parsing.convertValue "null" (lookup "answer" (types parsed))).
Qed.

Lemma marker_in_other_spelling_loses_the_answer_witness :
  let response := "final answer: Paris" in
  let self := new (SigString "question -> answer") (Sample.always response)
                [("add", Sample.add)] (Some (integer 3)) in
  let st := Sample.start "Question: Which city?" [] in
  iteration self 0 st
    = Finish
        (Normal {| _data := [("answer", JStr "null"); ("steps", JNum (ofZ 1))] |})
        {| conversation := withReply st response;
           previousToolCalls := [];
           world := 1;
           trace := [Generate (promptOf st) (Reply response)] |}.
Proof.
  intros response self st.
  apply (marker_in_other_spelling_loses_the_answer self 0 st response 1
           "question -> answer"
           {| inputs := ["question"]; outputs := ["answer"];
              types := [("question", "string"); ("answer", "string")] |});
    vm_compute; reflexivity.
Defined.

(** ** What a captured value can hold *)

Lemma search_found (fl : flags) (r : regex) :
  forall (s : string) (p : option ascii) (i : nat) (m : match_result),
    search fl r p s i = Some m ->
    exists (p' : option ascii) (s' : string) (st : mstate),
      rmatch fl r Some {| prev := p'; rest := s'; cap := None |} = Some st /\
      m_group1 m = cap st.
Proof.
  induction s as [|c s IH]; intros p i m; cbn [search]; unfold match_at;
    destruct (rmatch fl r Some {| prev := p; rest := _; cap := None |}) as [st|] eqn:E.
  - intros [= <-]. eauto.
  - discriminate.
  - intros [= <-]. eauto.
  - apply IH.
Qed.

Lemma rmatch_lit_passes (fl : flags) (label : string) :
  forall (k : mstate -> option mstate) (st st' : mstate),
    rmatch fl (lit label) k st = Some st' ->
    exists st1, k st1 = Some st' /\ cap st1 = cap st.
Proof.
  induction label as [|c label IH]; intros k st st' H.
  - cbn in H. eauto.
  - cbn [lit] in H. rewrite rmatch_Seq in H. cbn [rmatch] in H.
    unfold consume in H. destruct (rest st) as [|d s]; [discriminate|].
    destruct (canon_eq fl c d); [|discriminate].
    apply IH in H. exact H.
Qed.

(** The iterations of a starred character test consume characters that
    pass the test, and leave the capture alone. *)
Lemma repeat_consume_sound (ok : ascii -> bool) (greedy : bool)
  (K : mstate -> option mstate) :
  forall (fuel : nat) (st st' : mstate),
    repeat_ (fun k st0 => consume st0 ok k) greedy K fuel st = Some st' ->
    exists (consumed : string) (st1 : mstate),
      rest st = consumed ++ rest st1 /\
      allChars ok consumed = true /\
      cap st1 = cap st /\
      K st1 = Some st'.
Proof.
  induction fuel as [|fuel IH]; intros st st' H; cbn [repeat_] in H.
  - exists EmptyString, st. auto.
  - assert (Hagain :
      consume st ok
        (fun st1 => if String.length (rest st1) <? String.length (rest st)
                    then repeat_ (fun k st0 => consume st0 ok k) greedy K fuel st1
                    else None) = Some st' ->
      exists (consumed : string) (st1 : mstate),
        rest st = consumed ++ rest st1 /\ allChars ok consumed = true /\
        cap st1 = cap st /\ K st1 = Some st').
    { unfold consume. destruct (rest st) as [|c s] eqn:Hr; [discriminate|].
      destruct (ok c) eqn:Hc; [|discriminate]. cbn [rest].
      destruct (String.length s <? String.length (String c s)); [|discriminate].
      intros H'. apply IH in H'. destruct H' as (consumed & st1 & E & Hok & Hcap & HK).
      cbn [rest cap] in E, Hcap.
      exists (String c consumed), st1. cbn. rewrite Hc, Hok, E. auto. }
    assert (Hdone : K st = Some st' ->
      exists (consumed : string) (st1 : mstate),
        rest st = consumed ++ rest st1 /\ allChars ok consumed = true /\
        cap st1 = cap st /\ K st1 = Some st').
    { intros H'. exists EmptyString, st. auto. }
    destruct greedy.
    + destruct (consume st ok _) as [r|] eqn:E; [|auto].
      injection H as H. subst r. auto.
    + revert H Hdone. destruct (K st) as [r|]; intros H Hdone; [|auto].
      injection H as H. subst r. auto.
Qed.

Lemma lookahead_keeps_capture (st st' : mstate) :
  rmatch flags_m (Ahead (Alt (Chr LF) Eol)) Some st = Some st' -> cap st' = cap st.
Proof.
  destruct st as [p r cp]. cbn [rmatch]. unfold consume, next.
  cbn [rest prev cap multiline flags_m andb].
  destruct r as [|c s].
  - now intros [= <-].
  - destruct (canon_eq flags_m LF c).
    + now intros [= <-].
    + destruct (isLineTerminator c); [|discriminate]. now intros [= <-].
Qed.

(** Group 1 of [/<label>\s*(.+?)(?=\n|$)/m] holds no line terminator. *)
Lemma labelled_capture_is_one_line (label response : string) (m : match_result) :
  match_ flags_m
    (Seq (lit label) (Seq (Star true Parsing.space)
       (Seq (Group (plus false Dot)) (Ahead (Alt (Chr LF) Eol))))) response = Some m ->
  allChars (fun c => negb (isLineTerminator c)) (group1 m) = true.
Proof.
  unfold match_. intros H. apply search_found in H.
  destruct H as (p & s & st & H & Hg). unfold group1. rewrite Hg. clear Hg m.
  rewrite rmatch_Seq in H. apply rmatch_lit_passes in H.
  destruct H as (st1 & H & _). rewrite rmatch_Seq in H.
  change (rmatch flags_m (Star true Parsing.space) ?k ?st0)
    with (repeat_ (fun k0 st2 => consume st2 (fun c => xorb false (set_found flags_m [CSpace] c)) k0)
            true k (S (String.length (rest st0))) st0) in H.
  apply repeat_consume_sound in H. destruct H as (_ & st2 & _ & _ & _ & H).
  rewrite rmatch_Seq in H. unfold plus in H.
  change (rmatch flags_m (Group ?r1) ?k ?st0)
    with (rmatch flags_m r1
            (fun st3 =>
               k {| prev := prev st3; rest := rest st3;
                    cap := Some (take (String.length (rest st0) - String.length (rest st3))
                                   (rest st0)) |}) st0) in H.
  rewrite rmatch_Seq, rmatch_Dot in H. unfold consume at 1 in H.
  destruct (rest st2) as [|c s2] eqn:Hr; [discriminate|].
  destruct (dotAll flags_m || negb (isLineTerminator c)) eqn:Hc; [|discriminate].
  change (rmatch flags_m (Star false Dot) ?k ?st0)
    with (repeat_ (fun k0 st3 => consume st3 (fun c => dotAll flags_m || negb (isLineTerminator c)) k0)
            false k (S (String.length (rest st0))) st0) in H.
  apply repeat_consume_sound in H.
  destruct H as (consumed & st3 & E & Hok & _ & H). cbn [rest prev] in E, H.
  apply lookahead_keeps_capture in H. cbn [cap] in H. rewrite H.
  rewrite E.
  change (String c (consumed ++ rest st3)) with (String c consumed ++ rest st3).
  rewrite length_append.
  replace (String.length (String c consumed) + String.length (rest st3)
             - String.length (rest st3))
    with (String.length (String c consumed)) by lia.
  rewrite take_append. cbn [allChars]. cbn [dotAll flags_m orb] in Hc, Hok.
  now rewrite Hc, Hok.
Qed.

(** X12.  What [extractToolCall] hands on stays on one line: the tool
    name and the input of a tool call hold no line terminator, and no
    white space at either end. *)
Theorem tool_call_values_are_single_lines (response : string) (c : ToolCall) :
  extractToolCall response = Some c ->
  allChars (fun ch => negb (isLineTerminator ch)) (tool c) = true /\
  allChars (fun ch => negb (isLineTerminator ch)) (input c) = true /\
  trim (tool c) = tool c /\
  trim (input c) = input c.
Proof.
  unfold extractToolCall.
  destruct (match_ flags_m actionPattern response) as [m1|] eqn:E1; [|discriminate].
  destruct (match_ flags_m inputPattern response) as [m2|] eqn:E2; [|discriminate].
  intros [= <-]. cbn [tool input].
  apply labelled_capture_is_one_line in E1. apply labelled_capture_is_one_line in E2.
  repeat split; try apply trim_idempotent; now apply allChars_trim.
Qed.

Lemma tool_call_values_are_single_lines_witness :
  let c := {| tool := "add"; input := "2,3" |} in
  extractToolCall Sample.callAdd = Some c /\
  allChars (fun ch => negb (isLineTerminator ch)) (tool c) = true /\
  allChars (fun ch => negb (isLineTerminator ch)) (input c) = true /\
  trim (tool c) = tool c /\
  trim (input c) = input c.
Proof.
  intros c.
  split; [vm_compute; reflexivity|].
  apply (tool_call_values_are_single_lines Sample.callAdd c).
  vm_compute; reflexivity.
Defined.

(** ** A labelled value is read back *)

Lemma upper_of_line_feed (c : ascii) :
  Ascii.eqb (upperChar LF) (upperChar c) = Ascii.eqb LF c.
Proof. destruct c as [[] [] [] [] [] [] [] []]; reflexivity. Qed.

Lemma allChars_true (s : string) : allChars (fun _ => true) s = true.
Proof. induction s as [|c s IH]; cbn; auto. Qed.

(** The lookahead [(?=\n\s*\w+\s*:|$)] of the first pattern, without the
    flag [m]: it fails in front of a character that is not a line feed,
    and holds at the end of the text. *)
Lemma field_end_inside (r : regex) (c : ascii) (s : string) (p : option ascii)
  (cp : option string) :
  Ascii.eqb LF c = false ->
  rmatch Parsing.flags_is (Ahead (Alt (Seq (Chr LF) r) Eol)) Some
    {| prev := p; rest := String c s; cap := cp |} = None.
Proof.
  intros H. cbn [rmatch]. unfold consume, next, canon_eq.
  cbn [rest ignoreCase multiline Parsing.flags_is andb].
  now rewrite upper_of_line_feed, H.
Qed.

Lemma field_end_at_end (r : regex) (p : option ascii) (cp : option string) :
  rmatch Parsing.flags_is (Ahead (Alt (Seq (Chr LF) r) Eol)) Some
    {| prev := p; rest := EmptyString; cap := cp |}
    = Some {| prev := p; rest := EmptyString; cap := cp |}.
Proof. reflexivity. Qed.

Lemma first_pattern_captures (name gap1 gap2 value : string) :
  allWhiteSpace gap1 = true ->
  allWhiteSpace gap2 = true ->
  noLeadingSpace value = true ->
  value <> EmptyString ->
  allChars (fun c => negb (Ascii.eqb LF c)) value = true ->
  forall p : flags * regex,
    nth_error (Parsing.patterns name) 0 = Some p ->
    exists m,
      match_ (fst p) (snd p) (name ++ gap1 ++ ":" ++ gap2 ++ value) = Some m /\
      m_group1 m = Some value.
Proof.
  intros Hg1 Hg2 Hlead Hne Hlf p Hp.
  unfold Parsing.patterns in Hp. cbn [nth_error] in Hp. injection Hp as <-. cbn [fst snd].
  set (A := Ahead (Alt (Seq (Chr LF)
                          (Seq (Star true Parsing.space)
                             (Seq (plus true (Cls false [CWord]))
                                (Seq (Star true Parsing.space) (Chr ":"))))) Eol)).
  assert (Hgroup : forall st, rest st = value ->
            exists st', rmatch Parsing.flags_is (Seq (Group (plus false Dot)) A) Some st
                          = Some st' /\ cap st' = Some value).
  { intros st Hr. rewrite rmatch_Seq.
    destruct (lazy_group_captures Parsing.flags_is (rmatch Parsing.flags_is A Some)
                value EmptyString st) as (q & Eg).
    - now rewrite append_empty_r.
    - exact Hne.
    - apply allChars_true.
    - intros a b q cp Ea Hb. destruct b as [|c b]; [congruence|].
      rewrite append_empty_r. apply field_end_inside.
      rewrite Ea in Hlf. apply allChars_suffix_head in Hlf.
      now apply negb_true_iff in Hlf.
    - intros q cp. unfold A. rewrite field_end_at_end. discriminate.
    - rewrite Eg. unfold A. rewrite field_end_at_end. eauto. }
  assert (Hvalue : forall st, rest st = gap2 ++ value ->
            exists st', rmatch Parsing.flags_is
                          (Seq (Star true Parsing.space) (Seq (Group (plus false Dot)) A))
                          Some st = Some st' /\ cap st' = Some value).
  { intros st Hr. rewrite rmatch_Seq.
    change (rmatch Parsing.flags_is (Star true Parsing.space) ?k ?st0)
      with (repeat_ (rmatch Parsing.flags_is Parsing.space) true k
              (S (String.length (rest st0))) st0).
    destruct (greedy_spaces_exact Parsing.flags_is
                (rmatch Parsing.flags_is (Seq (Group (plus false Dot)) A) Some)
                value Hlead gap2 (S (String.length (rest st))) st Hg2 Hr ltac:(lia))
      as (q & E).
    - intros q. destruct (Hgroup {| prev := q; rest := value; cap := cap st |} eq_refl)
        as (st' & Es & _). congruence.
    - rewrite E. apply Hgroup. reflexivity. }
  assert (Hcolon : forall st, rest st = ":" ++ gap2 ++ value ->
            exists st', rmatch Parsing.flags_is
                          (Seq (Chr ":")
                             (Seq (Star true Parsing.space) (Seq (Group (plus false Dot)) A)))
                          Some st = Some st' /\ cap st' = Some value).
  { intros st Hr. rewrite rmatch_Seq. cbn [rmatch]. unfold consume. rewrite Hr.
    cbn [append]. rewrite canon_eq_refl. apply Hvalue. reflexivity. }
  assert (Hhere : exists st',
            rmatch Parsing.flags_is
              (Seq (lit name)
                 (Seq (Star true Parsing.space)
                    (Seq (Chr ":")
                       (Seq (Star true Parsing.space) (Seq (Group (plus false Dot)) A)))))
              Some {| prev := None; rest := name ++ gap1 ++ ":" ++ gap2 ++ value;
                      cap := None |} = Some st' /\
            cap st' = Some value).
  { rewrite rmatch_Seq.
    destruct (rmatch_lit_same Parsing.flags_is name (gap1 ++ ":" ++ gap2 ++ value)
                (rmatch Parsing.flags_is
                   (Seq (Star true Parsing.space)
                      (Seq (Chr ":")
                         (Seq (Star true Parsing.space) (Seq (Group (plus false Dot)) A))))
                   Some)
                {| prev := None; rest := name ++ gap1 ++ ":" ++ gap2 ++ value; cap := None |}
                eq_refl) as (p1 & E1).
    rewrite E1. clear E1. rewrite rmatch_Seq.
    change (rmatch Parsing.flags_is (Star true Parsing.space) ?k ?st0)
      with (repeat_ (rmatch Parsing.flags_is Parsing.space) true k
              (S (String.length (rest st0))) st0).
    destruct (greedy_spaces_exact Parsing.flags_is
                (rmatch Parsing.flags_is
                   (Seq (Chr ":")
                      (Seq (Star true Parsing.space) (Seq (Group (plus false Dot)) A))) Some)
                (":" ++ gap2 ++ value) eq_refl gap1
                (S (String.length (gap1 ++ ":" ++ gap2 ++ value)))
                {| prev := p1; rest := gap1 ++ ":" ++ gap2 ++ value; cap := None |}
                Hg1 eq_refl ltac:(cbn [rest]; lia)) as (q & E).
    - intros q. destruct (Hcolon {| prev := q; rest := ":" ++ gap2 ++ value; cap := None |}
                            eq_refl) as (st' & Es & _). cbn [cap]. congruence.
    - cbn [rest cap] in E |- *. rewrite E. apply Hcolon. reflexivity. }
  destruct Hhere as (st' & Es & Ec). unfold match_.
  destruct (search_here Parsing.flags_is _ _ None 0 st' Es) as (m & Em & Eg).
  exists m. split; [exact Em|congruence].
Qed.

(** From a text that is the field name, a colon and a value without
    line feed (white space may stand around the colon),
    [extractFieldValue] reads the value: trimmed, freed of asterisks and
    quotes at its ends, and coerced to the declared type. *)
Lemma extractFieldValue_labelled (name gap1 gap2 value : string)
  (type : option string) :
  allWhiteSpace gap1 = true ->
  allWhiteSpace gap2 = true ->
  noLeadingSpace value = true ->
  allChars (fun c => negb (Ascii.eqb LF c)) value = true ->
  truthy (trim (cleaned (trim value))) = true ->
  Parsing.extractFieldValue (name ++ gap1 ++ ":" ++ gap2 ++ value) name type
    = Parsing.convertValue (trim (cleaned (trim value))) type.
Proof.
  intros Hg1 Hg2 Hlead Hlf Hleft.
  assert (Hne : value <> EmptyString).
  { intros ->. discriminate. }
  unfold Parsing.extractFieldValue, Parsing.simpleAnswer.
  assert (Hc : includes (name ++ gap1 ++ ":" ++ gap2 ++ value) ":" = true).
  { rewrite <- append_assoc. apply includes_middle. }
  rewrite Hc. cbn [negb andb]. rewrite andb_false_r.
  destruct (first_pattern_captures name gap1 gap2 value Hg1 Hg2 Hlead Hne Hlf _ eq_refl)
    as (m & Em & Eg).
  unfold Parsing.patterns. cbn [Parsing.firstPattern].
  unfold Parsing.tryPattern at 1. cbn [fst snd] in Em |- *. rewrite Em, Eg.
  assert (Ht : truthy value = true) by (destruct value; [congruence|reflexivity]).
  rewrite Ht. fold (cleaned (trim value)). now rewrite Hleft.
Qed.

Lemma noLeadingSpace_append (a b : string) :
  a <> EmptyString -> noLeadingSpace (a ++ b) = noLeadingSpace a.
Proof. destruct a; [congruence|reflexivity]. Qed.

Lemma trim_keeps_core (x : string) (c : ascii) (y : string) :
  isWhiteSpace c = false ->
  noLeadingSpace (reverse (String c y)) = true ->
  trim (x ++ String c y) = trimStart x ++ String c y.
Proof.
  intros Hc Hy. unfold trim. rewrite (trimStart_append x c y Hc).
  apply trimEnd_fixed. rewrite reverse_append, noLeadingSpace_append; [exact Hy|].
  rewrite reverse_cons. now destruct (reverse y).
Qed.

(** X13.  The format the prompt asks for is one the parser reads back.
    Under a string signature with the single output field [name] (an
    ordinary name), the prompt of [buildPrompt] ends with the line
    "<name>: [your response]"; and from a reply "<name>: <value>", with a
    value without line feed, [parseOutput] returns [name] bound to the
    value, trimmed, freed of asterisks and quotes at its ends, and coerced
    to the declared type. *)
Theorem requested_format_is_read_back (s name value : string)
  (parsed : ParsedSignature) (inputs : JSObject) :
  Signature.parseStringSignature s = Normal parsed ->
  outputs parsed = [name] ->
  literalName name = true ->
  name <> "__proto__" ->
  noLeadingSpace value = true ->
  allChars (fun c => negb (Ascii.eqb LF c)) value = true ->
  truthy (trim (cleaned (trim value))) = true ->
  (exists body,
     Parsing.buildPrompt (SigString s) inputs
       = Normal (body ++ name ++ ": [your response]")) /\
  Parsing.parseOutput (SigString s) (name ++ ": " ++ value)
    = Normal [(name, Parsing.convertValue (trim (cleaned (trim value)))
                       (lookup name (types parsed)))].
Proof.
  intros Hparse Hout _ Hproto Hlead Hlf Hleft. split.
  - cbn [Parsing.buildPrompt]. unfold Parsing.buildPromptFromString. rewrite Hparse.
    destruct parsed as [ins outs tys]. cbn [outputs] in Hout. subst outs.
    set (head := fold_left _ ins EmptyString).
    exists (trimStart (head ++ NLs) ++ "Provide the " ++ name ++ " in this format:" ++ NLs).
    f_equal.
    replace (head ++ NLs ++ "Provide the " ++ name ++ " in this format:" ++ NLs ++ name
               ++ ": [your response]")
      with ((head ++ NLs)
              ++ String "P" ("rovide the " ++ name ++ " in this format:" ++ NLs ++ name
                               ++ ": [your response]"))
      by (now rewrite !append_assoc).
    rewrite trim_keeps_core; [now rewrite !append_assoc|reflexivity|].
    replace (String "P" ("rovide the " ++ name ++ " in this format:" ++ NLs ++ name
                           ++ ": [your response]"))
      with (("Provide the " ++ name ++ " in this format:" ++ NLs ++ name)
              ++ ": [your response]")
      by (now rewrite !append_assoc).
    rewrite reverse_append. reflexivity.
  - cbn [Parsing.parseOutput]. unfold Parsing.parseOutputFromString.
    rewrite Hparse, Hout. cbn [fold_left]. unfold assign.
    apply String.eqb_neq in Hproto. rewrite Hproto. cbn [define].
    now rewrite (extractFieldValue_labelled name EmptyString " " value _ eq_refl eq_refl
                 Hlead Hlf Hleft).
Qed.

Lemma requested_format_is_read_back_witness :
  (exists body,
     Parsing.buildPrompt (SigString "question -> answer") Sample.question
       = Normal (body ++ "answer" ++ ": [your response]")) /\
  Parsing.parseOutput (SigString "question -> answer") ("answer" ++ ": " ++ "Paris")
    = Normal [("answer", JStr "Paris")].
Proof.
  apply (requested_format_is_read_back "question -> answer" "answer" "Paris"
           {| inputs := ["question"]; outputs := ["answer"];
              types := [("question", "string"); ("answer", "string")] |}
           Sample.question);
    try (vm_compute; reflexivity).
  discriminate.
Defined.

(** ** What [parseStringSignature] yields *)

Lemma parseField_shape (field : string) :
  trim (fst (Signature.parseField field)) = fst (Signature.parseField field) /\
  snd (Signature.parseField field) <> EmptyString.
Proof.
  unfold Signature.parseField.
  destruct (split (trim field) ":") as [|name [|type rest]]; cbn [map fst snd].
  - split; [reflexivity|discriminate].
  - split; [apply trim_idempotent|discriminate].
  - split; [apply trim_idempotent|].
    destruct (trim type); cbn [truthy]; discriminate.
Qed.

Lemma split_not_empty (s sep : string) : split s sep <> [].
Proof.
  unfold split. destruct (split_go_not_empty sep s 0 EmptyString) as (a & l & E).
  rewrite E. discriminate.
Qed.

Lemma parseFields_shape (part : string) :
  Signature.parseFields part <> [] /\
  Forall (fun f => trim (fst f) = fst f /\ snd f <> EmptyString) (Signature.parseFields part).
Proof.
  unfold Signature.parseFields. split.
  - pose proof (split_not_empty part ",") as H. destruct (split part ","); [congruence|discriminate].
  - apply Forall_forall. intros f Hin. apply in_map_iff in Hin.
    destruct Hin as (field & <- & _). apply parseField_shape.
Qed.

Lemma lookup_app {A : Type} (k : string) (a b : list (string * A)) :
  lookup k (a ++ b)%list = match lookup k a with Some v => Some v | None => lookup k b end.
Proof.
  induction a as [|[k0 v0] a IH]; cbn; [reflexivity|].
  now destruct (String.eqb k k0).
Qed.

Lemma lookup_define {A : Type} (k k' : string) (v : A) (o : list (string * A)) :
  lookup k (define k' v o) = if String.eqb k k' then Some v else lookup k o.
Proof.
  destruct (String.eqb_spec k k') as [->|Hne].
  - apply lookup_define_same.
  - apply lookup_define_other. now apply String.eqb_neq.
Qed.

(** Defining a list of entries one after the other: the last entry of
    a name decides. *)
Lemma lookup_defined {A : Type} (k : string) (l : list (string * A)) :
  forall acc : list (string * A),
    lookup k (fold_left (fun o kv => define (fst kv) (snd kv) o) l acc)
      = match lookup k (rev l) with Some v => Some v | None => lookup k acc end.
Proof.
  induction l as [|[k0 v0] l IH]; intros acc; cbn [fold_left rev]; [reflexivity|].
  rewrite IH, lookup_app, lookup_define. cbn [fst snd lookup].
  destruct (lookup k (rev l)); [reflexivity|]. now destruct (String.eqb k k0).
Qed.

Lemma lookup_In {A : Type} (k : string) (v : A) (l : list (string * A)) :
  lookup k l = Some v -> In (k, v) l.
Proof.
  induction l as [|[k0 v0] l IH]; cbn; [discriminate|].
  destruct (String.eqb_spec k k0) as [->|]; [intros [= ->]; now left|auto].
Qed.

Lemma In_lookup {A : Type} (k : string) (l : list (string * A)) :
  In k (map fst l) -> exists v, lookup k l = Some v.
Proof. apply In_keys_lookup. Qed.

Lemma keys_defined {A : Type} (k : string) (l : list (string * A)) :
  forall acc : list (string * A),
    In k (keys (fold_left (fun o kv => define (fst kv) (snd kv) o) l acc)) <->
    In k (keys acc) \/ In k (map fst l).
Proof.
  induction l as [|[k0 v0] l IH]; intros acc; cbn [fold_left map In fst snd].
  - tauto.
  - rewrite IH, keys_define. intuition congruence.
Qed.

Lemma lookup_none {A : Type} (k : string) (l : list (string * A)) :
  ~ In k (keys l) -> lookup k l = None.
Proof.
  induction l as [|[k0 v0] l IH]; cbn; [reflexivity|]. intros H.
  destruct (String.eqb_spec k k0) as [->|]; [tauto|]. apply IH. tauto.
Qed.

Lemma lookup_rev {A : Type} (k : string) (l : list (string * A)) :
  NoDup (keys l) -> lookup k (rev l) = lookup k l.
Proof.
  induction l as [|[k0 v0] l IH]; cbn [rev keys map fst]; [reflexivity|].
  intros H. inversion H as [|x xs Hnotin Hnodup]; subst.
  rewrite lookup_app, (IH Hnodup). cbn [lookup].
  destruct (String.eqb_spec k k0) as [->|]; [|now destruct (lookup k l)].
  now rewrite (lookup_none k0 l Hnotin).
Qed.

Lemma NoDup_defined {A : Type} (l : list (string * A)) :
  forall acc : list (string * A),
    NoDup (keys acc) ->
    NoDup (keys (fold_left (fun o kv => define (fst kv) (snd kv) o) l acc)).
Proof.
  induction l as [|x l IH]; intros acc H; cbn [fold_left]; [exact H|].
  apply IH. now apply NoDup_keys_define.
Qed.

(** [{...a, ...b}]: a name of [b] has the value it has in [b], any other
    name the value it has in [a]. *)
Lemma lookup_spread {A : Type} (k : string) (a b : list (string * A)) :
  NoDup (keys b) ->
  lookup k (spread a b) = match lookup k b with Some v => Some v | None => lookup k a end.
Proof. intros H. unfold spread. now rewrite lookup_defined, (lookup_rev k b H). Qed.

Lemma lookup_fromEntries (k : string) (l : list (string * string)) :
  lookup k (Signature.fromEntries l) = lookup k (rev l).
Proof.
  unfold Signature.fromEntries. rewrite lookup_defined. now destruct (lookup k (rev l)).
Qed.

Lemma parseStringSignature_shape (s : string) (parsed : ParsedSignature) :
  Signature.parseStringSignature s = Normal parsed ->
  inputs parsed <> [] /\
  outputs parsed <> [] /\
  (forall name, In name (inputs parsed ++ outputs parsed) ->
     trim name = name /\
     exists type, lookup name (types parsed) = Some type /\ type <> EmptyString) /\
  (forall name, In name (keys (types parsed)) ->
     In name (inputs parsed ++ outputs parsed)).
Proof.
  unfold Signature.parseStringSignature.
  destruct (map trim (split s "->")) as [|inputPart [|outputPart rest]]; try discriminate.
  intros [= <-]. cbn [inputs outputs types].
  destruct (parseFields_shape inputPart) as [Hi Fi].
  destruct (parseFields_shape outputPart) as [Ho Fo].
  set (ins := Signature.parseFields inputPart) in *.
  set (outs := Signature.parseFields outputPart) in *.
  assert (Fall : Forall (fun f => trim (fst f) = fst f /\ snd f <> EmptyString)
                   (ins ++ outs)) by (apply Forall_app; auto).
  rewrite Forall_forall in Fall.
  split; [destruct ins; [congruence|discriminate]|].
  split; [destruct outs; [congruence|discriminate]|].
  split.
  - intros name Hin. rewrite <- map_app in Hin. apply in_map_iff in Hin.
    destruct Hin as ([n t] & <- & Hin). cbn [fst]. split; [apply (Fall _ Hin)|].
    rewrite lookup_spread
      by (unfold Signature.fromEntries; apply NoDup_defined; constructor).
    rewrite !lookup_fromEntries.
    assert (Hsome : forall l : list (string * string),
              (forall f, In f l -> In f (ins ++ outs)) ->
              forall t', lookup n (rev l) = Some t' -> t' <> EmptyString).
    { intros l Hsub t' E. apply lookup_In in E. apply in_rev in E.
      apply (Fall (n, t') (Hsub _ E)). }
    destruct (lookup n (rev outs)) as [t'|] eqn:Eo.
    + exists t'. split; [reflexivity|].
      apply (Hsome outs); [intros f Hf; apply in_or_app; now right|exact Eo].
    + destruct (lookup n (rev ins)) as [t'|] eqn:Ei.
      * exists t'. split; [reflexivity|].
        apply (Hsome ins); [intros f Hf; apply in_or_app; now left|exact Ei].
      * exfalso. apply in_app_or in Hin. destruct Hin as [Hin|Hin].
        -- destruct (In_keys_lookup n (rev ins)) as (v & E).
           { unfold keys. rewrite map_rev. apply -> in_rev.
             apply in_map_iff. exists (n, t). auto. }
           congruence.
        -- destruct (In_keys_lookup n (rev outs)) as (v & E).
           { unfold keys. rewrite map_rev. apply -> in_rev.
             apply in_map_iff. exists (n, t). auto. }
           congruence.
  - intros name Hin. unfold spread, Signature.fromEntries in Hin.
    rewrite keys_defined in Hin. destruct Hin as [Hin|Hin].
    + rewrite keys_defined in Hin. cbn [keys map In] in Hin.
      apply in_or_app. tauto.
    + apply In_keys_lookup in Hin. destruct Hin as (v & E).
      fold (Signature.fromEntries outs) in E. rewrite lookup_fromEntries in E.
      apply lookup_In in E. apply in_rev in E.
      apply in_or_app. right.
      apply in_map_iff. exists (name, v). auto.
Qed.

(** X14.  What [parseStringSignature] returns is well formed: there is
    at least one input and one output name; no name has white space at
    either end; every name has a type that is not the empty text; and
    the types are those of the names and of nothing else. *)
Theorem parsed_signature_is_well_formed (s : string) (parsed : ParsedSignature) :
  Signature.parseStringSignature s = Normal parsed ->
  inputs parsed <> [] /\
  outputs parsed <> [] /\
  (forall name, In name (inputs parsed ++ outputs parsed) ->
     trim name = name /\
     exists type, lookup name (types parsed) = Some type /\ type <> EmptyString) /\
  (forall name, In name (keys (types parsed)) ->
     In name (inputs parsed ++ outputs parsed)).
Proof. apply parseStringSignature_shape. Qed.

Lemma parsed_signature_is_well_formed_witness :
  let parsed := {| inputs := ["question"]; outputs := ["answer"; "confidence"];
                   types := [("question", "string"); ("answer", "string");
                             ("confidence", "float")] |} in
  Signature.parseStringSignature "question -> answer, confidence: float" = Normal parsed /\
  inputs parsed <> [] /\
  outputs parsed <> [] /\
  (forall name, In name (inputs parsed ++ outputs parsed) ->
     trim name = name /\
     exists type, lookup name (types parsed) = Some type /\ type <> EmptyString) /\
  (forall name, In name (keys (types parsed)) ->
     In name (inputs parsed ++ outputs parsed)).
Proof.
  intros parsed.
  split; [vm_compute; reflexivity|].
  apply (parsed_signature_is_well_formed "question -> answer, confidence: float" parsed).
  vm_compute; reflexivity.
Defined.

(** ** What [convertValue] yields *)

Lemma lowerChar_idempotent (c : ascii) : lowerChar (lowerChar c) = lowerChar c.
Proof. destruct c as [[] [] [] [] [] [] [] []]; reflexivity. Qed.

Lemma toLowerCase_idempotent (s : string) : toLowerCase (toLowerCase s) = toLowerCase s.
Proof.
  induction s as [|c s IH]; cbn; [reflexivity|]. now rewrite lowerChar_idempotent, IH.
Qed.

Lemma toLowerCase_empty (s : string) : toLowerCase s = EmptyString -> s = EmptyString.
Proof. destruct s; [reflexivity|discriminate]. Qed.

(** X15.  The name of a type is read in any letter case: [convertValue]
    makes of a value under a type what it makes of it under the
    lower-case spelling of the type. *)
Theorem type_names_are_read_in_any_case (value type : string) :
  Parsing.convertValue value (Some type)
    = Parsing.convertValue value (Some (toLowerCase type)).
Proof.
  unfold Parsing.convertValue.
  destruct type as [|c type]; [reflexivity|].
  change (truthy (String c type)) with true.
  change (truthy (toLowerCase (String c type))) with true. cbn [negb orb].
  rewrite toLowerCase_idempotent.
  destruct (String.eqb_spec (String c type) "string") as [E|_].
  - rewrite E. reflexivity.
  - destruct (String.eqb_spec (toLowerCase (String c type)) "string") as [E|_];
      [|reflexivity].
    rewrite E. reflexivity.
Qed.

Lemma splitClass_pieces (p : ascii -> bool) (s : string) :
  forall cur : string,
    allChars (fun c => negb (p c)) cur = true ->
    Forall (fun piece => allChars (fun c => negb (p c)) piece = true)
      (splitClass_go p cur s).
Proof.
  induction s as [|c s IH]; intros cur H; cbn [splitClass_go].
  - constructor; [exact H|constructor].
  - destruct (p c) eqn:E.
    + constructor; [exact H|]. now apply IH.
    + apply IH. rewrite allChars_append, H. cbn. now rewrite E.
Qed.

(** X16.  A list that is not JSON is split.  For a field of type [array]
    or [list] (in any letter case) whose text does not parse as JSON
    (and holds no \u escape, which could name a character outside the
    alphabet of this development),
    [convertValue] returns the pieces of the text between commas,
    semicolons and line feeds: each one a text that is not empty, has no
    white space at either end and holds none of the three separators. *)
Theorem list_that_is_not_json_is_split (value type : string) :
  toLowerCase type = "array" \/ toLowerCase type = "list" ->
  includes value "\u" = false ->
  JSON.parse value = None ->
  exists items : list string,
    Parsing.convertValue value (Some type) = JArr (map JStr items) /\
    Forall (fun item =>
              item <> EmptyString /\
              trim item = item /\
              allChars (fun c => negb (Parsing.isDelimiter c)) item = true) items.
Proof.
  intros Ht _ Hp.
  exists (filter truthy (map trim (splitClass Parsing.isDelimiter value))). split.
  - unfold Parsing.convertValue.
    assert (Hne : truthy type = true).
    { destruct type; [destruct Ht; discriminate|reflexivity]. }
    assert (Hs : String.eqb type "string" = false).
    { apply String.eqb_neq. intros ->. destruct Ht; discriminate. }
    rewrite Hne, Hs. cbn [negb orb].
    destruct Ht as [-> | ->]; cbn; now rewrite Hp.
  - apply Forall_forall. intros item Hin. apply filter_In in Hin.
    destruct Hin as [Hin Hitem]. apply in_map_iff in Hin.
    destruct Hin as (piece & <- & Hin). split; [|split].
    + intros E. rewrite E in Hitem. discriminate.
    + apply trim_idempotent.
    + apply allChars_trim.
      pose proof (splitClass_pieces Parsing.isDelimiter value EmptyString eq_refl) as H.
      rewrite Forall_forall in H. now apply H.
Qed.

Lemma list_that_is_not_json_is_split_witness :
  exists items : list string,
    Parsing.convertValue "item1, item2; item3" (Some "List") = JArr (map JStr items) /\
    Forall (fun item =>
              item <> EmptyString /\
              trim item = item /\
              allChars (fun c => negb (Parsing.isDelimiter c)) item = true) items.
Proof.
  apply (list_that_is_not_json_is_split "item1, item2; item3" "List").
  - right. reflexivity.
  - reflexivity.
  - vm_compute; reflexivity.
Defined.

(** A text that begins with a brace or a bracket parses, if at all, as
    an object or an array. *)
Lemma parse_of_jsonLike (value : string) (v : JSValue) :
  Parsing.jsonLike value = true ->
  JSON.parse value = Some v ->
  match v with JObj _ | JArr _ => True | _ => False end.
Proof.
  unfold Parsing.jsonLike, JSON.parse. intros Hlike.
  destruct value as [|c rest]; [discriminate|].
  cbn [JSON.parseValue String.length].
  destruct (Ascii.eqb_spec c "{") as [->|Hbrace].
  - change (JSON.skipSpace (String "{" rest)) with (String "{" rest).
    cbn [Ascii.eqb].
    change (Ascii.eqb "{" "{") with true. cbv iota.
    destruct (JSON.skipSpace rest) as [|d s2]; [discriminate|].
    destruct (Ascii.eqb d "}").
    + destruct (JSON.skipSpace s2); [|discriminate]. now intros [= <-].
    + destruct (JSON.parseMembers _ _ rest []) as [[o s3]|]; [|discriminate].
      destruct (JSON.skipSpace s3); [|discriminate]. now intros [= <-].
  - destruct (Ascii.eqb_spec c "[") as [->|Hbracket].
    + change (JSON.skipSpace (String "[" rest)) with (String "[" rest).
      change (Ascii.eqb "[" "{") with false. change (Ascii.eqb "[" "[") with true.
      cbv iota.
      destruct (JSON.skipSpace rest) as [|d s2]; [discriminate|].
      destruct (Ascii.eqb d "]").
      * destruct (JSON.skipSpace s2); [|discriminate]. now intros [= <-].
      * destruct (JSON.parseElements _ _ rest []) as [[l s3]|]; [|discriminate].
        destruct (JSON.skipSpace s3); [|discriminate]. now intros [= <-].
    + exfalso. cbn [startsWith] in Hlike.
      apply orb_true_iff in Hlike. destruct Hlike as [H|H];
        apply andb_true_iff in H; destruct H as [H _];
        rewrite andb_true_r in H; apply Ascii.eqb_eq in H; congruence.
Qed.

Lemma autoDetect_values (value : string) :
  value <> EmptyString ->
  match Parsing.autoDetect value with
  | JNull | JBool _ | JNum _ => False
  | JStr s => s <> EmptyString
  | JArr _ | JObj _ => True
  end.
Proof.
  intros Hne. unfold Parsing.autoDetect, Parsing.parseOrRaw.
  destruct (Parsing.jsonLike value) eqn:Hlike; [|exact Hne].
  destruct (JSON.parse value) as [v|] eqn:Hp; [|exact Hne].
  pose proof (parse_of_jsonLike value v Hlike Hp) as H.
  destruct v; tauto.
Qed.

Lemma tryPattern_truthy (text : string) (p : flags * regex) (value : string) :
  Parsing.tryPattern text p = Some value -> value <> EmptyString.
Proof.
  unfold Parsing.tryPattern.
  destruct (match_ (fst p) (snd p) text) as [m|]; [|discriminate].
  destruct (m_group1 m) as [g|]; [|discriminate].
  destruct (truthy g); [|discriminate].
  destruct (trim _) eqn:E; cbn [truthy]; [discriminate|]. intros [= <-]. discriminate.
Qed.

Lemma firstPattern_truthy (text : string) (ps : list (flags * regex)) (value : string) :
  Parsing.firstPattern text ps = Some value -> value <> EmptyString.
Proof.
  induction ps as [|p ps IH]; cbn [Parsing.firstPattern]; [discriminate|].
  destruct (Parsing.tryPattern text p) as [v|] eqn:E; [|exact IH].
  intros [= <-]. now apply (tryPattern_truthy text p).
Qed.

Lemma simpleAnswer_truthy (text name value : string) :
  Parsing.simpleAnswer text name = Some value -> value <> EmptyString.
Proof.
  unfold Parsing.simpleAnswer. destruct (_ && _ && _); [|discriminate].
  destruct (removeAll _ _ _) eqn:E; cbn [truthy]; [discriminate|].
  intros [= <-]. discriminate.
Qed.

(** X17.  What a field without a type of its own can be.  For a field
    (of an ordinary name) that is untyped or of type [string],
    [extractFieldValue] returns null,
    a text that is not empty, or an object or array read from JSON; never
    the empty text, a number or a boolean. *)
Theorem untyped_field_is_null_text_or_json (text name : string) (type : option string) :
  literalName name = true ->
  type = None \/ type = Some EmptyString \/ type = Some "string" ->
  match Parsing.extractFieldValue text name type with
  | JNull | JArr _ | JObj _ => True
  | JStr s => s <> EmptyString
  | JBool _ | JNum _ => False
  end.
Proof.
  intros _ Htype.
  assert (Hconv : forall value, Parsing.convertValue value type = Parsing.autoDetect value).
  { intros value. destruct Htype as [-> | [-> | ->]]; reflexivity. }
  unfold Parsing.extractFieldValue.
  destruct (Parsing.simpleAnswer text name) as [value|] eqn:Es.
  - rewrite Hconv. pose proof (autoDetect_values value (simpleAnswer_truthy _ _ _ Es)) as H.
    destruct (Parsing.autoDetect value); tauto.
  - destruct (Parsing.firstPattern text (Parsing.patterns name)) as [value|] eqn:Ep;
      [|exact I].
    rewrite Hconv. pose proof (autoDetect_values value (firstPattern_truthy _ _ _ Ep)) as H.
    destruct (Parsing.autoDetect value); tauto.
Qed.

Lemma untyped_field_is_null_text_or_json_witness :
  match Parsing.extractFieldValue ("answer: Paris" ++ NLs ++ "note: 42") "note" None with
  | JNull | JArr _ | JObj _ => True
  | JStr s => s <> EmptyString
  | JBool _ | JNum _ => False
  end.
Proof.
  apply (untyped_field_is_null_text_or_json
           ("answer: Paris" ++ NLs ++ "note: 42") "note" None).
  - reflexivity.
  - left. reflexivity.
Defined.

(** ** The format of a signature class is parsed back *)

Lemma split_go_comma (p q : string) :
  forall cur : string,
    includes p "," = false ->
    split_go "," 0 cur (p ++ "," ++ q) = (cur ++ p) :: split_go "," 0 EmptyString q.
Proof.
  induction p as [|c p IH]; intros cur H.
  - cbn. now rewrite append_empty_r.
  - cbn [includes] in H. apply orb_false_iff in H. destruct H as [H1 H2].
    change (String c p ++ "," ++ q) with (String c (p ++ "," ++ q)).
    cbn [split_go].
    assert (E : startsWith (String c (p ++ "," ++ q)) "," = false).
    { cbn [startsWith] in H1 |- *. exact H1. }
    rewrite E, (IH _ H2), append_assoc. reflexivity.
Qed.

Lemma word_is_no_space (c : ascii) : isWordChar c = true -> isWhiteSpace c = false.
Proof.
  destruct c as [[] [] [] [] [] [] [] []]; vm_compute; intros H;
    first [reflexivity|discriminate H].
Qed.

Lemma allChars_weaken (p q : ascii -> bool) (s : string) :
  (forall c, p c = true -> q c = true) -> allChars p s = true -> allChars q s = true.
Proof.
  intros Hpq. induction s as [|c s IH]; cbn; [auto|]. intros H.
  apply andb_true_iff in H. destruct H as [H1 H2]. now rewrite (Hpq c H1), (IH H2).
Qed.

Lemma reverse_not_empty (s : string) : s <> EmptyString -> reverse s <> EmptyString.
Proof.
  destruct s as [|c s]; [congruence|]. intros _. rewrite reverse_cons.
  now destruct (reverse s).
Qed.

Lemma noLeadingSpace_of (p : ascii -> bool) (s : string) :
  (forall c, p c = true -> isWhiteSpace c = false) ->
  allChars p s = true -> noLeadingSpace s = true.
Proof.
  intros Hp. destruct s as [|c s]; cbn; [auto|]. intros H.
  apply andb_true_iff in H. destruct H as [H _]. now rewrite (Hp c H).
Qed.

Lemma identifier_trim (name : string) : isIdentifier name = true -> trim name = name.
Proof.
  unfold isIdentifier. intros H. apply andb_true_iff in H. destruct H as [_ H].
  apply trim_fixed.
  - now apply (noLeadingSpace_of isWordChar _ word_is_no_space).
  - apply (noLeadingSpace_of isWordChar _ word_is_no_space). now rewrite allChars_reverse.
Qed.

Lemma identifier_without (name : string) (c : ascii) :
  isWordChar c = false -> isIdentifier name = true ->
  includes name (String c EmptyString) = false.
Proof.
  unfold isIdentifier. intros Hc H. apply andb_true_iff in H. destruct H as [_ H].
  now apply (allChars_no_char isWordChar).
Qed.

Lemma parseField_identifier (name : string) :
  isIdentifier name = true ->
  Signature.parseField name = (name, "string") /\
  Signature.parseField (" " ++ name) = (name, "string").
Proof.
  intros H.
  assert (E : Signature.parseField name = (name, "string")).
  { unfold Signature.parseField. rewrite (identifier_trim name H). unfold split.
    rewrite (split_go_without ":" name EmptyString (identifier_without name ":" eq_refl H)).
    cbn [append map]. now rewrite (identifier_trim name H). }
  split; [exact E|]. rewrite <- E. reflexivity.
Qed.

Lemma join_cons (a b : string) (l : list string) (sep : string) :
  join (a :: b :: l) sep = a ++ sep ++ join (b :: l) sep.
Proof. reflexivity. Qed.

(** The pieces of a list of identifiers joined with ", ". *)
Lemma split_joined (names : list string) :
  Forall (fun name => isIdentifier name = true) names ->
  forall (name : string) (cur : string),
    isIdentifier name = true ->
    split_go "," 0 cur (join (name :: names) ", ")
      = (cur ++ name) :: map (fun n => " " ++ n) names.
Proof.
  induction 1 as [|next names Hnext Hnames IH]; intros name cur Hname.
  - cbn [join String.concat map].
    now rewrite (split_go_without "," name cur (identifier_without name "," eq_refl Hname)).
  - rewrite join_cons.
    change (name ++ ", " ++ join (next :: names) ", ")
      with (name ++ "," ++ String " " (join (next :: names) ", ")).
    rewrite (split_go_comma name _ cur (identifier_without name "," eq_refl Hname)).
    cbn [map]. f_equal.
    change (split_go "," 0 EmptyString (String " " (join (next :: names) ", ")))
      with (split_go "," 0 " " (join (next :: names) ", ")).
    now rewrite (IH next " " Hnext).
Qed.

Lemma parseFields_joined (name : string) (names : list string) :
  Forall (fun n => isIdentifier n = true) (name :: names) ->
  Signature.parseFields (join (name :: names) ", ")
    = map (fun n => (n, "string")) (name :: names).
Proof.
  intros H. inversion H as [|x xs Hname Hnames]; subst.
  unfold Signature.parseFields, split. rewrite (split_joined names Hnames name _ Hname).
  cbn [append map]. f_equal; [apply (parseField_identifier name Hname)|].
  rewrite map_map. apply map_ext_in. intros n Hin.
  rewrite Forall_forall in Hnames. apply (parseField_identifier n (Hnames n Hin)).
Qed.

Lemma allChars_join (p : ascii -> bool) (sep : string) (names : list string) :
  allChars p sep = true ->
  Forall (fun n => allChars p n = true) names ->
  allChars p (join names sep) = true.
Proof.
  intros Hsep. induction 1 as [|name names Hname Hnames IH]; [reflexivity|].
  destruct names as [|next names]; [exact Hname|].
  rewrite join_cons, !allChars_append, Hname, Hsep. exact IH.
Qed.

Lemma no_dash_no_arrow (s : string) :
  allChars (fun c => negb (Ascii.eqb "-" c)) s = true -> includes s "->" = false.
Proof.
  induction s as [|c s IH]; cbn; [reflexivity|]. intros H.
  apply andb_true_iff in H. destruct H as [Hc Hs]. apply negb_true_iff in Hc.
  now rewrite Hc, (IH Hs).
Qed.

Lemma joined_has_no_arrow (names : list string) :
  Forall (fun n => isIdentifier n = true) names ->
  allChars (fun c => negb (Ascii.eqb "-" c)) (join names ", ") = true.
Proof.
  intros H. apply allChars_join; [reflexivity|].
  apply Forall_forall. intros n Hn. rewrite Forall_forall in H.
  specialize (H n Hn). unfold isIdentifier in H. apply andb_true_iff in H.
  destruct H as [_ H]. apply (allChars_weaken isWordChar); [|exact H].
  intros c. destruct c as [[] [] [] [] [] [] [] []]; vm_compute; intros Hc;
    first [reflexivity|discriminate Hc].
Qed.

Lemma joined_is_trimmed (name : string) (names : list string) :
  Forall (fun n => isIdentifier n = true) (name :: names) ->
  noLeadingSpace (join (name :: names) ", ") = true /\
  noLeadingSpace (reverse (join (name :: names) ", ")) = true /\
  join (name :: names) ", " <> EmptyString.
Proof.
  revert name. induction names as [|next names IH]; intros name H;
    inversion H as [|x xs Hname Hnames]; subst.
  - cbn [join String.concat].
    assert (Hne : name <> EmptyString).
    { intros ->. discriminate. }
    pose proof (identifier_trim name Hname) as Ht.
    split; [rewrite <- Ht; apply trim_noLeadingSpace|].
    split; [rewrite <- Ht; apply trim_noTrailingSpace|exact Hne].
  - destruct (IH next Hnames) as (_ & Hend & Hne).
    assert (Hn : name <> EmptyString).
    { intros ->. discriminate. }
    rewrite join_cons. split; [|split].
    + rewrite noLeadingSpace_append by exact Hn.
      rewrite <- (identifier_trim name Hname). apply trim_noLeadingSpace.
    + rewrite <- append_assoc. rewrite reverse_append.
      rewrite noLeadingSpace_append by (now apply reverse_not_empty). exact Hend.
    + destruct name; [congruence|discriminate].
Qed.

Lemma trim_padded (x : string) :
  noLeadingSpace x = true ->
  noLeadingSpace (reverse x) = true ->
  x <> EmptyString ->
  trim (x ++ " ") = x /\ trim (" " ++ x) = x.
Proof.
  intros H1 H2 Hne. split.
  - unfold trim. rewrite trimStart_fixed by (now rewrite noLeadingSpace_append).
    unfold trimEnd. rewrite reverse_append.
    change (reverse " " ++ reverse x) with (String " " (reverse x)).
    cbn [trimStart]. change (isWhiteSpace " ") with true. cbv iota.
    now rewrite (trimStart_fixed _ H2), reverse_involutive.
  - change (trim (" " ++ x)) with (trim x). now apply trim_fixed.
Qed.

(** X18.  The format of a signature class is parsed back, without the
    types.  For a class whose input and output fields (at least one of
    each) are named by identifiers, [parseStringSignature] reads from the
    text of [getPromptFormat] the same input names and the same output
    names, in the same order; every field comes back with the type
    [string], whatever type the class declares for it. *)
Theorem prompt_format_is_parsed_back (c : SignatureClass) :
  keys (getInputFields c) <> [] ->
  keys (getOutputFields c) <> [] ->
  Forall (fun name => isIdentifier name = true)
    (keys (getInputFields c) ++ keys (getOutputFields c)) ->
  exists parsed : ParsedSignature,
    Signature.parseStringSignature (Signature.getPromptFormat c) = Normal parsed /\
    inputs parsed = keys (getInputFields c) /\
    outputs parsed = keys (getOutputFields c) /\
    (forall name type, lookup name (types parsed) = Some type -> type = "string").
Proof.
  unfold Signature.getPromptFormat.
  destruct (keys (getInputFields c)) as [|i ins]; [congruence|].
  destruct (keys (getOutputFields c)) as [|o outs]; [congruence|].
  intros _ _ Hall. apply Forall_app in Hall. destruct Hall as [Hins Houts].
  set (I := join (i :: ins) ", "). set (O := join (o :: outs) ", ").
  destruct (joined_is_trimmed i ins Hins) as (Hi1 & Hi2 & Hi3).
  destruct (joined_is_trimmed o outs Houts) as (Ho1 & Ho2 & Ho3).
  fold I in Hi1, Hi2, Hi3. fold O in Ho1, Ho2, Ho3.
  assert (Hsplit : map trim (split (I ++ " -> " ++ O) "->") = [I; O]).
  { change (I ++ " -> " ++ O) with (I ++ " " ++ "->" ++ " " ++ O).
    rewrite <- (append_assoc I " "). unfold split.
    rewrite (split_go_arrow (I ++ " ") (" " ++ O) EmptyString).
    - rewrite (split_go_without "->" (" " ++ O) EmptyString).
      + cbn [append map].
        change (String " " O) with (" " ++ O).
        now rewrite (proj1 (trim_padded I Hi1 Hi2 Hi3)), (proj2 (trim_padded O Ho1 Ho2 Ho3)).
      + apply no_dash_no_arrow. rewrite allChars_append. unfold O.
        now rewrite (joined_has_no_arrow (o :: outs) Houts).
    - apply no_dash_no_arrow. rewrite allChars_append. unfold I.
      now rewrite (joined_has_no_arrow (i :: ins) Hins). }
  unfold Signature.parseStringSignature. rewrite Hsplit.
  unfold I, O. rewrite (parseFields_joined i ins Hins), (parseFields_joined o outs Houts).
  eexists. split; [reflexivity|]. cbn [inputs outputs types].
  split; [now rewrite map_map, map_id|]. split; [now rewrite map_map, map_id|].
  intros name type E.
  rewrite lookup_spread in E
    by (unfold Signature.fromEntries; apply NoDup_defined; constructor).
  rewrite !lookup_fromEntries in E.
  assert (Hstring : forall l : list string,
            lookup name (rev (map (fun n => (n, "string")) l)) = Some type ->
            type = "string").
  { intros l El. apply lookup_In in El. apply in_rev in El. apply in_map_iff in El.
    destruct El as (n & [= _ <-] & _). reflexivity. }
  destruct (lookup name (rev (map (fun n => (n, "string")) (o :: outs)))) eqn:Eo.
  - injection E as <-. now apply (Hstring (o :: outs)).
  - now apply (Hstring (i :: ins)).
Qed.

Lemma prompt_format_is_parsed_back_witness :
  exists parsed : ParsedSignature,
    Signature.parseStringSignature (Signature.getPromptFormat Sample.Quote) = Normal parsed /\
    inputs parsed = ["question"] /\
    outputs parsed = ["symbol"; "price"] /\
    (forall name type, lookup name (types parsed) = Some type -> type = "string").
Proof.
  apply (prompt_format_is_parsed_back Sample.Quote).
  - discriminate.
  - discriminate.
  - repeat constructor.
Defined.

(** ** The configured model *)

Lemma getDefaultLM_configure {World : Type} (options : DSPyConfig.Options World)
  (s : DSPyConfig.State World) :
  fst (DSPyConfig.getDefaultLM (DSPyConfig.configure options s))
    = match DSPyConfig.o_lm World options with
      | Some m => Normal m
      | None => fst (DSPyConfig.getDefaultLM s)
      end.
Proof.
  unfold DSPyConfig.getDefaultLM, DSPyConfig.configure.
  destruct s as [config|]; cbn [DSPyConfig.getInstance];
    destruct (DSPyConfig.o_lm World options); cbn;
    try reflexivity; now destruct (DSPyConfig._defaultLM World config).
Qed.

Lemma getDefaultLM_kept {World : Type} (after : list (DSPyConfig.Options World)) :
  Forall (fun o => DSPyConfig.o_lm World o = None) after ->
  forall s : DSPyConfig.State World,
    fst (DSPyConfig.getDefaultLM (fold_left (fun s o => DSPyConfig.configure o s) after s))
      = fst (DSPyConfig.getDefaultLM s).
Proof.
  induction 1 as [|o after Ho Hafter IH]; intros s; cbn [fold_left]; [reflexivity|].
  now rewrite IH, getDefaultLM_configure, Ho.
Qed.

(** X19.  The default model is the one configured last.  After any
    number of calls of [configure], [getDefaultLM] returns the model of
    the last call that gave one; as long as no call has given one, it
    throws the error that asks for [configure({ lm: ... })]. *)
Theorem default_model_is_the_last_configured {World : Type}
  (calls : list (DSPyConfig.Options World)) :
  let state := fold_left (fun s o => DSPyConfig.configure o s) calls DSPyConfig.unset in
  (Forall (fun o => DSPyConfig.o_lm World o = None) calls ->
   fst (DSPyConfig.getDefaultLM state) = Throw DSPyConfig.notConfigured) /\
  (forall before o after m,
     calls = (before ++ o :: after)%list ->
     DSPyConfig.o_lm World o = Some m ->
     Forall (fun o' => DSPyConfig.o_lm World o' = None) after ->
     fst (DSPyConfig.getDefaultLM state) = Normal m).
Proof.
  cbn zeta. split.
  - intros H. now rewrite (getDefaultLM_kept calls H).
  - intros before o after m -> Ho Hafter.
    rewrite fold_left_app. cbn [fold_left].
    now rewrite (getDefaultLM_kept after Hafter), getDefaultLM_configure, Ho.
Qed.

Lemma default_model_is_the_last_configured_witness :
  let first := {| DSPyConfig.o_lm := Some (Sample.always "one");
                  DSPyConfig.o_cache := None; DSPyConfig.o_tracing := None |} in
  let second := {| DSPyConfig.o_lm := Some (Sample.always "two");
                   DSPyConfig.o_cache := None; DSPyConfig.o_tracing := None |} in
  let third := {| DSPyConfig.o_lm := None;
                  DSPyConfig.o_cache := Some false; DSPyConfig.o_tracing := None |} in
  let state := fold_left (fun s o => DSPyConfig.configure o s)
                 [first; second; third] DSPyConfig.unset in
  fst (DSPyConfig.getDefaultLM state) = Normal (Sample.always "two").
Proof.
  intros first second third state.
  apply (proj2 (default_model_is_the_last_configured [first; second; third])
           [first] second [third] (Sample.always "two")).
  - reflexivity.
  - reflexivity.
  - repeat constructor.
Defined.

Lemma flags_configure {World : Type} (options : DSPyConfig.Options World)
  (s : DSPyConfig.State World) :
  fst (DSPyConfig.isCacheEnabled (DSPyConfig.configure options s))
    = match DSPyConfig.o_cache World options with
      | Some b => b
      | None => fst (DSPyConfig.isCacheEnabled s)
      end /\
  fst (DSPyConfig.isTracingEnabled (DSPyConfig.configure options s))
    = match DSPyConfig.o_tracing World options with
      | Some b => b
      | None => fst (DSPyConfig.isTracingEnabled s)
      end.
Proof.
  unfold DSPyConfig.isCacheEnabled, DSPyConfig.isTracingEnabled, DSPyConfig.configure.
  destruct s as [config|]; cbn [DSPyConfig.getInstance];
    destruct (DSPyConfig.o_cache World options);
    destruct (DSPyConfig.o_tracing World options); split; reflexivity.
Qed.

Lemma flags_kept {World : Type} (after : list (DSPyConfig.Options World)) :
  forall s : DSPyConfig.State World,
    (Forall (fun o => DSPyConfig.o_cache World o = None) after ->
     fst (DSPyConfig.isCacheEnabled
            (fold_left (fun s o => DSPyConfig.configure o s) after s))
       = fst (DSPyConfig.isCacheEnabled s)) /\
    (Forall (fun o => DSPyConfig.o_tracing World o = None) after ->
     fst (DSPyConfig.isTracingEnabled
            (fold_left (fun s o => DSPyConfig.configure o s) after s))
       = fst (DSPyConfig.isTracingEnabled s)).
Proof.
  induction after as [|o after IH]; intros s; cbn [fold_left]; [split; reflexivity|].
  destruct (IH (DSPyConfig.configure o s)) as [IHc IHt].
  destruct (flags_configure o s) as [Ec Et].
  split; intros H; inversion H as [|x xs Ho Hafter]; subst.
  - rewrite (IHc Hafter), Ec, Ho. reflexivity.
  - rewrite (IHt Hafter), Et, Ho. reflexivity.
Qed.

(** X20.  The switches keep what was said last.  Caching is on and
    tracing is off as long as no call of [configure] has named the
    switch; after that each switch has the value of the last call that
    named it, whatever else later calls set. *)
Theorem switches_keep_the_last_setting {World : Type}
  (calls : list (DSPyConfig.Options World)) :
  let state := fold_left (fun s o => DSPyConfig.configure o s) calls DSPyConfig.unset in
  (Forall (fun o => DSPyConfig.o_cache World o = None) calls ->
   fst (DSPyConfig.isCacheEnabled state) = true) /\
  (Forall (fun o => DSPyConfig.o_tracing World o = None) calls ->
   fst (DSPyConfig.isTracingEnabled state) = false) /\
  (forall before o after b,
     calls = (before ++ o :: after)%list ->
     DSPyConfig.o_cache World o = Some b ->
     Forall (fun o' => DSPyConfig.o_cache World o' = None) after ->
     fst (DSPyConfig.isCacheEnabled state) = b) /\
  (forall before o after b,
     calls = (before ++ o :: after)%list ->
     DSPyConfig.o_tracing World o = Some b ->
     Forall (fun o' => DSPyConfig.o_tracing World o' = None) after ->
     fst (DSPyConfig.isTracingEnabled state) = b).
Proof.
  cbn zeta. split; [|split; [|split]].
  - intros H. now rewrite (proj1 (flags_kept calls _) H).
  - intros H. now rewrite (proj2 (flags_kept calls _) H).
  - intros before o after b -> Ho Hafter. rewrite fold_left_app. cbn [fold_left].
    now rewrite (proj1 (flags_kept after _) Hafter), (proj1 (flags_configure o _)), Ho.
  - intros before o after b -> Ho Hafter. rewrite fold_left_app. cbn [fold_left].
    now rewrite (proj2 (flags_kept after _) Hafter), (proj2 (flags_configure o _)), Ho.
Qed.

Lemma switches_keep_the_last_setting_witness :
  let first := {| DSPyConfig.o_lm := Some (Sample.always "one");
                  DSPyConfig.o_cache := Some false; DSPyConfig.o_tracing := None |} in
  let second := {| DSPyConfig.o_lm := None;
                   DSPyConfig.o_cache := None; DSPyConfig.o_tracing := None |} in
  let state := fold_left (fun s o => DSPyConfig.configure o s)
                 [first; second] DSPyConfig.unset in
  fst (DSPyConfig.isTracingEnabled state) = false /\
  fst (DSPyConfig.isCacheEnabled state) = false.
Proof.
  intros first second state.
  destruct (switches_keep_the_last_setting [first; second]) as (_ & Tracing & Cache & _).
  split.
  - apply Tracing. repeat constructor.
  - apply (Cache [] first [second] false).
    + reflexivity.
    + reflexivity.
    + repeat constructor.
Defined.

(** ** Constructing a module *)

(** X21.  A module needs a model.  After any number of calls of
    [configure], [new RespAct(...)] and [new Predict(signature)] throw
    the error of [getDefaultLM] as long as no call has given a model, and
    else yield the module that talks to the model of the last call that
    gave one; [new Predict(signature, lm)] takes the model it is given,
    configured or not. *)
Theorem modules_take_the_configured_model {World : Type}
  (calls : list (DSPyConfig.Options World))
  (sig : SignatureT) (toolset : list (string * ToolDefinition World)) (limit : option Decimal) :
  let state := fold_left (fun s o => DSPyConfig.configure o s) calls DSPyConfig.unset in
  (Forall (fun o => DSPyConfig.o_lm World o = None) calls ->
   fst (newRespAct sig toolset limit state) = Throw DSPyConfig.notConfigured /\
   fst (newPredict sig None state) = Throw DSPyConfig.notConfigured) /\
  (forall before o after m,
     calls = (before ++ o :: after)%list ->
     DSPyConfig.o_lm World o = Some m ->
     Forall (fun o' => DSPyConfig.o_lm World o' = None) after ->
     fst (newRespAct sig toolset limit state) = Normal (new sig m toolset limit) /\
     fst (newPredict sig None state) = Normal {| p_signature := sig; p_lm := m |}) /\
  (forall m,
     fst (newPredict sig (Some m) state) = Normal {| p_signature := sig; p_lm := m |}).
Proof.
  cbn zeta. unfold newRespAct, newPredict, moduleLM.
  split; [|split].
  - intros H. pose proof (getDefaultLM_kept calls H DSPyConfig.unset) as E.
    destruct (DSPyConfig.getDefaultLM (fold_left _ calls _)) as [[m|e] s'];
      cbn [fst] in *; [discriminate|]. injection E as ->. auto.
  - intros before o after m -> Ho Hafter.
    assert (E : fst (DSPyConfig.getDefaultLM
                       (fold_left (fun s o => DSPyConfig.configure o s)
                          (before ++ o :: after) DSPyConfig.unset)) = Normal m).
    { rewrite fold_left_app. cbn [fold_left].
      now rewrite (getDefaultLM_kept after Hafter), getDefaultLM_configure, Ho. }
    destruct (DSPyConfig.getDefaultLM (fold_left _ (before ++ o :: after)%list _))
      as [[m'|e] s']; cbn [fst] in *; [|discriminate]. injection E as ->. auto.
  - reflexivity.
Qed.

Lemma modules_take_the_configured_model_witness :
  let sig := SigString "question -> answer" in
  let first := {| DSPyConfig.o_lm := Some (Sample.always "one");
                  DSPyConfig.o_cache := None; DSPyConfig.o_tracing := None |} in
  let second := {| DSPyConfig.o_lm := None;
                   DSPyConfig.o_cache := Some false; DSPyConfig.o_tracing := None |} in
  let state := fold_left (fun s o => DSPyConfig.configure o s)
                 [first; second] DSPyConfig.unset in
  fst (newRespAct sig [("add", Sample.add)] None state)
    = Normal (new sig (Sample.always "one") [("add", Sample.add)] None) /\
  fst (newPredict sig None state)
    = Normal {| p_signature := sig; p_lm := Sample.always "one" |}.
Proof.
  intros sig first second state.
  destruct (modules_take_the_configured_model [first; second] sig
              [("add", Sample.add)] None) as (_ & Configured & _).
  apply (Configured [] first [second] (Sample.always "one")).
  - reflexivity.
  - reflexivity.
  - repeat constructor.
Defined.

(** ** Predict and ChainOfThought *)

Lemma declared_string_signature (s : string) (names : list string) :
  declaredOutputs (SigString s) = Normal names ->
  noSignature (SigString s) = false /\
  exists parsed, Signature.parseStringSignature s = Normal parsed.
Proof.
  cbn [declaredOutputs].
  destruct (Signature.parseStringSignature s) as [parsed|e] eqn:E; [|discriminate].
  intros _. split; [|eauto]. destruct s; [discriminate|reflexivity].
Qed.

Lemma declared_signature_works (sig : SignatureT) (names : list string)
  (inputs : JSObject) :
  declaredOutputs sig = Normal names ->
  noSignature sig = false /\
  (exists prompt, Parsing.buildPrompt sig inputs = Normal prompt) /\
  (forall reply, exists parsed, Parsing.parseOutput sig reply = Normal parsed).
Proof.
  destruct sig as [s|c]; intros H.
  - destruct (declared_string_signature s names H) as (Hs & parsed & E).
    split; [exact Hs|]. cbn [Parsing.buildPrompt Parsing.parseOutput].
    unfold Parsing.buildPromptFromString, Parsing.parseOutputFromString. rewrite E.
    destruct parsed as [ins outs tys]. split; eauto.
  - split; [reflexivity|]. cbn [Parsing.buildPrompt Parsing.parseOutput].
    unfold Parsing.parseOutputFromClass. split; eauto.
Qed.



(** X23.  [ChainOfThought.forward] keeps the reasoning.  When it returns
    a prediction it has called the model exactly twice: first with the
    prompt of [buildPrompt] and the request to reason step by step, then
    with the same prompt, the reply to the first call as the reasoning,
    and the request for the final answer.  The prediction holds what
    [parseOutput] reads from the second reply, and under [reasoning] the
    first reply, also where the signature has an output of that name. *)
Theorem chain_of_thought_keeps_the_reasoning {World : Type} (self : Predict World)
  (inputs : JSObject) (w : World) (p : Prediction) :
  fst (fst (ChainOfThought_forward self inputs w)) = Normal p ->
  exists (base reasoning final : string) (parsed : JSObject),
    Predict_buildPrompt self inputs = Normal base /\
    snd (ChainOfThought_forward self inputs w)
      = [Generate
           (base ++ NLs ++ NLs ++ "Let's think step by step. Please provide your reasoning:")
           (Reply reasoning);
         Generate
           (base ++ NLs ++ NLs ++ "Reasoning: " ++ reasoning ++ NLs ++ NLs
              ++ "Based on this reasoning, provide your final answer:")
           (Reply final)] /\
    Predict_parseOutput self final = Normal parsed /\
    lookup "reasoning" (_data p) = Some (JStr reasoning) /\
    (forall k, k <> "reasoning" -> lookup k (_data p) = lookup k parsed).
Proof.
  unfold ChainOfThought_forward, buildReasoningPrompt, buildFinalPrompt.
  destruct (Predict_buildPrompt self inputs) as [base|e]; [|discriminate].
  destruct (generate (p_lm self) _ w) as [[reasoning|e] w1]; [|discriminate].
  destruct (generate (p_lm self) _ w1) as [[final|e] w2]; [|discriminate].
  destruct (Predict_parseOutput self final) as [parsed|e] eqn:Ep; [|discriminate].
  cbn [fst snd app]. intros [= <-].
  exists base, reasoning, final, parsed. cbn [_data].
  split; [reflexivity|]. split; [reflexivity|]. split; [exact Ep|]. split.
  - apply lookup_define_same.
  - intros k Hk. apply lookup_define_other. now apply String.eqb_neq.
Qed.

Lemma chain_of_thought_keeps_the_reasoning_witness :
  let self := {| p_signature := SigString "question -> answer";
                 p_lm := Sample.scripted ["Paris is the capital."; "answer: Paris"] |} in
  let p := {| _data := [("answer", JStr "Paris");
                        ("reasoning", JStr "Paris is the capital.")] |} in
  fst (fst (ChainOfThought_forward self Sample.question 0)) = Normal p /\
  exists (base reasoning final : string) (parsed : JSObject),
    Predict_buildPrompt self Sample.question = Normal base /\
    snd (ChainOfThought_forward self Sample.question 0)
      = [Generate
           (base ++ NLs ++ NLs ++ "Let's think step by step. Please provide your reasoning:")
           (Reply reasoning);
         Generate
           (base ++ NLs ++ NLs ++ "Reasoning: " ++ reasoning ++ NLs ++ NLs
              ++ "Based on this reasoning, provide your final answer:")
           (Reply final)] /\
    Predict_parseOutput self final = Normal parsed /\
    lookup "reasoning" (_data p) = Some (JStr reasoning) /\
    (forall k, k <> "reasoning" -> lookup k (_data p) = lookup k parsed).
Proof.
  intros self p.
  split; [vm_compute; reflexivity|].
  apply (chain_of_thought_keeps_the_reasoning self Sample.question 0 p).
  vm_compute; reflexivity.
Defined.

(** ** The initial prompt *)

Lemma startsWith_refl (s : string) : startsWith s s = true.
Proof. induction s as [|c s IH]; cbn; [reflexivity|]. now rewrite Ascii.eqb_refl. Qed.

Lemma includes_append_l (a b sub : string) :
  includes a sub = true -> includes (a ++ b) sub = true.
Proof.
  induction a as [|c a IH]; intros H.
  - destruct sub; [|discriminate]. cbn [append]. destruct b; reflexivity.
  - cbn [includes] in H. change (String c a ++ b) with (String c (a ++ b)).
    cbn [includes]. apply orb_true_iff in H. destruct H as [H|H].
    + change (String c (a ++ b)) with (String c a ++ b).
      now rewrite (startsWith_more _ _ b H).
    + rewrite (IH H). apply orb_true_r.
Qed.

Lemma includes_join (sep : string) (l : list string) (x : string) :
  In x l -> includes (join l sep) x = true.
Proof.
  induction l as [|a l IH]; [contradiction|]. intros Hin.
  destruct l as [|b l].
  - destruct Hin as [->|[]]. cbn [join String.concat].
    apply includes_starts, startsWith_refl.
  - rewrite join_cons. destruct Hin as [->|Hin].
    + apply includes_append_l, includes_starts, startsWith_refl.
    + apply includes_append_r, includes_append_r. now apply IH.
Qed.

Lemma NoDup_keys_unique {A : Type} (l : list (string * A)) (k : string) (v v' : A) :
  NoDup (map fst l) -> In (k, v) l -> In (k, v') l -> v = v'.
Proof.
  induction l as [|[k0 v0] l IH]; cbn [map fst]; [contradiction|].
  intros H Hv Hv'. inversion H as [|x xs Hnotin Hnodup]; subst.
  assert (Hout : forall u, In (k0, u) l -> False).
  { intros u Hu. apply Hnotin. apply in_map_iff. exists (k0, u). auto. }
  destruct Hv as [Ev|Hv]; destruct Hv' as [Ev'|Hv'].
  - congruence.
  - exfalso. injection Ev as -> _. eauto.
  - exfalso. injection Ev' as -> _. eauto.
  - now apply IH.
Qed.

Lemma defined_lookup_untouched {X A : Type} (kf : X -> string) (vf : X -> A)
  (l : list X) (k : string) :
  ~ In k (map kf l) ->
  forall acc : list (string * A),
    lookup k (fold_left (fun o x => define (kf x) (vf x) o) l acc) = lookup k acc.
Proof.
  induction l as [|x l IH]; intros Hnot acc; cbn [fold_left]; [reflexivity|].
  cbn [map In] in Hnot. rewrite IH by tauto.
  apply lookup_define_other. apply String.eqb_neq. intuition congruence.
Qed.

Lemma defined_lookup {X A : Type} (kf : X -> string) (vf : X -> A)
  (l : list X) (k : string) (v : A) :
  (forall x, In x l -> kf x = k -> vf x = v) ->
  In k (map kf l) ->
  forall acc : list (string * A),
    lookup k (fold_left (fun o x => define (kf x) (vf x) o) l acc) = Some v.
Proof.
  induction l as [|x l IH]; intros Hv Hin acc; [contradiction|].
  cbn [fold_left].
  destruct (in_dec string_dec k (map kf l)) as [Hl|Hl].
  - apply IH; [|exact Hl]. intros y Hy. apply Hv. now right.
  - rewrite (defined_lookup_untouched kf vf l k Hl).
    destruct Hin as [E|Hin]; [|contradiction].
    rewrite E, <- (Hv x (or_introl eq_refl) E). apply lookup_define_same.
Qed.

(** X24.  The initial prompt lists every tool.  A tool given to the
    constructor (under a name of its own, other than [__proto__]) stands
    in the initial prompt as "- <name>: <description>", with the
    description it was given, or with "Tool: <name>" where a bare
    function was given. *)
Theorem initial_prompt_lists_every_tool {World : Type}
  (sig : SignatureT) (m : ILanguageModel World)
  (toolset : list (string * ToolDefinition World)) (limit : option Decimal)
  (inputs : JSObject) (name : string) (d : ToolDefinition World) :
  NoDup (map fst toolset) ->
  In (name, d) toolset ->
  name <> "__proto__" ->
  includes (buildInitialPrompt (new sig m toolset limit) inputs)
    ("- " ++ name ++ ": "
       ++ match d with
          | BareFunction _ => "Tool: " ++ name
          | Described t => description t
          end) = true.
Proof.
  intros Hnodup Hin Hproto.
  assert (Hlookup : lookup name (tools (new sig m toolset limit))
                      = Some (normalize World (name, d))).
  { cbn [new tools].
    apply (defined_lookup (fun entry : string * ToolDefinition World => fst entry)
             (normalize World) toolset name).
    - intros [k d'] Hx Hk. cbn [fst] in Hk. subst k.
      now rewrite (NoDup_keys_unique toolset name d' d Hnodup Hx Hin).
    - apply in_map_iff. exists (name, d). auto. }
  apply lookup_In in Hlookup.
  unfold buildInitialPrompt.
  apply includes_append_r, includes_append_l, includes_join.
  apply in_map_iff. exists (name, normalize World (name, d)). split.
  - cbn [fst snd]. unfold normalize. cbn [fst snd]. now destruct d.
  - unfold ownTools. apply filter_In. split; [exact Hlookup|].
    cbn [fst]. apply negb_true_iff. now apply String.eqb_neq.
Qed.

Lemma initial_prompt_lists_every_tool_witness :
  includes
    (buildInitialPrompt
       (new (SigString "question -> answer") (Sample.always "Final Answer: 5")
          [("add", Sample.add); ("failingTool", Sample.failingTool)] None)
       Sample.question)
    ("- " ++ "failingTool" ++ ": " ++ "A tool that fails") = true.
Proof.
  apply (initial_prompt_lists_every_tool (SigString "question -> answer")
           (Sample.always "Final Answer: 5")
           [("add", Sample.add); ("failingTool", Sample.failingTool)] None
           Sample.question "failingTool" Sample.failingTool).
  - repeat constructor; cbn; intuition discriminate.
  - right. left. reflexivity.
  - discriminate.
Defined.

(** ** A prediction under a class-based signature *)

Lemma filter_not_empty {A : Type} (f : A -> bool) (l : list A) :
  (List.length (filter f l) =? 0) = false -> exists x, In x l /\ f x = true.
Proof.
  induction l as [|a l IH]; cbn; [discriminate|].
  destruct (f a) eqn:E; [eauto|]. intros H. destruct (IH H) as (x & Hx & Hf). eauto.
Qed.

Lemma finalAnswer_of_class {World : Type} (self : RespAct World) (step : nat)
  (response conv : string) (st st' : LoopState World) (c : SignatureClass)
  (p : Prediction) :
  signature self = SigClass c ->
  finalAnswer self step response conv st = Finish (Normal p) st' ->
  exists (parsed : JSObject) (text : string),
    Parsing.parseOutputFromClass c text = Normal parsed /\
    (exists name, In name (keys parsed) /\ notNullish parsed name = true) /\
    (_data p = define "steps" (JNum (ofZ (Z.of_nat step + 1))) parsed \/
     (hasProperty "answer" parsed = false /\
      _data p = define "steps" (JNum (ofZ (Z.of_nat step + 1)))
                  (define "answer" (extractFinalAnswer response) parsed))).
Proof.
  intros Hsig. unfold finalAnswer, parseOutput. rewrite Hsig. cbn [noSignature].
  cbn [Parsing.parseOutput].
  set (text := match extractFinalAnswer response with
               | JStr t => t
               | _ => JSON.stringify (extractFinalAnswer response)
               end).
  unfold Parsing.parseOutputFromClass at 1 2 3 4 5 6 7 8.
  set (parsed := fold_left _ (getOutputFields c) []).
  destruct (List.length (filter (notNullish parsed) (keys parsed)) =? 0) eqn:Hlen;
    [discriminate|].
  destruct (filter_not_empty _ _ Hlen) as (name & Hname & Hvalid).
  rewrite (existsb_some_true _ _ name Hname Hvalid).
  rewrite (keys_nonempty name parsed Hname). cbn [negb orb].
  intros [= <- _]. exists parsed, text. split; [reflexivity|].
  split; [eauto|]. cbn [_data].
  destruct (hasProperty "answer" parsed) eqn:Ha; cbn [negb andb]; [now left|].
  destruct (isNull (extractFinalAnswer response)); cbn [negb]; [now left|].
  right. split; reflexivity.
Qed.

Lemma iteration_finish_is_finalAnswer {World : Type} (self : RespAct World) (step : nat)
  (st st' : LoopState World) (p : Prediction) :
  iteration self step st = Finish (Normal p) st' ->
  exists response conv st1,
    finalAnswer self step response conv st1 = Finish (Normal p) st'.
Proof.
  destruct (generate (lm self) (promptOf st) (world st)) as [[response|e] w1] eqn:Hg.
  - destruct (extractToolCall response) as [c|] eqn:Hc.
    + destruct (seen st (keyOf c)) eqn:Hs.
      * rewrite (iteration_repeated self step st response w1 c Hg Hc Hs). discriminate.
      * destruct (iteration_new_call self step st response w1 c Hg Hc Hs)
          as (obs & w2 & tr2 & _ & Hi). rewrite Hi. discriminate.
    + destruct (includes (toLowerCase response) "final answer:") eqn:Hf.
      * rewrite (iteration_final_answer self step st response w1 Hg Hc Hf). eauto.
      * rewrite (iteration_no_marker self step st response w1 Hg Hc Hf). discriminate.
  - rewrite (iteration_rejected self step st e w1 Hg). discriminate.
Qed.

Lemma loop_finish_is_finalAnswer {World : Type} (self : RespAct World) :
  forall (n step : nat) (st : LoopState World) (p : Prediction),
    fst (loop self n step st) = Normal p ->
    exists step' response conv st1 st',
      finalAnswer self step' response conv st1 = Finish (Normal p) st'.
Proof.
  induction n as [|n IH]; intros step st p; cbn [loop]; [discriminate|].
  destruct (iteration self step st) as [st'|r st'] eqn:Hi.
  - apply IH.
  - cbn [fst]. intros ->.
    destruct (iteration_finish_is_finalAnswer self step st st' p Hi)
      as (response & conv & st1 & E).
    eauto 6.
Qed.

(** X25.  A prediction under a class-based signature binds every field.
    When [forward] returns a prediction under a class-based signature,
    every declared output field (of a name other than [__proto__]) is a
    key of it, bound to a value or to null, next to [steps]; and at least
    one declared field is bound to a value that is not null. *)
Theorem structured_prediction_binds_every_field {World : Type} (self : RespAct World)
  (c : SignatureClass) (inputs : JSObject) (w : World) (p : Prediction) :
  signature self = SigClass c ->
  fst (forward self inputs w) = Normal p ->
  (forall name, In name (keys (getOutputFields c)) -> name <> "__proto__" ->
                In name (keys (_data p))) /\
  In "steps" (keys (_data p)) /\
  (exists name v, In name (keys (getOutputFields c)) /\
                  lookup name (_data p) = Some v /\ isNull v = false).
Proof.
  intros Hsig Hp. unfold forward in Hp.
  destruct (loop_finish_is_finalAnswer self _ _ _ p Hp)
    as (step & response & conv & st1 & st' & Hfinal).
  destruct (finalAnswer_of_class self step response conv st1 st' c p Hsig Hfinal)
    as (parsed & text & Hparsed & (good & Hgood & Hvalid) & Hdata).
  unfold Parsing.parseOutputFromClass in Hparsed. injection Hparsed as Hparsed.
  assert (Hkeys : forall k, In k (keys parsed) <->
                            k <> "__proto__" /\ In k (keys (getOutputFields c))).
  { intros k. rewrite <- Hparsed.
    rewrite (fill_keys (fun entry : string * FieldConfig => fst entry)
               (fun entry => Parsing.extractFieldValue text (fst entry) (fc_type (snd entry)))
               (getOutputFields c) [] k).
    cbn [keys map In]. unfold keys. tauto. }
  assert (Hin : forall k, In k (keys parsed) -> In k (keys (_data p))).
  { intros k Hk. destruct Hdata as [-> | [_ ->]]; rewrite !keys_define; auto. }
  split; [|split].
  - intros name Hname Hproto. apply Hin, Hkeys. auto.
  - destruct Hdata as [-> | [_ ->]]; rewrite keys_define; auto.
  - unfold notNullish in Hvalid.
    destruct (lookup good parsed) as [v|] eqn:Ev; [|discriminate].
    apply negb_true_iff in Hvalid.
    destruct (String.eqb_spec good "steps") as [->|Hsteps].
    + exists "steps", (JNum (ofZ (Z.of_nat step + 1))).
      split; [apply (Hkeys "steps"), Hgood|].
      split; [|reflexivity].
      destruct Hdata as [-> | [_ ->]]; apply lookup_define_same.
    + exists good, v. split; [apply (Hkeys good), Hgood|]. split; [|exact Hvalid].
      destruct Hdata as [-> | [Ha ->]].
      * rewrite lookup_define_other by (now apply String.eqb_neq). exact Ev.
      * rewrite lookup_define_other by (now apply String.eqb_neq).
        rewrite lookup_define_other; [exact Ev|].
        apply String.eqb_neq. intros ->.
        unfold hasProperty, hasOwn in Ha. now rewrite Ev in Ha.
Qed.

Lemma structured_prediction_binds_every_field_witness :
  let self := new (SigClass Sample.Quote)
                (Sample.scripted ["Final Answer: symbol: ACME"])
                [("add", Sample.add)] (Some (integer 3)) in
  let p := {| _data := [("symbol", JStr "ACME"); ("price", JNull);
                        ("answer", JStr "symbol: ACME"); ("steps", JNum (ofZ 1))] |} in
  fst (forward self Sample.question 0) = Normal p /\
  (forall name, In name (keys (getOutputFields Sample.Quote)) -> name <> "__proto__" ->
                In name (keys (_data p))) /\
  In "steps" (keys (_data p)) /\
  (exists name v, In name (keys (getOutputFields Sample.Quote)) /\
                  lookup name (_data p) = Some v /\ isNull v = false).
Proof.
  intros self p.
  split; [vm_compute; reflexivity|].
  apply (structured_prediction_binds_every_field self Sample.Quote Sample.question 0 p).
  - reflexivity.
  - vm_compute; reflexivity.
Defined.

(** ** The prompt of a string signature with several outputs *)

Lemma lines_folded (info : string -> string) (tail : string) (l : list string) :
  l <> [] ->
  forall base : string,
    fold_left (fun prompt k => prompt ++ k ++ info k ++ tail ++ NLs) l base
      = base ++ join (map (fun k => k ++ info k ++ tail) l) NLs ++ NLs.
Proof.
  induction l as [|k l IH]; [congruence|]. intros _ base. cbn [fold_left].
  destruct l as [|k' l].
  - cbn [fold_left map join String.concat]. now rewrite !append_assoc.
  - rewrite IH by discriminate. cbn [map]. rewrite join_cons.
    now rewrite !append_assoc.
Qed.

Lemma trimEnd_line_feed (x : string) : trimEnd (x ++ NLs) = trimEnd x.
Proof.
  unfold trimEnd. rewrite reverse_append.
  change (reverse NLs ++ reverse x) with (String LF (reverse x)). reflexivity.
Qed.

Lemma typeInfo_declared (types : list (string * string)) (name type : string) :
  lookup name types = Some type -> type <> EmptyString ->
  Parsing.typeInfo types name = " (" ++ type ++ ")".
Proof.
  intros E Hne. unfold Parsing.typeInfo, read. rewrite E.
  destruct type; [congruence|reflexivity].
Qed.

Lemma join_ends_like_its_items (sep : string) (l : list string) :
  l <> [] ->
  Forall (fun x => noLeadingSpace (reverse x) = true /\ x <> EmptyString) l ->
  noLeadingSpace (reverse (join l sep)) = true /\ join l sep <> EmptyString.
Proof.
  induction l as [|a l IH]; [congruence|]. intros _ H.
  inversion H as [|x xs [Ha Hne] Hl]; subst.
  destruct l as [|b l].
  - cbn [join String.concat]. auto.
  - destruct (IH ltac:(discriminate) Hl) as [Hend Hj]. rewrite join_cons. split.
    + rewrite <- append_assoc, reverse_append.
      rewrite noLeadingSpace_append by (now apply reverse_not_empty). exact Hend.
    + destruct a; [congruence|discriminate].
Qed.

(** X26.  The prompt of a string signature with several output fields
    asks for each of them: it holds the line "Provide the following
    fields:", and for every output field the line
    "<name> (<type>): [your response]" with the type the signature gives
    the field ([string] where it gives none). *)
Theorem prompt_asks_for_every_output (s : string) (parsed : ParsedSignature)
  (given : JSObject) :
  Signature.parseStringSignature s = Normal parsed ->
  2 <= List.length (outputs parsed) ->
  exists prompt : string,
    Parsing.buildPrompt (SigString s) given = Normal prompt /\
    includes prompt "Provide the following fields:" = true /\
    (forall name, In name (outputs parsed) ->
       exists type,
         lookup name (types parsed) = Some type /\
         includes prompt (name ++ " (" ++ type ++ "): [your response]") = true).
Proof.
  intros Hparse Hlen.
  destruct (parseStringSignature_shape s parsed Hparse) as (_ & _ & Hnames & _).
  cbn [Parsing.buildPrompt]. unfold Parsing.buildPromptFromString. rewrite Hparse.
  destruct parsed as [ins outs tys]. cbn [inputs outputs types] in *.
  destruct outs as [|o1 [|o2 outs]]; cbn [List.length] in Hlen; try lia.
  set (head := fold_left _ ins EmptyString).
  set (line := fun k => k ++ Parsing.typeInfo tys k ++ ": [your response]").
  set (J := join (map line (o1 :: o2 :: outs)) NLs).
  rewrite (lines_folded (Parsing.typeInfo tys) ": [your response]" (o1 :: o2 :: outs)
             ltac:(discriminate)).
  fold line. fold J.
  assert (Hline : forall k, In k (o1 :: o2 :: outs) ->
            exists type, lookup k tys = Some type /\
                         line k = k ++ " (" ++ type ++ "): [your response]").
  { intros k Hk. destruct (Hnames k (in_or_app _ _ _ (or_intror Hk)))
      as (_ & type & Et & Hne).
    exists type. split; [exact Et|]. unfold line.
    rewrite (typeInfo_declared tys k type Et Hne). now rewrite !append_assoc. }
  assert (HJ : noLeadingSpace (reverse J) = true /\ J <> EmptyString).
  { apply join_ends_like_its_items; [discriminate|].
    apply Forall_forall. intros x Hx. apply in_map_iff in Hx.
    destruct Hx as (k & <- & Hk). destruct (Hline k Hk) as (type & _ & ->).
    split.
    - replace (k ++ " (" ++ type ++ "): [your response]")
        with ((k ++ " (" ++ type) ++ "): [your response]")
        by (now rewrite !append_assoc).
      now rewrite reverse_append.
    - destruct k; discriminate. }
  set (Z := trimStart (head ++ NLs) ++ "Provide the following fields:" ++ NLs ++ J).
  assert (Htrim : trim ((head ++ NLs ++ "Provide the following fields:" ++ NLs) ++ J ++ NLs)
                    = Z).
  { replace ((head ++ NLs ++ "Provide the following fields:" ++ NLs) ++ J ++ NLs)
      with ((head ++ NLs)
              ++ String "P" ("rovide the following fields:" ++ NLs ++ J ++ NLs))
      by (now rewrite !append_assoc).
    unfold trim. rewrite trimStart_append by reflexivity.
    replace (trimStart (head ++ NLs)
               ++ String "P" ("rovide the following fields:" ++ NLs ++ J ++ NLs))
      with (Z ++ NLs) by (unfold Z; now rewrite !append_assoc).
    rewrite trimEnd_line_feed. apply trimEnd_fixed.
    unfold Z. rewrite <- !append_assoc, reverse_append.
    rewrite noLeadingSpace_append by (apply reverse_not_empty, HJ). apply HJ. }
  exists Z. split; [now rewrite Htrim|]. split.
  - unfold Z. apply includes_middle.
  - intros name Hname. destruct (Hline name Hname) as (type & Et & El).
    exists type. split; [exact Et|]. rewrite <- El. unfold Z.
    apply includes_append_r, includes_append_r, includes_append_r.
    apply includes_join. apply in_map_iff. eauto.
Qed.

Lemma prompt_asks_for_every_output_witness :
  let s := "question -> answer, confidence: float" in
  let parsed := {| inputs := ["question"]; outputs := ["answer"; "confidence"];
                   types := [("question", "string"); ("answer", "string");
                             ("confidence", "float")] |} in
  exists prompt : string,
    Parsing.buildPrompt (SigString s) Sample.question = Normal prompt /\
    includes prompt "Provide the following fields:" = true /\
    (forall name, In name (outputs parsed) ->
       exists type,
         lookup name (types parsed) = Some type /\
         includes prompt (name ++ " (" ++ type ++ "): [your response]") = true).
Proof.
  intros s parsed.
  apply (prompt_asks_for_every_output s parsed Sample.question).
  - vm_compute; reflexivity.
  - cbn. lia.
Defined.

(** ** What a prompt depends on *)

Lemma fold_left_agree {A B : Type} (f g : A -> B -> A) (l : list B) :
  (forall a x, In x l -> f a x = g a x) ->
  forall a : A, fold_left f l a = fold_left g l a.
Proof.
  induction l as [|x l IH]; intros H a; cbn [fold_left]; [reflexivity|].
  rewrite (H a x (or_introl eq_refl)). apply IH. intros b y Hy. apply H. now right.
Qed.

(** X27.  A prompt depends on the declared inputs only.  Two objects of
    input values that agree on every declared input name (in what is
    read from them under the name) get the same prompt from
    [buildPrompt]: what else an object holds is left out. *)
Theorem prompt_depends_on_declared_inputs_only (sig : SignatureT)
  (names : list string) (given given' : JSObject) :
  declaredInputs sig = Normal names ->
  (forall name, In name names -> read name given = read name given') ->
  Parsing.buildPrompt sig given = Parsing.buildPrompt sig given'.
Proof.
  destruct sig as [s|c]; cbn [declaredInputs Parsing.buildPrompt].
  - unfold Parsing.buildPromptFromString.
    destruct (Signature.parseStringSignature s) as [[ins outs tys]|e]; [|reflexivity].
    intros [= <-] Hagree. cbn [inputs] in Hagree.
    assert (E : forall base,
              fold_left
                (fun prompt inputKey =>
                   match read inputKey given with
                   | Undefined => prompt
                   | m => prompt ++ inputKey ++ ": " ++ Parsing.inTemplate m ++ NLs
                   end) ins base
              = fold_left
                  (fun prompt inputKey =>
                     match read inputKey given' with
                     | Undefined => prompt
                     | m => prompt ++ inputKey ++ ": " ++ Parsing.inTemplate m ++ NLs
                     end) ins base).
    { apply fold_left_agree. intros a k Hk. now rewrite (Hagree k Hk). }
    now rewrite E.
  - intros [= <-] Hagree. unfold Parsing.buildPromptFromClass. do 2 f_equal.
    f_equal. f_equal. apply fold_left_agree. intros a entry Hentry.
    rewrite (Hagree (fst entry)); [reflexivity|]. unfold keys. now apply in_map.
Qed.

Lemma prompt_depends_on_declared_inputs_only_witness :
  Parsing.buildPrompt (SigString "question -> answer")
    [("question", JStr "Which city?"); ("hint", JStr "Look at the map.")]
  = Parsing.buildPrompt (SigString "question -> answer")
      [("note", JNull); ("question", JStr "Which city?")].
Proof.
  apply (prompt_depends_on_declared_inputs_only (SigString "question -> answer")
           ["question"]).
  - vm_compute; reflexivity.
  - intros name [<- | []]. reflexivity.
Defined.

(** ** The prompt of a class-based signature *)

Lemma entries_folded {X : Type} (line : X -> string) (l : list X) :
  l <> [] ->
  forall base : string,
    fold_left (fun prompt x => prompt ++ line x ++ NLs) l base
      = base ++ join (map line l) NLs ++ NLs.
Proof.
  induction l as [|k l IH]; [congruence|]. intros _ base. cbn [fold_left].
  destruct l as [|k' l].
  - cbn [fold_left map join String.concat]. now rewrite ?append_assoc.
  - rewrite IH by discriminate. cbn [map]. rewrite join_cons.
    now rewrite ?append_assoc.
Qed.

(** X28.  The prompt of a class-based signature asks for every output
    field: it holds the line "Provide:", and for every output field of
    the class the line "<name> (<description>):", or "<name>:" where the
    description is empty. *)
Theorem class_prompt_asks_for_every_output (c : SignatureClass) (given : JSObject)
  (name : string) (config : FieldConfig) :
  In (name, config) (getOutputFields c) ->
  includes (Parsing.buildPromptFromClass c given) "Provide:" = true /\
  includes (Parsing.buildPromptFromClass c given)
    (name ++ (if truthy (fc_description config)
              then " (" ++ fc_description config ++ ")" else EmptyString) ++ ":") = true.
Proof.
  intros Hin. unfold Parsing.buildPromptFromClass.
  set (head := fold_left _ (getInputFields c) _).
  set (line := fun entry : string * FieldConfig =>
                 fst entry
                   ++ (if truthy (fc_description (snd entry))
                       then " (" ++ fc_description (snd entry) ++ ")" else EmptyString)
                   ++ ":").
  assert (Efold : forall base,
            fold_left
              (fun prompt entry =>
                 let desc :=
                   if truthy (fc_description (snd entry))
                   then " (" ++ fc_description (snd entry) ++ ")" else EmptyString in
                 prompt ++ fst entry ++ desc ++ ":" ++ NLs)
              (getOutputFields c) base
            = fold_left (fun prompt x => prompt ++ line x ++ NLs) (getOutputFields c) base).
  { apply fold_left_agree. intros a entry _. unfold line. cbn zeta.
    now rewrite !append_assoc. }
  rewrite Efold.
  rewrite (entries_folded line (getOutputFields c)) by (intros E; now rewrite E in Hin).
  set (J := join (map line (getOutputFields c)) NLs).
  assert (HJ : noLeadingSpace (reverse J) = true /\ J <> EmptyString).
  { apply join_ends_like_its_items.
    - intros E. apply map_eq_nil in E. now rewrite E in Hin.
    - apply Forall_forall. intros x Hx. apply in_map_iff in Hx.
      destruct Hx as (entry & <- & _). unfold line. split.
      + rewrite <- append_assoc, reverse_append. reflexivity.
      + destruct (fst entry); [|discriminate].
        destruct (truthy (fc_description (snd entry))); discriminate. }
  set (Z := trimStart (head ++ NLs) ++ "Provide:" ++ NLs ++ J).
  assert (Htrim : trim ((head ++ NLs ++ "Provide:" ++ NLs) ++ J ++ NLs) = Z).
  { replace ((head ++ NLs ++ "Provide:" ++ NLs) ++ J ++ NLs)
      with ((head ++ NLs) ++ String "P" ("rovide:" ++ NLs ++ J ++ NLs))
      by (now rewrite !append_assoc).
    unfold trim. rewrite trimStart_append by reflexivity.
    replace (trimStart (head ++ NLs) ++ String "P" ("rovide:" ++ NLs ++ J ++ NLs))
      with (Z ++ NLs) by (unfold Z; now rewrite !append_assoc).
    rewrite trimEnd_line_feed. apply trimEnd_fixed.
    unfold Z. rewrite <- !append_assoc, reverse_append.
    rewrite noLeadingSpace_append by (apply reverse_not_empty, HJ). apply HJ. }
  rewrite Htrim. split.
  - unfold Z. apply includes_middle.
  - unfold Z. apply includes_append_r, includes_append_r, includes_append_r.
    apply includes_join. apply in_map_iff. exists (name, config). auto.
Qed.

Lemma class_prompt_asks_for_every_output_witness :
  includes (Parsing.buildPromptFromClass Sample.Quote Sample.question) "Provide:" = true /\
  includes (Parsing.buildPromptFromClass Sample.Quote Sample.question)
    "price (Output field):" = true.
Proof.
  apply (class_prompt_asks_for_every_output Sample.Quote Sample.question
           "price" (Sample.field "number")).
  right. left. reflexivity.
Defined.
